(** * mwc_growth: a shallow embedding of the statistical and model helpers

    The development follows the Python sources:
    - [mwc/model.py]   : the classes [MWC] and [SimpleRepression];
    - [mwc/stats.py]   : [ecdf], [compute_hpd], [bin_by_events] and
      [compute_mean_sem];
    - [code/analysis/cal_factor_EDA.py] : [log_posterior], its evaluation
      on a grid of calibration factors, the MAP loop and [bin_by_value];
    - [code/compile_data.py] : the loop that gathers accepted experiments
      and the background subtraction.

    Conventions.  Python floats are idealised as real numbers ([R]); numpy
    arrays of floats are lists of reals; Python exceptions are values of
    [exn] carried by [result].  The modules [MWC] and [SimpleRepression]
    take the numeric scalars the docstrings admit; the module [Untyped]
    follows the same classes on arguments that may be [None], which is
    what a keyword left out defaults to.  The module [Namespace] runs
    [log_posterior] in the namespace of its script, where the names it
    does not bind itself are looked up.  Functions of scipy and statsmodels
    that have no counterpart in the standard library of reals ([gammaln],
    [minimize_scalar], [approx_hess]) are section variables. *)

From stdpp Require Import gmap strings list sorting.
From Stdlib Require Import Ascii Reals Lra Lia ZArith.

(** ** Python values, exceptions and results *)

Inductive exn : Type :=
| RuntimeError (msg : string)
| ValueError (msg : string)
| TypeError (msg : string)
| NameError (name : string)
| AttributeError (name : string)
| KeyError (key : string)
| IndexError (msg : string)
| ZeroDivisionError (msg : string)
| LinAlgError (msg : string).

Inductive result (A : Type) : Type :=
| Ok (a : A)
| Raise (e : exn).

Arguments Ok {A} a.
Arguments Raise {A} e.

#[global] Instance result_ret : MRet result := @Ok.
#[global] Instance result_bind : MBind result := fun A B k m =>
  match m with
  | Ok a => k a
  | Raise e => Raise e
  end.

(** [for x in xs: body x], where the body may raise. *)
Fixpoint for_each {A : Type} (body : A -> result unit) (xs : list A) : result unit :=
  match xs with
  | [] => Ok tt
  | x :: xs' => body x ;; for_each body xs'
  end.

(** The values that flow through the untyped call sites of [model.py]. *)
Inductive pyval : Type :=
| PyNone
| PyBool (b : bool)
| PyFloat (r : R).

(** ** Float helpers *)

Definition float_lt (x y : R) : bool := if Rlt_dec x y then true else false.
Definition float_gt (x y : R) : bool := float_lt y x.
Definition float_eq (x y : R) : bool := if Req_dec_T x y then true else false.

(** [x ** y] on floats.  [Rpower] is the power function on a positive base,
    the only case the model classes reach after validation. *)
Definition float_pow (x y : R) : R := Rpower x y.

(** ** mwc/model.py *)

Module MWC.

(** The attributes set by [__init__]. *)
Record t : Type := mk
  { c : R; ep_ai : R; n : R; ka : R; ki : R }.

(** [for k in positive_kwargs.keys(): ... if (val < 0).any(): raise]. *)
Definition check_positive (kv : string * R) : result unit :=
  if float_lt kv.2 0
  then Raise (RuntimeError (kv.1 +:+ " must be positive."))
  else Ok tt.

(** [MWC.__init__].  The first loop of the source tests
    [type(kwargs[k]) is None], which no value satisfies, so it raises
    nothing; [type(ka) is float or int] is always truthy, so [_ka] and
    [_ki] are always bound to the one-element arrays of the arguments. *)
Definition init (effector_conc ka ki ep_ai n_sites : R) (log_transform : bool)
  : result t :=
  let self_ka := if log_transform then exp ka else ka in
  let self_ki := if log_transform then exp ki else ki in
  if float_eq ka 0 || float_eq ki 0
  then Raise (ValueError "ka and/or ki cannot be zero.")
  else
    for_each check_positive
      [("effector_conc", effector_conc); ("ka", self_ka);
       ("ki", self_ki); ("n_sites", n_sites)];;
    Ok {| c := effector_conc; ep_ai := ep_ai; n := n_sites;
          ka := self_ka; ki := self_ki |}.

Definition pact (self : t) : R :=
  let numer := float_pow (1 + c self / ka self) (n self) in
  let denom := (numer + exp (- ep_ai self)
                        * float_pow (1 + c self / ki self) (n self))%R in
  (numer / denom)%R.

Definition saturation (self : t) : R :=
  float_pow (1 + exp (- ep_ai self)
                 * float_pow (ka self / ki self) (n self)) (-1).

Definition leakiness (self : t) : R :=
  float_pow (1 + exp (- ep_ai self)) (-1).

End MWC.

Module SimpleRepression.

(** The keyword arguments that [__init__] forwards to [MWC]. *)
Record mwc_kwargs : Type := mk_kwargs
  { kw_effector_conc : R; kw_ka : R; kw_ki : R; kw_ep_ai : R;
    kw_n_sites : R; kw_log_transform : bool }.

Record t : Type := mk
  { R_ : R; ep_r : R; n_ns : R; allo : bool; mwc : option MWC.t }.

Definition check_positive (kv : string * R) : result unit :=
  if float_lt kv.2 0
  then Raise (RuntimeError (kv.1 +:+ " must be positive."))
  else Ok tt.

(** [SimpleRepression.__init__]; [kwargs = None] stands for the empty
    keyword dictionary. *)
Definition init (R0 ep_r0 n_ns0 : R) (kwargs : option mwc_kwargs) : result t :=
  for_each check_positive [("R", R0); ("n_ns", n_ns0)];;
  match kwargs with
  | Some kw =>
      m ← MWC.init (kw_effector_conc kw) (kw_ka kw) (kw_ki kw)
                     (kw_ep_ai kw) (kw_n_sites kw) (kw_log_transform kw);
      Ok {| R_ := R0; ep_r := ep_r0; n_ns := n_ns0;
            allo := true; mwc := Some m |}
  | None =>
      Ok {| R_ := R0; ep_r := ep_r0; n_ns := n_ns0;
            allo := false; mwc := None |}
  end.

(** Reading the attribute [self.mwc], which only allosteric instances
    carry. *)
Definition get_mwc (self : t) : result MWC.t :=
  match mwc self with
  | Some m => Ok m
  | None => Raise (AttributeError "mwc")
  end.

Definition fold_change (self : t) (wpa : bool) (num_pol ep_pol : option R)
    (pact : R) : result R :=
  if negb wpa then Raise (RuntimeError "not yet implemented")
  else
    p ← (if allo self
           then m ← get_mwc self; Ok (MWC.pact m)
           else if float_lt pact 0 || float_gt pact 1
                then Raise (TypeError "pact must be on the range [0, 1].")
                else Ok pact);
    let repression := (1 + p * R_ self / n_ns self * exp (- ep_r self))%R in
    Ok (float_pow repression (-1)).

(** The names bound at the top level of [model.py].  Inside a method a
    bare name that is not local is looked up here (no builtin is called
    [fold_change], [saturation] or [leakiness]). *)
Definition module_globals : list string :=
  ["np"; "scipy"; "load_constants"; "MWC"; "SimpleRepression"].

Definition lookup_global (name : string) : result string :=
  if bool_decide (name ∈ module_globals) then Ok name
  else Raise (NameError name).

(** [ec50] and [effective_hill]. *)
Definition ec50 (self : t) : result pyval :=
  Raise (RuntimeError "Not yet implemented.").

Definition effective_hill (self : t) : result pyval :=
  Raise (RuntimeError "Not yet implemented.").

Definition bohr_parameter (self : t) : result R :=
  pact ← (if allo self
          then m ← get_mwc self; Ok (MWC.pact m)
          else Ok 1%R);
  Ok (ln pact + ln (R_ self / n_ns self) - ep_r self)%R.

End SimpleRepression.

(** ** [model.py] on the arguments Python passes

    The two modules above take numbers.  The constructors of the source
    accept what they are given, and a keyword of [MWC] that is left out
    keeps its default, which is [None] for [effector_conc], [ka], [ki] and
    [ep_ai].  The module below follows the source on arguments that are
    [None], a bool or a number, and on a keyword dictionary. *)

Module Untyped.

(** The number a value stands for in arithmetic and comparisons: a bool
    counts as 0 or 1, [None] as nothing. *)
Definition num (v : pyval) : option R :=
  match v with
  | PyNone => None
  | PyBool b => Some (if b then 1 else 0)%R
  | PyFloat r => Some r
  end.

(** An operand of an arithmetic operation; on [None] the operation raises
    [TypeError] with the message [msg]. *)
Definition operand (msg : string) (v : pyval) : result R :=
  match num v with
  | Some r => Ok r
  | None => Raise (TypeError msg)
  end.

(** [x is True]. *)
Definition is_True (v : pyval) : bool :=
  match v with
  | PyBool true => true
  | _ => false
  end.

(** [(np.array([val]) == 0).any()]: [None] is not equal to 0. *)
Definition is_zero (v : pyval) : bool :=
  match num v with
  | Some r => float_eq r 0
  | None => false
  end.

(** [val = np.array([val]); if (val < 0).any(): raise ...]. *)
Definition check_positive (kv : string * pyval) : result unit :=
  v ← operand "'<' not supported between instances of 'NoneType' and 'int'" kv.2;
  if float_lt v 0
  then Raise (RuntimeError (kv.1 +:+ " must be positive."))
  else Ok tt.

Module MWC.

(** The attributes set by [__init__], as they are stored. *)
Record t : Type := mk
  { c : pyval; ep_ai : pyval; n : pyval; ka : pyval; ki : pyval }.

(** [np.exp(x)]. *)
Definition np_exp (v : pyval) : result pyval :=
  x ← operand "loop of ufunc does not support argument 0 of type NoneType" v;
  Ok (PyFloat (exp x)).

(** [MWC.__init__].  The loop that is meant to reject [None] tests
    [type(kwargs[k]) is None], which no value satisfies, so it raises
    nothing. *)
Definition init (effector_conc ka ki ep_ai n_sites log_transform : pyval)
    : result t :=
  self_ka ← (if is_True log_transform then np_exp ka else Ok ka);
  self_ki ← (if is_True log_transform then np_exp ki else Ok ki);
  if is_zero ka || is_zero ki
  then Raise (ValueError "ka and/or ki cannot be zero.")
  else
    for_each check_positive
      [("effector_conc", effector_conc); ("ka", self_ka);
       ("ki", self_ki); ("n_sites", n_sites)];;
    Ok {| c := effector_conc; ep_ai := ep_ai; n := n_sites;
          ka := self_ka; ki := self_ki |}.

(** The parameters of [__init__] after [self]. *)
Definition parameters : list string :=
  ["effector_conc"; "ka"; "ki"; "ep_ai"; "n_sites"; "log_transform"].

(** [MWC] called with the keyword dictionary unpacked: a keyword that
    is no parameter is refused, a parameter without keyword takes its
    default. *)
Definition new (kwargs : gmap string pyval) : result t :=
  if bool_decide (map_Forall (fun k _ => k ∈ parameters) kwargs)
  then init (default PyNone (kwargs !! "effector_conc"))
            (default PyNone (kwargs !! "ka"))
            (default PyNone (kwargs !! "ki"))
            (default PyNone (kwargs !! "ep_ai"))
            (default (PyFloat 2) (kwargs !! "n_sites"))
            (default (PyBool false) (kwargs !! "log_transform"))
  else Raise (TypeError "__init__() got an unexpected keyword argument").

(** [saturation]: the operand [-ep_ai] is evaluated before [ka / ki]. *)
Definition saturation (self : t) : result R :=
  e ← operand "bad operand type for unary -: 'NoneType'" (ep_ai self);
  a ← operand "unsupported operand type(s) for /" (ka self);
  i ← operand "unsupported operand type(s) for /" (ki self);
  m ← operand "unsupported operand type(s) for **" (n self);
  Ok (float_pow (1 + exp (- e) * float_pow (a / i) m) (-1)).

Definition leakiness (self : t) : result R :=
  e ← operand "bad operand type for unary -: 'NoneType'" (ep_ai self);
  Ok (float_pow (1 + exp (- e)) (-1)).

End MWC.

Module SimpleRepression.

Record t : Type := mk
  { R_ : pyval; ep_r : pyval; n_ns : pyval; allo : bool;
    mwc : option MWC.t }.

(** [SimpleRepression.__init__]; [if kwargs:] holds for a dictionary
    that is not empty. *)
Definition init (R0 ep_r0 n_ns0 : pyval) (kwargs : gmap string pyval)
    : result t :=
  for_each check_positive [("R", R0); ("n_ns", n_ns0)];;
  if Nat.eqb (size kwargs) 0
  then Ok {| R_ := R0; ep_r := ep_r0; n_ns := n_ns0;
             allo := false; mwc := None |}
  else
    m ← MWC.new kwargs;
    Ok {| R_ := R0; ep_r := ep_r0; n_ns := n_ns0;
          allo := true; mwc := Some m |}.

(** Reading the attribute [self.mwc], which only allosteric instances
    carry. *)
Definition get_mwc (self : t) : result MWC.t :=
  match mwc self with
  | Some m => Ok m
  | None => Raise (AttributeError "mwc")
  end.

(** [saturation]: the guard, the call to [self.mwc.saturation()] and the
    bare [return]; the statements after it are never run. *)
Definition saturation (self : t) (wpa num_pol ep_pol : pyval)
    : result pyval :=
  if negb (allo self)
  then Raise (RuntimeError
    "Saturation is only defined for allosteric molecules. (`allosteric = True`)")
  else
    m ← get_mwc self;
    pact ← MWC.saturation m;
    Ok PyNone.

Section Calls.
(** Calling a module-level object with positional arguments: the model
    is independent of what it does. *)
Variable call_object : string -> list pyval -> result pyval.

Definition leakiness (self : t) (wpa num_pol ep_pol : pyval)
    : result pyval :=
  pact ← (if allo self
            then m ← get_mwc self; MWC.leakiness m
            else Ok 1%R);
  f ← SimpleRepression.lookup_global "fold_change";
  call_object f [wpa; num_pol; ep_pol; PyFloat pact].

Definition dynamic_range (self : t) (wpa num_pol ep_pol : pyval)
    : result pyval :=
  f ← SimpleRepression.lookup_global "saturation";
  sat ← call_object f [wpa; num_pol; ep_pol];
  g ← SimpleRepression.lookup_global "leakiness";
  leak ← call_object g [wpa; num_pol; ep_pol];
  match sat, leak with
  | PyFloat s, PyFloat l => Ok (PyFloat (s - l))
  | _, _ => Raise (TypeError "unsupported operand type(s) for -")
  end.
End Calls.

End SimpleRepression.

End Untyped.

(** ** numpy on one-dimensional arrays *)

Module Np.

Definition sum (xs : list R) : R := foldr Rplus 0%R xs.

Definition zeros (len : nat) : list R := replicate len 0%R.

Definition mean (xs : list R) : R := (sum xs / INR (length xs))%R.

(** [np.std] with its default [ddof = 0]. *)
Definition std (xs : list R) : R :=
  sqrt (mean (map (fun x => Rsqr (x - mean xs)) xs)).

#[global] Instance Rle_decision (x y : R) : Decision (x <= y)%R := Rle_dec x y.

Definition sort (xs : list R) : list R := merge_sort Rle xs.

(** [np.arange(0, n)] for a length [n]. *)
Definition arange_len (len : nat) : list nat := seq 0 len.

(** [xs / d] for an integer array [xs] and a Python integer [d], element
    by element.  On a zero divisor numpy warns for every element it
    divides and stores [inf] or [nan]; the model records such an element
    as [ZeroDivision]. *)
Inductive quotient : Type :=
| Finite (r : R)
| ZeroDivision.

Definition true_divide (xs : list nat) (d : nat) : list quotient :=
  map (fun i => if Nat.eqb d 0 then ZeroDivision
                else Finite (INR i / INR d)) xs.

(** [np.arange(start, stop, step)] on integers.  The length is
    [ceil((stop - start) / step)], nothing when that is negative; a zero
    step fails inside the length computation. *)
Definition arange (start stop step : Z) : result (list Z) :=
  if Z.eqb step 0 then Raise (ZeroDivisionError "division by zero")
  else
    let len := Z.to_nat (- ((- (stop - start)) / step))%Z in
    Ok (map (fun i => (start + Z.of_nat i * step)%Z) (seq 0 len)).

(** [I1 - I2] under numpy's broadcasting of one-dimensional arrays. *)
Definition subtract (I1 I2 : list R) : result (list R) :=
  if Nat.eqb (length I1) (length I2) then Ok (zip_with Rminus I1 I2)
  else match I1, I2 with
       | [x], _ => Ok (map (fun y => (x - y)%R) I2)
       | _, [y] => Ok (map (fun x => (x - y)%R) I1)
       | _, _ => Raise (ValueError "operands could not be broadcast together")
       end.

(** [np.floor(x).astype(int)]. *)
Definition floor_int (x : R) : Z := Int_part x.

(** The position a slice bound [i] denotes in an array of length [len]:
    a negative bound counts from the end, and every bound is clipped to
    the array. *)
Definition slice_bound (len : nat) (i : Z) : nat :=
  if (i <? 0)%Z then Z.to_nat (Z.max 0 (Z.of_nat len + i))
  else Nat.min len (Z.to_nat i).

(** [xs[start:]] and [xs[:stop]]. *)
Definition slice_from {A : Type} (xs : list A) (start : Z) : list A :=
  drop (slice_bound (length xs) start) xs.

Definition slice_to {A : Type} (xs : list A) (stop : Z) : list A :=
  take (slice_bound (length xs) stop) xs.

(** [xs[i]] for an integer [i]: a negative index counts from the end, an
    index outside the array raises. *)
Definition item (xs : list R) (i : Z) : result R :=
  let j := if (i <? 0)%Z then (Z.of_nat (length xs) + i)%Z else i in
  if (j <? 0)%Z then Raise (IndexError "index out of bounds")
  else match xs !! Z.to_nat j with
       | Some x => Ok x
       | None => Raise (IndexError "index out of bounds")
       end.

(** [np.argmin]: the first position of the smallest entry. *)
Fixpoint argmin_from (best_i : nat) (best : R) (i : nat) (xs : list R) : nat :=
  match xs with
  | [] => best_i
  | x :: xs' => if float_lt x best then argmin_from i x (S i) xs'
                else argmin_from best_i best (S i) xs'
  end.

Definition argmin (xs : list R) : result nat :=
  match xs with
  | [] => Raise (ValueError "attempt to get argmin of an empty sequence")
  | x :: xs' => Ok (argmin_from 0 x 1 xs')
  end.

End Np.

(** ** mwc/stats.py *)

Module Stats.

Definition ecdf (data : list R) : list R * list Np.quotient :=
  (Np.sort data, Np.true_divide (Np.arange_len (length data)) (length data)).

(** A dataframe: its column labels and its rows, each row giving the
    float stored under every label. *)
Record DataFrame : Type := mkDF
  { columns : list string; rows : list (string -> R) }.

Definition len (df : DataFrame) : nat := length (rows df).

(** The order [sort_values] puts the rows in. *)
Definition row_le (by_ : string) (r1 r2 : string -> R) : Prop :=
  (r1 by_ <= r2 by_)%R.

#[global] Instance row_le_decision by_ r1 r2 : Decision (row_le by_ r1 r2) :=
  Rle_dec (r1 by_) (r2 by_).

(** [df.sort_values(by)], ascending.  Rows with equal keys keep their
    relative order here; the statements only use that the result is a
    sorted rearrangement of the rows. *)
Definition sort_values (df : DataFrame) (by_ : string) : result DataFrame :=
  if bool_decide (by_ ∈ columns df)
  then Ok {| columns := columns df; rows := merge_sort (row_le by_) (rows df) |}
  else Raise (KeyError by_).

(** [df.iloc[a:b]] for non-negative bounds. *)
Definition iloc (df : DataFrame) (a b : Z) : DataFrame :=
  {| columns := columns df;
     rows := take (Z.to_nat b - Z.to_nat a) (drop (Z.to_nat a) (rows df)) |}.

(** How pandas prints a list of labels. *)
Definition show_labels (ks : list string) : string :=
  "[" +:+ String.concat ", " (map (fun k => "'" +:+ k +:+ "'") ks) +:+ "]".

(** The message of the [KeyError] that [df[labels]] raises when a label
    is not a column.  It is one error for the whole list: it names the
    labels that are missing, or the whole list when none of its labels is
    a column. *)
Definition missing_message (labels missing : list string) : string :=
  if Nat.eqb (length missing) (length labels)
  then "None of [Index(" +:+ show_labels labels
       +:+ ", dtype='object')] are in the [columns]"
  else show_labels (remove_dups missing) +:+ " not in index".

(** The labels of the list that are not columns. *)
Definition missing_labels (cols labels : list string) : list string :=
  List.filter (fun k => negb (bool_decide (k ∈ cols))) labels.

(** [df[labels]] for a list of labels. *)
Definition check_labels (cols labels : list string) : result unit :=
  match missing_labels cols labels with
  | [] => Ok tt
  | missing => Raise (KeyError (missing_message labels missing))
  end.

Definition select (df : DataFrame) (labels : list string) : result DataFrame :=
  check_labels (columns df) labels;;
  Ok {| columns := labels; rows := rows df |}.

(** [df[k].values]. *)
Definition values (df : DataFrame) (k : string) : result (list R) :=
  if bool_decide (k ∈ columns df) then Ok (map (fun r => r k) (rows df))
  else Raise (KeyError k).

(** [bins[i]] on a list. *)
Definition getitem {A : Type} (xs : list A) (i : nat) : result A :=
  match xs !! i with
  | Some x => Ok x
  | None => Raise (IndexError "index out of bounds")
  end.

(** [averages[key][i] = v]: the array stored under [key] is updated in
    place. *)
Definition setitem (averages : gmap string (list R)) (key : string) (i : nat)
    (v : R) : result (gmap string (list R)) :=
  match averages !! key with
  | None => Raise (KeyError key)
  | Some arr =>
      if bool_decide (i < length arr)%nat
      then Ok (<[key := <[i := v]> arr]> averages)
      else Raise (IndexError "index out of bounds")
  end.

(** A loop that threads an accumulator and may raise. *)
Fixpoint for_fold {A S : Type} (body : S -> A -> result S) (s : S) (xs : list A)
    : result S :=
  match xs with
  | [] => Ok s
  | x :: xs' => s' ← body s x; for_fold body s' xs'
  end.

Definition sem_key (k : string) : string := k +:+ "_sem".

(** The two statements that build the dictionary of zero arrays. *)
Definition init_averages (average : list string) (nbins : nat)
    : gmap string (list R) :=
  let averages :=
    foldl (fun m k => <[k := Np.zeros nbins]> m) (∅ : gmap string (list R)) average in
  foldl (fun m k => <[sem_key k := Np.zeros nbins]> m) averages average.

(** The body of the inner loop, for the bin [i] and the column [k]. *)
Definition bin_column (d : DataFrame) (i : nat)
    (averages : gmap string (list R)) (k : string)
    : result (gmap string (list R)) :=
  vals ← values d k;
  let val := Np.mean vals in
  averages ← setitem averages (sem_key k) (i - 1)
               (Np.std vals / sqrt (INR (len d)))%R;
  setitem averages k (i - 1) val.

(** The body of the outer loop, for the bin [i]. *)
Definition bin_step (sorted_df : DataFrame) (bins : list Z)
    (average : list string) (averages : gmap string (list R)) (i : nat)
    : result (gmap string (list R)) :=
  lo ← getitem bins (i - 1);
  hi ← getitem bins i;
  d ← select (iloc sorted_df lo hi) average;
  for_fold (bin_column d i) averages (columns d).

Definition bin_by_events (df : DataFrame) (bin_size : Z) (sortby : string)
    (average : list string) : result (gmap string (list R)) :=
  sorted_df ← sort_values df sortby;
  bins ← Np.arange 0 (Z.of_nat (len sorted_df) + bin_size) bin_size;
  let averages := init_averages average (length bins) in
  for_fold (bin_step sorted_df bins average) averages
           (seq 1 (length bins - 1)).

(** [compute_hpd]: the narrowest window of [n_samples + 1] consecutive
    sorted samples.  The number [n_samples] is the floor of the product
    [mass_frac * n] as the machine computes it, and a product that rounds
    across an integer changes the floor; [fmul] is the multiplication of
    floats. *)
Definition compute_hpd_rounded (fmul : R -> R -> R) (trace : list R)
    (mass_frac : R) : result (list R) :=
  let d := Np.sort trace in
  let n := length trace in
  let n_samples := Np.floor_int (fmul mass_frac (INR n)) in
  int_width ← Np.subtract (Np.slice_from d n_samples)
                          (Np.slice_to d (Z.of_nat n - n_samples));
  min_int ← Np.argmin int_width;
  lo ← Np.item d (Z.of_nat min_int);
  hi ← Np.item d (Z.of_nat min_int + n_samples);
  Ok [lo; hi].

(** [compute_hpd] where the product is computed without rounding. *)
Definition compute_hpd (trace : list R) (mass_frac : R) : result (list R) :=
  compute_hpd_rounded Rmult trace mass_frac.

(** [Series.std] of pandas, whose default is [ddof = 1]. *)
Definition series_std (xs : list R) : R :=
  sqrt (Np.sum (map (fun x => Rsqr (x - Np.mean xs)) xs)
        / (INR (length xs) - 1)).

(** [compute_mean_sem]: the entries [mean] and [sem] of the series it
    returns. *)
Definition compute_mean_sem (df : DataFrame) (key : string) : result (R * R) :=
  vals ← values df key;
  let mean_val := Np.mean vals in
  let sem_val := (series_std vals / sqrt (INR (len df)))%R in
  Ok (mean_val, sem_val).

End Stats.

(** ** code/analysis/cal_factor_EDA.py *)

Module CalFactor.

(** [scipy.stats.halfnorm(loc, scale).logpdf(x)] on its support
    [loc <= x]: the standard log density [log(sqrt(2/pi)) - y*y/2] at
    [y = (x - loc) / scale], minus [log(scale)]. *)
Definition halfnorm_logpdf (loc scale x : R) : R :=
  let y := ((x - loc) / scale)%R in
  (1 / 2 * ln (2 / PI) - y * y / 2 - ln scale)%R.

(** The density whose logarithm it is. *)
Definition halfnorm_pdf (loc scale x : R) : R :=
  let y := ((x - loc) / scale)%R in
  (sqrt (2 / PI) * exp (- (y * y / 2)) / scale)%R.

(** [(I < 0).any()]. *)
Definition any_negative (I : list R) : bool :=
  existsb (fun x => float_lt x 0) I.

(** [I1 + I2] under numpy's broadcasting of one-dimensional arrays. *)
Definition add (I1 I2 : list R) : result (list R) :=
  if Nat.eqb (length I1) (length I2) then Ok (zip_with Rplus I1 I2)
  else match I1, I2 with
       | [x], _ => Ok (map (fun y => (x + y)%R) I2)
       | _, [y] => Ok (map (fun x => (x + y)%R) I1)
       | _, _ => Raise (ValueError "operands could not be broadcast together")
       end.

Definition div_scalar (I : list R) (alpha : R) : list R :=
  map (fun x => (x / alpha)%R) I.

Definition add_scalar (I : list R) (s : R) : list R :=
  map (fun x => (x + s)%R) I.

(** [np.linspace(start, stop, num)] and [np.logspace(start, stop, num)]. *)
Definition linspace (start stop : R) (num : nat) : list R :=
  map (fun i => (start + INR i * ((stop - start) / INR (num - 1)))%R)
      (seq 0 num).

Definition logspace (start stop : R) (num : nat) : list R :=
  map (fun e => Rpower 10 e) (linspace start stop num).

(** [scipy.special.logsumexp]. *)
Definition logsumexp (xs : list R) : R := ln (Np.sum (map exp xs)).

(** A lineage pair with its replicate labels and the two
    autofluorescence-subtracted intensities. *)
Record lineage : Type := mkLineage
  { carbon : string; temp : Z; date : Z; run_number : Z;
    I_1_sub : R; I_2_sub : R }.

Definition replicate_key : Type := string * Z * Z * Z.

Definition key_of (r : lineage) : replicate_key :=
  (carbon r, temp r, date r, run_number r).

(** The filter that defines [lin_final] from [lin_sub]. *)
Definition keep (r : lineage) : bool :=
  negb (float_lt (I_1_sub r) 0) && negb (float_lt (I_2_sub r) 0)
  && (negb (float_eq (I_1_sub r) 0) && negb (float_eq (I_2_sub r) 0)).

Definition lin_final (lin_sub : list lineage) : list lineage :=
  List.filter keep lin_sub.

(** [df.groupby(['carbon', 'temp', 'date', 'run_number'])]: one group per
    label tuple that occurs, holding the rows that carry it.  The order
    of the groups plays no part in the statements. *)
Definition groupby (df : list lineage) : list (replicate_key * list lineage) :=
  map (fun g => (g, List.filter (fun r => bool_decide (key_of r = g)) df))
      (remove_dups (map key_of df)).

(** The dataframe stored for one replicate. *)
Record post_frame : Type := mkPost
  { post : list R; log_post : list R; alpha : list R;
    post_key : replicate_key }.

Section Scipy.

(** [scipy.special.gammaln]. *)
Variable gammaln : R -> R.

Definition log_posterior (alpha : R) (I1 I2 : list R) (negative : bool)
    : result R :=
  let prefactor := if negative then (-1)%R else 1%R in
  if any_negative I1 || any_negative I2
  then Raise (ValueError "Negative values in I1 or I2")
  else
    let n1 := div_scalar I1 alpha in
    let n2 := div_scalar I2 alpha in
    tot ← add I1 I2;
    let ntot := div_scalar tot alpha in
    let binom := (Np.sum (map gammaln (add_scalar ntot 1))
                  - Np.sum (map gammaln (add_scalar n1 1))
                  - Np.sum (map gammaln (add_scalar n2 1)))%R in
    let log_prior := halfnorm_logpdf 0 500 alpha in
    let prob := (- Np.sum ntot * ln 2)%R in
    let cov := (- INR (length I1) * ln alpha)%R in
    Ok (prefactor * (prob + cov + binom + log_prior))%R.

Definition alpha_range : list R := logspace 0 (401 / 100) 500.

(** The inner loop [for i, a in enumerate(alpha_range): logp[i] = ...]. *)
Definition fill_logp (I1 I2 : list R) : result (list R) :=
  Stats.for_fold
    (fun logp ia => v ← log_posterior ia.2 I1 I2 false;
                    Ok (<[ia.1 := v]> logp))
    (Np.zeros (length alpha_range))
    (imap (fun i a => (i, a)) alpha_range).

(** The body of the loop over the replicates. *)
Definition eval_group (gd : replicate_key * list lineage) : result post_frame :=
  logp ← fill_logp (map I_1_sub gd.2) (map I_2_sub gd.2);
  let posterior := map (fun l => exp (l - logsumexp logp)) logp in
  Ok {| post := posterior; log_post := logp; alpha := alpha_range;
        post_key := gd.1 |}.

(** The loop that fills [post_dfs]. *)
Definition grid_search (lin : list lineage) : result (list post_frame) :=
  Stats.for_fold (fun post_dfs gd => df ← eval_group gd; Ok (post_dfs ++ [df]))
                 [] (groupby lin).

(** [scipy.optimize.minimize_scalar(fun, bracket, args=...)], returning
    the [x] of its result. *)
Variable minimize_scalar : (R -> result R) -> list R -> result R.

(** The function [minimize_scalar] evaluates for one replicate: the
    extra arguments are [(I1, I2, True)]. *)
Definition objective (d : list lineage) (a : R) : result R :=
  log_posterior a (map I_1_sub d) (map I_2_sub d) true.

Definition find_map (d : list lineage) : result R :=
  minimize_scalar (objective d) [1; 10000]%R.

(** [smnd.approx_hess([x], f, args)] for a function of one variable: the
    single entry of the Hessian matrix it returns. *)
Variable approx_hess : R -> (R -> result R) -> result R.

(** [np.linalg.inv] on a matrix with one entry. *)
Definition linalg_inv (h : R) : result R :=
  if float_eq h 0 then Raise (LinAlgError "Singular matrix")
  else Ok (/ h)%R.

(** [np.sqrt], which is [nan] on a negative number. *)
Definition np_sqrt (x : R) : option R :=
  if float_lt x 0 then None else Some (sqrt x).

(** The first five statements of the body of the MAP loop: the estimate
    [alpha_mu] and its standard deviation [alpha_std]. *)
Definition estimate (d : list lineage) : result (R * option R) :=
  alpha_mu ← find_map d;
  hess ← approx_hess alpha_mu
           (fun a => log_posterior a (map I_1_sub d) (map I_2_sub d) false);
  inv ← linalg_inv hess;
  let cov := (- inv)%R in
  let alpha_std := np_sqrt cov in
  Ok (alpha_mu, alpha_std).

(** A row of [lin_final] with the two columns the loop adds; a row that
    was never assigned holds [nan]. *)
Record estimated : Type := mkEstimated
  { lin_row : lineage; alpha_opt : option R; alpha_std : option R }.

(** The two assignments through [lin_final.loc].  The group label [g] is
    [(carbon, temp, date, run_number)]: the first mask compares [date] with
    [g[2]], the second compares it with [g[3]]. *)
Definition set_alpha_opt (g : replicate_key) (alpha_mu : R) (r : estimated)
    : estimated :=
  if bool_decide (date (lin_row r) = g.1.2)
     && bool_decide (carbon (lin_row r) = g.1.1.1)
     && bool_decide (temp (lin_row r) = g.1.1.2)
     && bool_decide (run_number (lin_row r) = g.2)
  then mkEstimated (lin_row r) (Some alpha_mu) (alpha_std r)
  else r.

Definition set_alpha_std (g : replicate_key) (v : option R) (r : estimated)
    : estimated :=
  if bool_decide (date (lin_row r) = g.2)
     && bool_decide (carbon (lin_row r) = g.1.1.1)
     && bool_decide (temp (lin_row r) = g.1.1.2)
     && bool_decide (run_number (lin_row r) = g.2)
  then mkEstimated (lin_row r) (alpha_opt r) v
  else r.

(** The body of the MAP loop on the frame [lin_final] as it stands. *)
Definition map_step (frame : list estimated)
    (gd : replicate_key * list lineage) : result (list estimated) :=
  e ← estimate gd.2;
  Ok (map (set_alpha_std gd.1 e.2) (map (set_alpha_opt gd.1 e.1) frame)).

(** The loop that finds the MAP of every replicate and writes it into
    [lin_final]. *)
Definition map_estimates (lin : list lineage) : result (list estimated) :=
  Stats.for_fold map_step (map (fun r => mkEstimated r None None) lin)
                 (groupby lin).

End Scipy.

(** The posterior density the script documents:
    [g(alpha) / alpha^k * prod_i Gamma(ntot_i + 1) /
     (Gamma(n1_i + 1) Gamma(n2_i + 1)) * 2^(- ntot_i)]. *)
Section ClosedForm.
(** The gamma function on the positive reals. *)
Variable Gamma : R -> R.

Fixpoint prod (xs : list R) : R :=
  match xs with
  | [] => 1%R
  | x :: xs' => (x * prod xs')%R
  end.

Definition partition_term (alpha : R) (i12 : R * R) : R :=
  (Gamma ((i12.1 + i12.2) / alpha + 1)
   / (Gamma (i12.1 / alpha + 1) * Gamma (i12.2 / alpha + 1))
   * Rpower 2 (- ((i12.1 + i12.2) / alpha)))%R.

Definition posterior (alpha : R) (I1 I2 : list R) : R :=
  (halfnorm_pdf 0 500 alpha * / (alpha ^ length I1)
   * prod (map (partition_term alpha) (zip I1 I2)))%R.
End ClosedForm.

(** *** [bin_by_value] *)

(** A float that may be [nan]. *)
Definition nan_sub (a b : option R) : option R :=
  match a, b with
  | Some x, Some y => Some (x - y)%R
  | _, _ => None
  end.

Definition nan_add (a b : option R) : option R :=
  match a, b with
  | Some x, Some y => Some (x + y)%R
  | _, _ => None
  end.

(** [np.mean] of a column, [nan] when the column is empty. *)
Definition nan_mean (xs : list R) : option R :=
  match xs with
  | [] => None
  | _ => Some (Np.mean xs)
  end.

(** [np.std(xs) / np.sqrt(len)], [nan] when the column is empty. *)
Definition nan_sem (xs : list R) (len : nat) : option R :=
  match xs with
  | [] => None
  | _ => Some (Np.std xs / sqrt (INR len))%R
  end.

(** [arr[i] = v] on an array. *)
Definition array_set (arr : list (option R)) (i : nat) (v : option R)
    : result (list (option R)) :=
  if bool_decide (i < length arr)%nat then Ok (<[i := v]> arr)
  else Raise (IndexError "index out of bounds").

(** The mask [(df['summed'] >= lower) & (df['summed'] <= upper)]. *)
Definition in_bin (lower upper : R) (r : string -> R) : bool :=
  negb (float_lt (r "summed") lower) && negb (float_lt upper (r "summed")).

(** The four arrays the loop fills. *)
Record bin_arrays : Type := mkArrays
  { summed_means : list (option R); fluct_means : list (option R);
    summed_sems : list (option R); fluct_sems : list (option R) }.

(** A row of the dataframe [bin_by_value] returns. *)
Record binned : Type := mkBinned
  { summed_mean : option R; summed_sem : option R;
    fluct_mean : option R; fluct_sem : option R;
    summed_min : option R; summed_max : option R;
    fluct_min : option R; fluct_max : option R }.

(** The body of the loop over the bins. *)
Definition bin_value_step (df : Stats.DataFrame) (bins : list R)
    (arrs : bin_arrays) (i : nat) : result bin_arrays :=
  b_lo ← Stats.getitem bins i;
  let lower := (b_lo - 1)%R in
  b_hi ← Stats.getitem bins (i + 1);
  let upper := (b_hi + 1)%R in
  _ ← Stats.values df "summed";
  let samps := Stats.mkDF (Stats.columns df)
                 (List.filter (in_bin lower upper) (Stats.rows df)) in
  s ← Stats.values samps "summed";
  a1 ← array_set (summed_means arrs) i (nan_mean s);
  f ← Stats.values samps "fluct";
  a2 ← array_set (fluct_means arrs) i (nan_mean f);
  a3 ← array_set (summed_sems arrs) i (nan_sem s (Stats.len samps));
  a4 ← array_set (fluct_sems arrs) i (nan_sem f (Stats.len samps));
  Ok (mkArrays a1 a2 a3 a4).

(** The frame assembled from the arrays, with its four derived columns. *)
Definition assemble (arrs : bin_arrays) : list binned :=
  zip_with
    (fun sm fm =>
       mkBinned sm.1 sm.2 fm.1 fm.2
         (nan_sub sm.1 sm.2) (nan_add sm.1 sm.2)
         (nan_sub fm.1 fm.2) (nan_add fm.1 fm.2))
    (zip (summed_means arrs) (summed_sems arrs))
    (zip (fluct_means arrs) (fluct_sems arrs)).

Definition bin_by_value (df : Stats.DataFrame) (bins : list R)
    : result (list binned) :=
  match bins with
  | [] => Raise (ValueError "negative dimensions are not allowed")
  | _ =>
      let len := (length bins - 1)%nat in
      let zeros := replicate len (Some 0%R) in
      arrs ← Stats.for_fold (bin_value_step df bins)
                (mkArrays zeros zeros zeros zeros) (seq 0 len);
      Ok (assemble arrs)
  end.

End CalFactor.

(** ** [log_posterior] in the namespace of the script

    A call of [log_posterior] runs in the module namespace of
    [cal_factor_EDA.py].  Its parameters and the names it assigns are
    local to the call; every other name it mentions ([scipy], [np],
    [len], [ValueError]) is looked up, each time it is mentioned, among
    the module-level variables and then among the builtins.  The
    namespace is threaded through the call, so that what the call reads
    from it and what it leaves in it can be stated. *)

Module Namespace.

(** What a module-level name can be bound to. *)
Inductive value : Type :=
| Module_ (path : string)
| Callable (path : string)
| Array (xs : list R)
| Float (r : R)
| Object (tag : string).

Definition namespace : Type := gmap string value.

(** The builtins the function mentions. *)
Definition builtins : namespace :=
  {[ "len" := Callable "len"; "ValueError" := Callable "ValueError" ]}.

(** A computation in the namespace: its outcome and the namespace it
    leaves.  An exception leaves the namespace as it is when raised. *)
Definition M (A : Type) : Type := namespace -> result A * namespace.

Definition ret {A : Type} (a : A) : M A := fun G => (Ok a, G).

Definition bind {A B : Type} (m : M A) (k : A -> M B) : M B :=
  fun G => match m G with
           | (Ok a, G') => k a G'
           | (Raise e, G') => (Raise e, G')
           end.

Definition raise {A : Type} (e : exn) : M A := fun G => (Raise e, G).

(** A pure operation that may raise. *)
Definition lift {A : Type} (r : result A) : M A := fun G => (r, G).

(** Reading a name that is not local: the module-level variables first,
    then the builtins. *)
Definition load (name : string) : M value :=
  fun G => match G !! name with
           | Some v => (Ok v, G)
           | None => match builtins !! name with
                     | Some v => (Ok v, G)
                     | None => (Raise (NameError name), G)
                     end
           end.

(** Binding a module-level name, as an assignment at the top level of the
    script or under a [global] declaration does. *)
Definition store (name : string) (v : value) : M unit :=
  fun G => (Ok tt, <[name := v]> G).

(** The members of the libraries that [log_posterior] reaches. *)
Definition member (path : string) : result value :=
  if bool_decide (path ∈ ["scipy.special"; "scipy.stats"]) then Ok (Module_ path)
  else if bool_decide (path ∈ ["numpy.log"; "scipy.special.gammaln";
                               "scipy.stats.halfnorm"])
       then Ok (Callable path)
       else Raise (AttributeError path).

(** [v.attr]. *)
Definition getattr (v : value) (attr : string) : M value :=
  match v with
  | Module_ path => lift (member (path +:+ "." +:+ attr))
  | _ => raise (AttributeError attr)
  end.

Section Calls.
(** [scipy.special.gammaln] on a float. *)
Variable gammaln : R -> R.

(** [f(x)] for a float [x]. *)
Definition call_float (f : value) (x : R) : M R :=
  match f with
  | Callable "numpy.log" => ret (ln x)
  | _ => raise (TypeError "object is not callable")
  end.

(** [f(xs)] for an array [xs]. *)
Definition call_array (f : value) (xs : list R) : M (list R) :=
  match f with
  | Callable "scipy.special.gammaln" => ret (map gammaln xs)
  | _ => raise (TypeError "object is not callable")
  end.

(** [f(xs)] for the builtin [len]. *)
Definition call_len (f : value) (xs : list R) : M nat :=
  match f with
  | Callable "len" => ret (length xs)
  | _ => raise (TypeError "object is not callable")
  end.

(** [f(loc, scale).logpdf(x)]. *)
Definition call_logpdf (f : value) (loc scale x : R) : M R :=
  match f with
  | Callable "scipy.stats.halfnorm" => ret (CalFactor.halfnorm_logpdf loc scale x)
  | _ => raise (TypeError "object is not callable")
  end.

(** [raise cls(msg)]. *)
Definition raise_new {A : Type} (cls : value) (msg : string) : M A :=
  match cls with
  | Callable "ValueError" => raise (ValueError msg)
  | _ => raise (TypeError "exceptions must derive from BaseException")
  end.

(** [scipy.special.gammaln(xs).sum()]. *)
Definition gammaln_sum (xs : list R) : M R :=
  bind (load "scipy") (fun sp =>
  bind (getattr sp "special") (fun special =>
  bind (getattr special "gammaln") (fun g =>
  bind (call_array g xs) (fun ys =>
  ret (Np.sum ys))))).

(** [np.log(x)]. *)
Definition np_log (x : R) : M R :=
  bind (load "np") (fun np =>
  bind (getattr np "log") (fun log =>
  call_float log x)).

(** The body of [log_posterior], statement by statement. *)
Definition log_posterior (alpha : R) (I1 I2 : list R) (negative : bool)
    : M R :=
  let prefactor := if negative then (-1)%R else 1%R in
  if CalFactor.any_negative I1 || CalFactor.any_negative I2
  then bind (load "ValueError") (fun cls =>
       raise_new cls "Negative values in I1 or I2")
  else
    let n1 := CalFactor.div_scalar I1 alpha in
    let n2 := CalFactor.div_scalar I2 alpha in
    bind (lift (CalFactor.add I1 I2)) (fun tot =>
    let ntot := CalFactor.div_scalar tot alpha in
    bind (gammaln_sum (CalFactor.add_scalar ntot 1)) (fun g_tot =>
    bind (gammaln_sum (CalFactor.add_scalar n1 1)) (fun g_1 =>
    bind (gammaln_sum (CalFactor.add_scalar n2 1)) (fun g_2 =>
    let binom := (g_tot - g_1 - g_2)%R in
    bind (load "scipy") (fun sp =>
    bind (getattr sp "stats") (fun stats =>
    bind (getattr stats "halfnorm") (fun halfnorm =>
    bind (call_logpdf halfnorm 0 500 alpha) (fun log_prior =>
    bind (np_log 2) (fun log2 =>
    let prob := (- Np.sum ntot * log2)%R in
    bind (load "len") (fun len =>
    bind (call_len len I1) (fun k =>
    bind (np_log alpha) (fun log_alpha =>
    let cov := (- INR k * log_alpha)%R in
    ret (prefactor * (prob + cov + binom + log_prior))%R)))))))))))).

(** The statement [logp[i] = log_posterior(a, I1, I2)] of the grid loop,
    which runs at the top level of the script: [logp] is a module-level
    array. *)
Definition assign_logp (i : nat) (a : R) (I1 I2 : list R) : M unit :=
  bind (log_posterior a I1 I2 false) (fun v =>
  bind (load "logp") (fun logp =>
  match logp with
  | Array xs =>
      if bool_decide (i < length xs)%nat then store "logp" (Array (<[i := v]> xs))
      else raise (IndexError "index out of bounds")
  | _ => raise (TypeError "object does not support item assignment")
  end)).
End Calls.

End Namespace.

(** ** code/compile_data.py *)

Module CompileData.

Definition ascii_lower (a : ascii) : ascii :=
  let n := nat_of_ascii a in
  if (Nat.leb 65 n && Nat.leb n 90)%bool then ascii_of_nat (n + 32) else a.

(** [str.lower] on ASCII text. *)
Fixpoint lower (s : string) : string :=
  match s with
  | EmptyString => EmptyString
  | String a s' => String (ascii_lower a) (lower s')
  end.

(** What the script finds for one experiment directory: the front matter
    scraped from its README and the matches of the two glob patterns. *)
Record experiment : Type := mkExp
  { info : gmap string string;
    fluct_glob : list string;
    fc_glob : list string }.

Section Pandas.
Variable frame : Type.
(** [pd.read_csv]. *)
Variable read_csv : string -> result frame.

(** [d[key]] on a dictionary. *)
Definition dict_get (d : gmap string string) (key : string) : result string :=
  match d !! key with
  | Some v => Ok v
  | None => Raise (KeyError key)
  end.

(** [xs[0]] on a list. *)
Definition first {A : Type} (xs : list A) : result A :=
  match xs with
  | x :: _ => Ok x
  | [] => Raise (IndexError "list index out of range")
  end.

(** The body of the loop over the dilution experiments. *)
Definition compile_step (acc : list frame * list frame) (d : experiment)
    : result (list frame * list frame) :=
  status ← dict_get (info d) "status";
  if String.eqb (lower status) "accepted"
  then
    fluct_path ← first (fluct_glob d);
    fluct_df ← read_csv fluct_path;
    fc_path ← first (fc_glob d);
    fc_df ← read_csv fc_path;
    Ok (acc.1 ++ [fluct_df], acc.2 ++ [fc_df])
  else Ok acc.

Definition compile_loop (dil_exp : list experiment)
    : result (list frame * list frame) :=
  Stats.for_fold compile_step ([], []) dil_exp.
(** [pd.concat] of a non-empty list of frames. *)
Variable concat : list frame -> frame.

Definition pd_concat (frames : list frame) : result frame :=
  match frames with
  | [] => Raise (ValueError "No objects to concatenate")
  | _ => Ok (concat frames)
  end.

(** The loop followed by the two concatenations. *)
Definition compile_frames (dil_exp : list experiment) : result (frame * frame) :=
  acc ← compile_loop dil_exp;
  fluct_df ← pd_concat acc.1;
  fc_df ← pd_concat acc.2;
  Ok (fluct_df, fc_df).
End Pandas.

(** *** The background subtraction *)

(** A row of a compiled frame: the columns the script compares, and the
    float held in every other column ([None] is [nan]).  The fluctuation
    frame names its run column [run_no], the fold-change frame
    [run_number]. *)
Record row : Type := mkRow
  { carbon : string; date : Z; run : Z; strain : string;
    num : string -> option R }.

(** [df[k] = ...] on one row. *)
Definition set_num (k : string) (v : option R) (r : row) : row :=
  mkRow (carbon r) (date r) (run r) (strain r)
        (fun k' => if String.eqb k' k then v else num r k').

Definition nan_mul (a b : option R) : option R :=
  match a, b with
  | Some x, Some y => Some (x * y)%R
  | _, _ => None
  end.

Definition nan_sqr (a : option R) : option R :=
  match a with
  | Some x => Some (x ^ 2)%R
  | None => None
  end.

(** [Series.mean]: the [nan] entries are skipped, and the mean of what is
    left is [nan] when nothing is left. *)
Definition series_mean (xs : list (option R)) : option R :=
  CalFactor.nan_mean (omap (fun x : option R => x) xs).

(** The mask that selects the fold-change rows of the group [g]. *)
Definition in_group (g : string * Z * Z) (r : row) : bool :=
  String.eqb (carbon r) g.1.1 && Z.eqb (date r) g.1.2 && Z.eqb (run r) g.2.

(** The mask [_fc_data['strain'] == 'auto']. *)
Definition is_auto (r : row) : bool := String.eqb (strain r) "auto".

(** The body of the loop over the groups of the fluctuation frame: the
    corrected copy of the group [d] and the corrected fold-change rows of
    the group. *)
Definition background_step (fc_df : list row) (g : string * Z * Z)
    (d : list row) : list row * list row :=
  let _fc_data := List.filter (in_group g) fc_df in
  let auto := List.filter is_auto _fc_data in
  let mean_auto_mch :=
    series_mean
      (map (fun r => CalFactor.nan_sub (num r "mean_mCherry")
                       (num r "mCherry_bg_val")) auto) in
  let mean_auto_yfp :=
    series_mean
      (map (fun r => CalFactor.nan_sub (num r "mean_yfp")
                       (num r "yfp_bg_val")) auto) in
  let _fc_data :=
    map (fun r =>
           set_num "mean_mCherry"
             (CalFactor.nan_sub (num r "mean_mCherry")
                (CalFactor.nan_add mean_auto_mch (num r "mCherry_bg_val"))) r)
        _fc_data in
  let _fc_data :=
    map (fun r =>
           set_num "mean_yfp"
             (CalFactor.nan_sub (num r "mean_yfp")
                (CalFactor.nan_add mean_auto_yfp (num r "yfp_bg_val"))) r)
        _fc_data in
  let _fc_data :=
    map (fun r =>
           set_num "total_mCherry"
             (nan_mul (num r "mean_mCherry") (num r "area_pix")) r)
        _fc_data in
  let d :=
    map (fun r =>
           set_num "I_1"
             (nan_mul
                (CalFactor.nan_sub
                   (CalFactor.nan_sub (num r "I_1") (num r "bg_val"))
                   mean_auto_mch)
                (num r "area_1")) r) d in
  let d :=
    map (fun r =>
           set_num "I_2"
             (nan_mul
                (CalFactor.nan_sub
                   (CalFactor.nan_sub (num r "I_2") (num r "bg_val"))
                   mean_auto_mch)
                (num r "area_2")) r) d in
  let d :=
    map (fun r =>
           set_num "summed" (CalFactor.nan_add (num r "I_1") (num r "I_2")) r)
        d in
  let d :=
    map (fun r =>
           set_num "sq_fluct"
             (nan_sqr (CalFactor.nan_sub (num r "I_1") (num r "I_2"))) r)
        d in
  (d, _fc_data).

(** The loop over the groups that [groupby] yields, and the two
    concatenations that follow it. *)
Definition background_loop (groups : list (string * Z * Z * list row))
    (fc_df : list row) : list (list row) * list (list row) :=
  foldl (fun acc gd =>
           let out := background_step fc_df gd.1 gd.2 in
           (acc.1 ++ [out.1], acc.2 ++ [out.2]))
        ([], []) groups.

Definition rows_concat (frames : list (list row)) : result (list row) :=
  match frames with
  | [] => Raise (ValueError "No objects to concatenate")
  | _ => Ok (List.concat frames)
  end.

Definition subtract_background (groups : list (string * Z * Z * list row))
    (fc_df : list row) : result (list row * list row) :=
  let acc := background_loop groups fc_df in
  fluct_df ← rows_concat acc.1;
  fc_df ← rows_concat acc.2;
  Ok (fluct_df, fc_df).

End CompileData.

(** ** Vocabulary of the statements *)

(** The repressor [self] at the effector concentration [conc]. *)
Definition with_c (self : MWC.t) (conc : R) : MWC.t :=
  {| MWC.c := conc; MWC.ep_ai := MWC.ep_ai self; MWC.n := MWC.n self;
     MWC.ka := MWC.ka self; MWC.ki := MWC.ki self |}.

(** [f x] tends to [l] as [x] grows without bound. *)
Definition tends_to_at_infinity (f : R -> R) (l : R) : Prop :=
  forall eps : R, (0 < eps)%R ->
    exists M : R, forall x : R, (M < x)%R -> (Rabs (f x - l) < eps)%R.

(** The [i]-th run of [b] consecutive elements of a list. *)
Definition group {A : Type} (b : nat) (xs : list A) (i : nat) : list A :=
  take b (drop (i * b) xs).

(** The number of runs of [b] elements that cover [len] elements. *)
Definition num_groups (len b : nat) : nat := (len + b - 1) `div` b.

(** The values a set of rows holds in one column. *)
Definition col (k : string) (rs : list (string -> R)) : list R :=
  map (fun r => r k) rs.

(** The standard error of the mean of a group. *)
Definition sem (xs : list R) : R := (Np.std xs / sqrt (INR (length xs)))%R.

(** [a] is a point of the set [D] where [f] is smallest (largest). *)
Definition is_argmin (D : R -> Prop) (f : R -> R) (a : R) : Prop :=
  D a /\ forall x, D x -> (f a <= f x)%R.

Definition is_argmax (D : R -> Prop) (f : R -> R) (a : R) : Prop :=
  D a /\ forall x, D x -> (f x <= f a)%R.

(** A float array without negative entries. *)
Definition nonnegative (I : list R) : Prop := Forall (fun x => (0 <= x)%R) I.

(** A pair of intensities without a negative component. *)
Definition pair_nonnegative (p : R * R) : Prop := (0 <= p.1)%R /\ (0 <= p.2)%R.

(** The number a call of [log_posterior] returns, as a function of the
    calibration factor. *)
Definition logp_value (gammaln : R -> R) (I1 I2 : list R) (negative : bool)
    (a : R) : R :=
  match CalFactor.log_posterior gammaln a I1 I2 negative with
  | Ok v => v
  | Raise _ => 0%R
  end.

(** What the MAP loop leaves in a row of [lin_final]: [alpha_opt] holds
    the value that [minimize_scalar] returned for the negative log
    posterior of the replicate the row belongs to, started from the
    bracket [[1, 1e4]]. *)
Definition map_of_replicate (gammaln : R -> R)
    (minimize_scalar : (R -> result R) -> list R -> result R)
    (groups : list (CalFactor.replicate_key * list CalFactor.lineage))
    (r : CalFactor.estimated) : Prop :=
  exists d a,
    (CalFactor.key_of (CalFactor.lin_row r), d) ∈ groups /\
    minimize_scalar
      (fun a' => CalFactor.log_posterior gammaln a' (map CalFactor.I_1_sub d)
                   (map CalFactor.I_2_sub d) true)
      [1; 10000]%R = Ok a /\
    CalFactor.alpha_opt r = Some a.

(** What the grid evaluation stores for the replicate [gd]: its labels, the
    grid, the log posterior at every grid point and its normalisation. *)
Definition frame_of_group (gammaln : R -> R)
    (gd : CalFactor.replicate_key * list CalFactor.lineage)
    (df : CalFactor.post_frame) : Prop :=
  CalFactor.post_key df = gd.1 /\
  CalFactor.alpha df = CalFactor.alpha_range /\
  Forall2 (fun a l =>
             CalFactor.log_posterior gammaln a (map CalFactor.I_1_sub gd.2)
               (map CalFactor.I_2_sub gd.2) false = Ok l)
          CalFactor.alpha_range (CalFactor.log_post df) /\
  CalFactor.post df
  = map (fun l => exp (l - CalFactor.logsumexp (CalFactor.log_post df)))
        (CalFactor.log_post df) /\
  length (CalFactor.post df) = 500%nat /\
  Np.sum (CalFactor.post df) = 1%R.

(** The dictionary has an array long enough for the bin [i] under every
    key the loop over [average] writes. *)
Definition writable (average : list string) (i : nat)
    (m : gmap string (list R)) : Prop :=
  forall k, k ∈ average ->
    (exists arr, m !! k = Some arr /\ (i - 1 < length arr)%nat) /\
    (exists arr, m !! Stats.sem_key k = Some arr /\ (i - 1 < length arr)%nat).

(** The dictionary after [j] bins of [rs] are done: under [k] the means of
    the first [j] groups, under [k_sem] their standard errors, zeros in
    the [len - j] places that remain. *)
Definition filled (average : list string) (b len : nat)
    (rs : list (string -> R)) (j : nat) (m : gmap string (list R)) : Prop :=
  forall k, k ∈ average ->
    m !! k = Some (map (fun g => Np.mean (col k (group b rs g))) (seq 0 j)
                   ++ Np.zeros (len - j)) /\
    m !! Stats.sem_key k
    = Some (map (fun g => sem (col k (group b rs g))) (seq 0 j)
            ++ Np.zeros (len - j)).

(** A dataframe with one row and the columns [a] and [a_sem]. *)
Definition collision_row : string -> R :=
  fun k => if String.eqb k "a" then 1%R else 5%R.

Definition collision_df : Stats.DataFrame :=
  Stats.mkDF ["a"; "a_sem"] [collision_row].

(** Three division events with their summed intensity and fluctuation. *)
Definition event (summed fluct : R) : string -> R :=
  fun k => if String.eqb k "summed" then summed else fluct.

Definition events_df : Stats.DataFrame :=
  Stats.mkDF ["summed"; "fluct"]
             [event 2300 10000; event 430 2500; event 1750 22500].

(** The activity of the repressor [m] as a function of the ratio
    [(1 + c / ki) / (1 + c / ka)], and that ratio at the concentration
    [c]. *)
Definition activity_of_ratio (m : MWC.t) (r : R) : R :=
  (/ (1 + exp (- MWC.ep_ai m) * Rpower r (MWC.n m)))%R.

Definition binding_ratio (m : MWC.t) (c : R) : R :=
  ((1 + c / MWC.ki m) / (1 + c / MWC.ka m))%R.

(** The experiment carries a status that reads [accepted] in any
    letter case. *)
Definition accepted (d : CompileData.experiment) : bool :=
  match CompileData.info d !! "status" with
  | Some status => String.eqb (CompileData.lower status) "accepted"
  | None => false
  end.

(** The frame [f] is what [read_csv] returns for the first match of a glob
    pattern. *)
Definition loads {frame : Type} (read_csv : string -> result frame)
    (matches : list string) (f : frame) : Prop :=
  exists path, head matches = Some path /\ read_csv path = Ok f.

(** The rows [bin_by_value] selects for the bin [i]: those whose [summed]
    lies between [bins[i] - 1] and [bins[i+1] + 1]. *)
Definition bin_samples (df : Stats.DataFrame) (bins : list R) (i : nat)
    : list (string -> R) :=
  match bins !! i, bins !! (i + 1)%nat with
  | Some b_lo, Some b_hi =>
      List.filter (CalFactor.in_bin (b_lo - 1) (b_hi + 1)) (Stats.rows df)
  | _, _ => []
  end.

(** The row of the result that belongs to the bin [i]. *)
Definition binned_of (df : Stats.DataFrame) (bins : list R) (i : nat)
    : CalFactor.binned :=
  let samps := bin_samples df bins i in
  let sm := CalFactor.nan_mean (col "summed" samps) in
  let ss := CalFactor.nan_sem (col "summed" samps) (length samps) in
  let fm := CalFactor.nan_mean (col "fluct" samps) in
  let fs := CalFactor.nan_sem (col "fluct" samps) (length samps) in
  CalFactor.mkBinned sm ss fm fs
    (CalFactor.nan_sub sm ss) (CalFactor.nan_add sm ss)
    (CalFactor.nan_sub fm fs) (CalFactor.nan_add fm fs).

(** [lo <= x <= hi] for a float that is not [nan]. *)
Definition nan_between (lo x hi : option R) : Prop :=
  exists a b c, lo = Some a /\ x = Some b /\ hi = Some c /\ (a <= b <= c)%R.

(** Two rows of a compiled fold-change frame, of the same group: one of
    the autofluorescence strain and one of another strain. *)
Definition auto_row : CompileData.row :=
  CompileData.mkRow "glucose" 20181002 1 "auto" (fun _ => Some 100%R).

Definition delta_row : CompileData.row :=
  CompileData.mkRow "glucose" 20181002 1 "delta" (fun _ => Some 100%R).

(** The number of entries of [data] strictly below [x], and the number
    of entries at most [x]. *)
Definition count_below (x : R) (data : list R) : nat :=
  length (List.filter (fun y => float_lt y x) data).

Definition count_upto (x : R) (data : list R) : nat :=
  length (List.filter (fun y => negb (float_lt x y)) data).

(** The keywords of an allosteric repressor given without [ep_ai]. *)
Definition no_ep_ai : gmap string pyval :=
  {[ "effector_conc" := PyFloat 50; "ka" := PyFloat 139;
     "ki" := PyFloat (53 / 100) ]}.

(** The same keywords with [ep_ai]. *)
Definition with_ep_ai : gmap string pyval :=
  <["ep_ai" := PyFloat (45 / 10)]> no_ep_ai.

(** A numeric [MWC] instance as the attributes Python stores. *)
Definition untyped_of (m : MWC.t) : Untyped.MWC.t :=
  Untyped.MWC.mk (PyFloat (MWC.c m)) (PyFloat (MWC.ep_ai m)) (PyFloat (MWC.n m))
                 (PyFloat (MWC.ka m)) (PyFloat (MWC.ki m)).

(** Two namespaces bind the listed names alike. *)
Definition agree (names : list string) (G G' : Namespace.namespace) : Prop :=
  forall name, name ∈ names -> G !! name = G' !! name.

(** A namespace as the imports of the script leave it: [np] and [scipy]
    are the two libraries, and no module-level variable hides the
    builtins [len] and [ValueError].  Its other variables are free. *)
Definition imported (G : Namespace.namespace) : Prop :=
  G !! "np" = Some (Namespace.Module_ "numpy") /\
  G !! "scipy" = Some (Namespace.Module_ "scipy") /\
  G !! "len" = None /\ G !! "ValueError" = None.

(** The computation [m] leaves every namespace as it finds it, and its
    outcome depends on the namespace through the listed names only. *)
Definition reads_only {A : Type} (names : list string) (m : Namespace.M A)
    : Prop :=
  (forall G, (m G).2 = G) /\
  (forall G G', agree names G G' -> (m G).1 = (m G').1).

(** The names [log_posterior] mentions that are not local to it. *)
Definition free_names : list string := ["scipy"; "np"; "len"; "ValueError"].

(** A namespace of the script in the middle of the grid loop. *)
Definition grid_namespace : Namespace.namespace :=
  {[ "np" := Namespace.Module_ "numpy"; "scipy" := Namespace.Module_ "scipy";
     "lin_final" := Namespace.Object "DataFrame";
     "logp" := Namespace.Array [0; 0; 0]%R ]}.

(** ** Basic facts *)

Lemma float_lt_true (x y : R) : (x < y)%R -> float_lt x y = true.
Proof. intros H. unfold float_lt. destruct (Rlt_dec x y); [reflexivity | contradiction]. Qed.

Lemma float_lt_false (x y : R) : (y <= x)%R -> float_lt x y = false.
Proof. intros H. unfold float_lt. destruct (Rlt_dec x y); [lra | reflexivity]. Qed.

Lemma float_lt_spec (x y : R) : float_lt x y = true <-> (x < y)%R.
Proof.
  unfold float_lt. destruct (Rlt_dec x y); split; intros; try done.
Qed.

Lemma float_eq_true (x y : R) : x = y -> float_eq x y = true.
Proof. intros H. unfold float_eq. destruct (Req_dec_T x y); [reflexivity | contradiction]. Qed.

Lemma float_eq_false (x y : R) : x <> y -> float_eq x y = false.
Proof. intros H. unfold float_eq. destruct (Req_dec_T x y); [contradiction | reflexivity]. Qed.

Lemma float_pow_inv (x : R) : (0 < x)%R -> float_pow x (-1) = (/ x)%R.
Proof.
  intros Hx. unfold float_pow.
  replace (-1)%R with (- (1))%R by lra.
  rewrite Rpower_Ropp, Rpower_1 by assumption. reflexivity.
Qed.

(** ** SimpleRepression *)

Ltac float_decide :=
  repeat first
    [ rewrite float_lt_false by lra
    | rewrite float_lt_true by lra
    | rewrite float_eq_false by lra
    | rewrite float_eq_true by lra ].

(** A wild-type-like allosteric repressor and a non-allosteric one. *)
Lemma init_allosteric_example :
  SimpleRepression.init 260 (-139 / 10) 4600000
    (Some (SimpleRepression.mk_kwargs 50 139 (53 / 100) (45 / 10) 2 false))
  = Ok (SimpleRepression.mk 260 (-139 / 10) 4600000 true
          (Some (MWC.mk 50 (45 / 10) 2 139 (53 / 100)))).
Proof.
  unfold SimpleRepression.init, SimpleRepression.check_positive, MWC.init,
    MWC.check_positive.
  simpl. float_decide. simpl. float_decide. reflexivity.
Defined.

Lemma init_plain_example :
  SimpleRepression.init 260 (-139 / 10) 4600000 None
  = Ok (SimpleRepression.mk 260 (-139 / 10) 4600000 false None).
Proof.
  unfold SimpleRepression.init, SimpleRepression.check_positive.
  simpl. float_decide. reflexivity.
Defined.

Lemma lookup_global_unbound (name : string) :
  name ∉ SimpleRepression.module_globals ->
  SimpleRepression.lookup_global name = Raise (NameError name).
Proof.
  intros H. unfold SimpleRepression.lookup_global.
  rewrite bool_decide_eq_false_2; [reflexivity | assumption].
Qed.

Lemma untyped_check_positive_inv (kv : string * pyval) :
  Untyped.check_positive kv = Ok tt ->
  exists r, Untyped.num kv.2 = Some r /\ (0 <= r)%R.
Proof.
  unfold Untyped.check_positive, Untyped.operand.
  destruct (Untyped.num kv.2) as [r|]; [|discriminate].
  cbn [mbind result_bind]. unfold float_lt.
  destruct (Rlt_dec r 0); [discriminate|]. intros _. exists r. split; [reflexivity | lra].
Qed.

Lemma untyped_MWC_init_inv (effector_conc ka ki ep_ai n_sites log_transform : pyval)
    (m : Untyped.MWC.t) :
  Untyped.MWC.init effector_conc ka ki ep_ai n_sites log_transform = Ok m ->
  Untyped.MWC.ep_ai m = ep_ai /\
  is_Some (Untyped.num (Untyped.MWC.ka m)) /\
  is_Some (Untyped.num (Untyped.MWC.ki m)) /\
  is_Some (Untyped.num (Untyped.MWC.n m)).
Proof.
  unfold Untyped.MWC.init. intros H.
  destruct (if Untyped.is_True log_transform then Untyped.MWC.np_exp ka else Ok ka)
    as [self_ka|e]; [|discriminate].
  cbn [mbind result_bind] in H.
  destruct (if Untyped.is_True log_transform then Untyped.MWC.np_exp ki else Ok ki)
    as [self_ki|e]; [|discriminate].
  cbn [mbind result_bind] in H.
  destruct (Untyped.is_zero ka || Untyped.is_zero ki); [discriminate|].
  cbn [for_each] in H.
  destruct (Untyped.check_positive ("effector_conc", effector_conc)) as [[]|e] eqn:E1;
    [|discriminate].
  destruct (Untyped.check_positive ("ka", self_ka)) as [[]|e] eqn:E2; [|discriminate].
  destruct (Untyped.check_positive ("ki", self_ki)) as [[]|e] eqn:E3; [|discriminate].
  destruct (Untyped.check_positive ("n_sites", n_sites)) as [[]|e] eqn:E4; [|discriminate].
  cbn in H. injection H as <-. cbn.
  apply untyped_check_positive_inv in E2 as (a & Ha & _).
  apply untyped_check_positive_inv in E3 as (i & Hi & _).
  apply untyped_check_positive_inv in E4 as (n' & Hn & _).
  cbn in Ha, Hi, Hn. rewrite Ha, Hi, Hn. eauto.
Qed.

Lemma untyped_init_cases (R0 ep_r0 n_ns0 : pyval) (kwargs : gmap string pyval)
    (self : Untyped.SimpleRepression.t) :
  Untyped.SimpleRepression.init R0 ep_r0 n_ns0 kwargs = Ok self ->
  (kwargs = ∅ /\ Untyped.SimpleRepression.allo self = false)
  \/ (kwargs <> ∅ /\ Untyped.SimpleRepression.allo self = true /\
      exists m, Untyped.SimpleRepression.mwc self = Some m /\
                Untyped.MWC.new kwargs = Ok m).
Proof.
  unfold Untyped.SimpleRepression.init. intros H.
  destruct (for_each _ _) as [[]|e]; [|discriminate].
  cbn [mbind result_bind] in H.
  destruct (Nat.eqb_spec (size kwargs) 0) as [Hz|Hnz].
  - injection H as <-. left. split; [|reflexivity].
    apply map_size_empty_iff. exact Hz.
  - destruct (Untyped.MWC.new kwargs) as [m|e] eqn:E; [|discriminate].
    cbn in H. injection H as <-. right.
    split; [intros ->; apply Hnz; apply map_size_empty|].
    split; [reflexivity|]. exists m. split; reflexivity.
Qed.

Lemma untyped_new_inv (kwargs : gmap string pyval) (m : Untyped.MWC.t) :
  Untyped.MWC.new kwargs = Ok m ->
  Untyped.MWC.ep_ai m = default PyNone (kwargs !! "ep_ai") /\
  is_Some (Untyped.num (Untyped.MWC.ka m)) /\
  is_Some (Untyped.num (Untyped.MWC.ki m)) /\
  is_Some (Untyped.num (Untyped.MWC.n m)).
Proof.
  unfold Untyped.MWC.new.
  destruct (bool_decide _); [|discriminate].
  apply untyped_MWC_init_inv.
Qed.



Lemma untyped_leakiness_cases (m : Untyped.MWC.t) :
  (is_Some (Untyped.num (Untyped.MWC.ep_ai m)) ->
     exists pact, Untyped.MWC.leakiness m = Ok pact) /\
  (Untyped.num (Untyped.MWC.ep_ai m) = None ->
     Untyped.MWC.leakiness m
     = Raise (TypeError "bad operand type for unary -: 'NoneType'")).
Proof.
  unfold Untyped.MWC.leakiness, Untyped.operand. split.
  - intros [e ->]. cbn. eauto.
  - intros ->. reflexivity.
Qed.

Lemma init_without_ep_ai :
  Untyped.SimpleRepression.init (PyFloat 260) (PyFloat (-139 / 10))
    (PyFloat 4600000) no_ep_ai
  = Ok (Untyped.SimpleRepression.mk (PyFloat 260) (PyFloat (-139 / 10))
          (PyFloat 4600000) true
          (Some (Untyped.MWC.mk (PyFloat 50) PyNone (PyFloat 2)
                   (PyFloat 139) (PyFloat (53 / 100))))).
Proof.
  unfold Untyped.SimpleRepression.init, Untyped.check_positive, Untyped.operand.
  cbn [for_each mbind result_bind Untyped.num fst snd].
  float_decide. cbn [mbind result_bind].
  change (size no_ep_ai) with 3%nat. cbn [Nat.eqb].
  unfold Untyped.MWC.new.
  replace (bool_decide (map_Forall (fun k _ => k ∈ Untyped.MWC.parameters) no_ep_ai))
    with true by (symmetry; vm_compute; reflexivity).
  change (no_ep_ai !! "effector_conc") with (Some (PyFloat 50)).
  change (no_ep_ai !! "ka") with (Some (PyFloat 139)).
  change (no_ep_ai !! "ki") with (Some (PyFloat (53 / 100))).
  change (no_ep_ai !! "ep_ai") with (@None pyval).
  change (no_ep_ai !! "n_sites") with (@None pyval).
  change (no_ep_ai !! "log_transform") with (@None pyval).
  cbn [default from_option id Datatypes.id]. unfold Untyped.MWC.init, Untyped.is_zero.
  cbn [Untyped.is_True Untyped.num mbind result_bind].
  float_decide. cbn [orb].
  unfold Untyped.check_positive, Untyped.operand.
  cbn [for_each mbind result_bind Untyped.num fst snd].
  float_decide. reflexivity.
Defined.

Lemma init_with_ep_ai :
  Untyped.SimpleRepression.init (PyFloat 260) (PyFloat (-139 / 10))
    (PyFloat 4600000) with_ep_ai
  = Ok (Untyped.SimpleRepression.mk (PyFloat 260) (PyFloat (-139 / 10))
          (PyFloat 4600000) true
          (Some (Untyped.MWC.mk (PyFloat 50) (PyFloat (45 / 10)) (PyFloat 2)
                   (PyFloat 139) (PyFloat (53 / 100))))).
Proof.
  unfold Untyped.SimpleRepression.init, Untyped.check_positive, Untyped.operand.
  cbn [for_each mbind result_bind Untyped.num fst snd].
  float_decide. cbn [mbind result_bind].
  change (size with_ep_ai) with 4%nat. cbn [Nat.eqb].
  unfold Untyped.MWC.new.
  replace (bool_decide (map_Forall (fun k _ => k ∈ Untyped.MWC.parameters) with_ep_ai))
    with true by (symmetry; vm_compute; reflexivity).
  change (with_ep_ai !! "effector_conc") with (Some (PyFloat 50)).
  change (with_ep_ai !! "ka") with (Some (PyFloat 139)).
  change (with_ep_ai !! "ki") with (Some (PyFloat (53 / 100))).
  change (with_ep_ai !! "ep_ai") with (Some (PyFloat (45 / 10))).
  change (with_ep_ai !! "n_sites") with (@None pyval).
  change (with_ep_ai !! "log_transform") with (@None pyval).
  cbn [default from_option id Datatypes.id]. unfold Untyped.MWC.init, Untyped.is_zero.
  cbn [Untyped.is_True Untyped.num mbind result_bind].
  float_decide. cbn [orb].
  unfold Untyped.check_positive, Untyped.operand.
  cbn [for_each mbind result_bind Untyped.num fst snd].
  float_decide. reflexivity.
Defined.

(** On numbers the two readings of [MWC] agree. *)
Lemma untyped_init_numeric (effector_conc ka ki ep_ai n_sites : R)
    (log_transform : bool) :
  Untyped.MWC.init (PyFloat effector_conc) (PyFloat ka) (PyFloat ki)
    (PyFloat ep_ai) (PyFloat n_sites) (PyBool log_transform)
  = match MWC.init effector_conc ka ki ep_ai n_sites log_transform with
    | Ok m => Ok (untyped_of m)
    | Raise e => Raise e
    end.
Proof.
  unfold Untyped.MWC.init, MWC.init, Untyped.is_zero, Untyped.MWC.np_exp,
    Untyped.operand.
  destruct log_transform; cbn [Untyped.is_True Untyped.num mbind result_bind];
    (destruct (float_eq ka 0 || float_eq ki 0); [reflexivity|]);
    unfold Untyped.check_positive, MWC.check_positive, Untyped.operand;
    cbn [for_each mbind result_bind Untyped.num fst snd];
    repeat (match goal with
            | |- context [float_lt ?x 0] => destruct (float_lt x 0)
            end; cbn [mbind result_bind]; try reflexivity).
Qed.

Lemma untyped_methods_numeric (m : MWC.t) :
  Untyped.MWC.saturation (untyped_of m) = Ok (MWC.saturation m) /\
  Untyped.MWC.leakiness (untyped_of m) = Ok (MWC.leakiness m).
Proof. split; reflexivity. Qed.



(** C9.  On every instance that [SimpleRepression.__init__] leaves and
    for all arguments, [dynamic_range] raises [NameError] at the bare name
    [saturation].  [leakiness] raises [NameError] at the bare name
    [fold_change] on an instance without keyword arguments and on an
    allosteric one whose keyword [ep_ai] holds a number; when [ep_ai] was
    left out or is [None], [self.mwc.leakiness()] raises [TypeError]
    before the name [fold_change] is looked up. *)
Theorem leakiness_dynamic_range_on_every_instance
    (call_object : string -> list pyval -> result pyval)
    (R0 ep_r0 n_ns0 : pyval) (kwargs : gmap string pyval)
    (self : Untyped.SimpleRepression.t) (wpa num_pol ep_pol : pyval) :
  Untyped.SimpleRepression.init R0 ep_r0 n_ns0 kwargs = Ok self ->
  Untyped.SimpleRepression.dynamic_range call_object self wpa num_pol ep_pol
  = Raise (NameError "saturation") /\
  (Untyped.SimpleRepression.allo self = false ->
     Untyped.SimpleRepression.leakiness call_object self wpa num_pol ep_pol
     = Raise (NameError "fold_change")) /\
  (Untyped.SimpleRepression.allo self = true ->
     is_Some (Untyped.num (default PyNone (kwargs !! "ep_ai"))) ->
     Untyped.SimpleRepression.leakiness call_object self wpa num_pol ep_pol
     = Raise (NameError "fold_change")) /\
  (Untyped.SimpleRepression.allo self = true ->
     Untyped.num (default PyNone (kwargs !! "ep_ai")) = None ->
     Untyped.SimpleRepression.leakiness call_object self wpa num_pol ep_pol
     = Raise (TypeError "bad operand type for unary -: 'NoneType'")).
Proof.
  intros Hinit. split; [reflexivity|].
  unfold Untyped.SimpleRepression.leakiness, Untyped.SimpleRepression.get_mwc.
  destruct (untyped_init_cases _ _ _ _ _ Hinit)
    as [(Hk & Ha) | (Hk & Ha & m & Hm & Hnew)]; rewrite Ha.
  - split; [reflexivity|]. split; discriminate.
  - rewrite Hm. cbn [mbind result_bind].
    destruct (untyped_new_inv _ _ Hnew) as (Hep & _).
    destruct (untyped_leakiness_cases m) as [Hnum Hnone].
    rewrite Hep in Hnum, Hnone.
    split; [discriminate|]. split.
    + intros _ He. destruct (Hnum He) as [pact ->]. reflexivity.
    + intros _ He. rewrite (Hnone He). reflexivity.
Qed.

(** C9 on an allosteric repressor built with [ep_ai] and on one built
    without it. *)
Lemma leakiness_dynamic_range_on_every_instance_witness :
  (exists self,
     Untyped.SimpleRepression.init (PyFloat 260) (PyFloat (-139 / 10))
       (PyFloat 4600000) with_ep_ai = Ok self /\
     Untyped.SimpleRepression.leakiness (fun _ _ => Ok PyNone) self
       (PyBool true) PyNone (PyFloat 0)
     = Raise (NameError "fold_change")) /\
  (exists self,
     Untyped.SimpleRepression.init (PyFloat 260) (PyFloat (-139 / 10))
       (PyFloat 4600000) no_ep_ai = Ok self /\
     Untyped.SimpleRepression.dynamic_range (fun _ _ => Ok PyNone) self
       (PyBool true) PyNone (PyFloat 0)
     = Raise (NameError "saturation") /\
     Untyped.SimpleRepression.leakiness (fun _ _ => Ok PyNone) self
       (PyBool true) PyNone (PyFloat 0)
     = Raise (TypeError "bad operand type for unary -: 'NoneType'")).
Proof.
  split.
  - eexists. split; [exact init_with_ep_ai|].
    pose proof (leakiness_dynamic_range_on_every_instance (fun _ _ => Ok PyNone)
                  _ _ _ _ _ (PyBool true) PyNone (PyFloat 0) init_with_ep_ai)
      as (_ & _ & Hleak & _).
    apply Hleak; [reflexivity | eexists; reflexivity].
  - eexists. split; [exact init_without_ep_ai|].
    pose proof (leakiness_dynamic_range_on_every_instance (fun _ _ => Ok PyNone)
                  _ _ _ _ _ (PyBool true) PyNone (PyFloat 0) init_without_ep_ai)
      as (Hdyn & _ & _ & Hleak).
    split; [exact Hdyn|]. exact (Hleak eq_refl eq_refl).
Defined.

(** ** log_posterior *)

Lemma any_negative_false (I : list R) :
  nonnegative I -> CalFactor.any_negative I = false.
Proof.
  induction 1 as [|x I Hx _ IH]; simpl; [reflexivity|].
  rewrite float_lt_false by assumption. exact IH.
Qed.

Lemma any_negative_true (I : list R) (x : R) :
  x ∈ I -> (x < 0)%R -> CalFactor.any_negative I = true.
Proof.
  intros Hin Hx. induction Hin as [x I | x y I _ IH]; simpl.
  - rewrite float_lt_true by assumption. reflexivity.
  - rewrite IH by assumption. apply orb_true_r.
Qed.

Lemma add_same_length (I1 I2 : list R) :
  length I1 = length I2 -> CalFactor.add I1 I2 = Ok (zip_with Rplus I1 I2).
Proof.
  intros H. unfold CalFactor.add. rewrite H, Nat.eqb_refl. reflexivity.
Qed.

(** The value of [log_posterior] on well-formed arguments, term by term as
    the source computes it. *)
Lemma log_posterior_ok (gammaln : R -> R) (a : R) (I1 I2 : list R) (negative : bool) :
  length I1 = length I2 -> nonnegative I1 -> nonnegative I2 ->
  CalFactor.log_posterior gammaln a I1 I2 negative
  = Ok ((if negative then -1 else 1)
        * (- Np.sum (CalFactor.div_scalar (zip_with Rplus I1 I2) a) * ln 2
           + - INR (length I1) * ln a
           + (Np.sum (map gammaln (CalFactor.add_scalar
                        (CalFactor.div_scalar (zip_with Rplus I1 I2) a) 1))
              - Np.sum (map gammaln (CalFactor.add_scalar (CalFactor.div_scalar I1 a) 1))
              - Np.sum (map gammaln (CalFactor.add_scalar (CalFactor.div_scalar I2 a) 1)))
           + CalFactor.halfnorm_logpdf 0 500 a))%R.
Proof.
  intros Hlen H1 H2. unfold CalFactor.log_posterior.
  rewrite (any_negative_false I1 H1), (any_negative_false I2 H2). simpl.
  rewrite add_same_length by assumption. reflexivity.
Qed.

Lemma logp_value_negative (gammaln : R -> R) (I1 I2 : list R) (a : R) :
  logp_value gammaln I1 I2 true a = (- logp_value gammaln I1 I2 false a)%R.
Proof.
  unfold logp_value, CalFactor.log_posterior.
  destruct (CalFactor.any_negative I1 || CalFactor.any_negative I2); simpl; [lra|].
  destruct (CalFactor.add I1 I2); simpl; lra.
Qed.

Lemma argmin_negative_argmax (gammaln : R -> R) (I1 I2 : list R)
    (D : R -> Prop) (a : R) :
  is_argmin D (logp_value gammaln I1 I2 true) a ->
  is_argmax D (logp_value gammaln I1 I2 false) a.
Proof.
  intros [Ha Hmin]. split; [assumption|]. intros x Hx.
  specialize (Hmin x Hx). rewrite !logp_value_negative in Hmin. lra.
Qed.

(** C5: for a positive calibration factor and non-negative intensity
    arrays of equal length, [log_posterior] with [negative=True] returns
    exactly [-1] times what it returns with [negative=False]; a point that
    minimises the former therefore maximises the latter. *)
Theorem log_posterior_negative_flips_sign
    (gammaln : R -> R) (alpha : R) (I1 I2 : list R) :
  (0 < alpha)%R -> length I1 = length I2 -> nonnegative I1 -> nonnegative I2 ->
  (exists logp : R,
     CalFactor.log_posterior gammaln alpha I1 I2 false = Ok logp /\
     CalFactor.log_posterior gammaln alpha I1 I2 true = Ok (-1 * logp)%R) /\
  (forall (D : R -> Prop) (a : R),
     is_argmin D (logp_value gammaln I1 I2 true) a ->
     is_argmax D (logp_value gammaln I1 I2 false) a).
Proof.
  intros _ Hlen H1 H2. split.
  - eexists. split.
    + rewrite log_posterior_ok by assumption. reflexivity.
    + rewrite log_posterior_ok by assumption. f_equal. lra.
  - intros D a. apply argmin_negative_argmax.
Qed.

Lemma nonnegative_example_1 : nonnegative [120; 80; 45]%R.
Proof. repeat constructor; lra. Defined.

Lemma nonnegative_example_2 : nonnegative [100; 95; 60]%R.
Proof. repeat constructor; lra. Defined.

Lemma log_posterior_negative_flips_sign_witness :
  (0 < 25)%R /\ length [120; 80; 45]%R = length [100; 95; 60]%R /\
  nonnegative [120; 80; 45]%R /\ nonnegative [100; 95; 60]%R /\
  exists logp : R,
    CalFactor.log_posterior ln 25 [120; 80; 45]%R [100; 95; 60]%R false = Ok logp /\
    CalFactor.log_posterior ln 25 [120; 80; 45]%R [100; 95; 60]%R true
    = Ok (-1 * logp)%R.
Proof.
  assert (Hpos : (0 < 25)%R) by lra.
  split; [exact Hpos|]. split; [reflexivity|].
  split; [exact nonnegative_example_1|]. split; [exact nonnegative_example_2|].
  exact (proj1 (log_posterior_negative_flips_sign ln 25
                  [120; 80; 45]%R [100; 95; 60]%R Hpos eq_refl
                  nonnegative_example_1 nonnegative_example_2)).
Defined.

(** *** What a call of [log_posterior] reads and writes *)

Lemma reads_only_ret {A : Type} (names : list string) (a : A) :
  reads_only names (Namespace.ret a).
Proof. split; reflexivity. Qed.

Lemma reads_only_raise {A : Type} (names : list string) (e : exn) :
  reads_only names (@Namespace.raise A e).
Proof. split; reflexivity. Qed.

Lemma reads_only_lift {A : Type} (names : list string) (r : result A) :
  reads_only names (Namespace.lift r).
Proof. split; reflexivity. Qed.

Lemma reads_only_load (names : list string) (name : string) :
  name ∈ names -> reads_only names (Namespace.load name).
Proof.
  intros Hin. split.
  - intros G. unfold Namespace.load.
    destruct (G !! name); [reflexivity|].
    destruct (Namespace.builtins !! name); reflexivity.
  - intros G G' Hagree. unfold Namespace.load. rewrite (Hagree name Hin).
    destruct (G' !! name); [reflexivity|].
    destruct (Namespace.builtins !! name); reflexivity.
Qed.

Lemma reads_only_bind {A B : Type} (names : list string) (m : Namespace.M A)
    (k : A -> Namespace.M B) :
  reads_only names m -> (forall a, reads_only names (k a)) ->
  reads_only names (Namespace.bind m k).
Proof.
  intros [Hm2 Hm1] Hk. split.
  - intros G. unfold Namespace.bind. specialize (Hm2 G).
    destruct (m G) as [[a|e] G0]; cbn in Hm2; subst G0; [|reflexivity].
    apply (proj1 (Hk a)).
  - intros G G' Hagree. unfold Namespace.bind.
    pose proof (Hm2 G) as HG. pose proof (Hm2 G') as HG'.
    pose proof (Hm1 G G' Hagree) as Hsame.
    destruct (m G) as [r G0], (m G') as [r' G0']. cbn in HG, HG', Hsame.
    subst G0 G0' r'. destruct r as [a|e]; [|reflexivity].
    apply (proj2 (Hk a)). exact Hagree.
Qed.

Lemma reads_only_getattr (names : list string) (v : Namespace.value)
    (attr : string) :
  reads_only names (Namespace.getattr v attr).
Proof.
  destruct v; first [apply reads_only_lift | apply reads_only_raise].
Qed.

Create HintDb reads.
#[local] Hint Resolve reads_only_ret reads_only_raise reads_only_lift
  reads_only_getattr : reads.

Section NamespaceCalls.
Variable gammaln : R -> R.

Lemma reads_only_call_float (names : list string) (f : Namespace.value) (x : R) :
  reads_only names (Namespace.call_float f x).
Proof. split; intros; unfold Namespace.call_float; repeat case_match; reflexivity. Qed.

Lemma reads_only_call_array (names : list string) (f : Namespace.value)
    (xs : list R) :
  reads_only names (Namespace.call_array gammaln f xs).
Proof. split; intros; unfold Namespace.call_array; repeat case_match; reflexivity. Qed.

Lemma reads_only_call_len (names : list string) (f : Namespace.value)
    (xs : list R) :
  reads_only names (Namespace.call_len f xs).
Proof. split; intros; unfold Namespace.call_len; repeat case_match; reflexivity. Qed.

Lemma reads_only_call_logpdf (names : list string) (f : Namespace.value)
    (loc scale x : R) :
  reads_only names (Namespace.call_logpdf f loc scale x).
Proof. split; intros; unfold Namespace.call_logpdf; repeat case_match; reflexivity. Qed.

Lemma reads_only_raise_new {A : Type} (names : list string)
    (cls : Namespace.value) (msg : string) :
  reads_only names (@Namespace.raise_new A cls msg).
Proof. split; intros; unfold Namespace.raise_new; repeat case_match; reflexivity. Qed.

Lemma reads_only_gammaln_sum (xs : list R) :
  reads_only free_names (Namespace.gammaln_sum gammaln xs).
Proof.
  unfold Namespace.gammaln_sum.
  apply reads_only_bind; [apply reads_only_load; set_solver|]. intros sp.
  apply reads_only_bind; [auto with reads|]. intros special.
  apply reads_only_bind; [auto with reads|]. intros g.
  apply reads_only_bind; [apply reads_only_call_array|]. intros ys.
  auto with reads.
Qed.

Lemma reads_only_np_log (x : R) : reads_only free_names (Namespace.np_log x).
Proof.
  unfold Namespace.np_log.
  apply reads_only_bind; [apply reads_only_load; set_solver|]. intros np.
  apply reads_only_bind; [auto with reads|]. intros log.
  apply reads_only_call_float.
Qed.

Lemma reads_only_log_posterior (alpha : R) (I1 I2 : list R) (negative : bool) :
  reads_only free_names (Namespace.log_posterior gammaln alpha I1 I2 negative).
Proof.
  unfold Namespace.log_posterior.
  destruct (CalFactor.any_negative I1 || CalFactor.any_negative I2).
  - apply reads_only_bind; [apply reads_only_load; set_solver|]. intros cls.
    apply reads_only_raise_new.
  - apply reads_only_bind; [auto with reads|]. intros tot.
    do 3 (apply reads_only_bind; [apply reads_only_gammaln_sum|]; intros ?).
    apply reads_only_bind; [apply reads_only_load; set_solver|]. intros sp.
    apply reads_only_bind; [auto with reads|]. intros stats.
    apply reads_only_bind; [auto with reads|]. intros halfnorm.
    apply reads_only_bind; [apply reads_only_call_logpdf|]. intros log_prior.
    apply reads_only_bind; [apply reads_only_np_log|]. intros log2.
    apply reads_only_bind; [apply reads_only_load; set_solver|]. intros len.
    apply reads_only_bind; [apply reads_only_call_len|]. intros k.
    apply reads_only_bind; [apply reads_only_np_log|]. intros log_alpha.
    auto with reads.
Qed.

Lemma load_imported (G : Namespace.namespace) :
  imported G ->
  Namespace.load "np" G = (Ok (Namespace.Module_ "numpy"), G) /\
  Namespace.load "scipy" G = (Ok (Namespace.Module_ "scipy"), G) /\
  Namespace.load "len" G = (Ok (Namespace.Callable "len"), G) /\
  Namespace.load "ValueError" G = (Ok (Namespace.Callable "ValueError"), G).
Proof.
  intros (Hnp & Hsp & Hlen & Hve). unfold Namespace.load.
  rewrite Hnp, Hsp, Hlen, Hve. repeat split; reflexivity.
Qed.

Lemma bind_ok {A B : Type} (m : Namespace.M A) (k : A -> Namespace.M B)
    (G : Namespace.namespace) (a : A) :
  m G = (Ok a, G) -> Namespace.bind m k G = k a G.
Proof. intros H. unfold Namespace.bind. rewrite H. reflexivity. Qed.

Lemma gammaln_sum_imported (G : Namespace.namespace) (xs : list R) :
  imported G ->
  Namespace.gammaln_sum gammaln xs G = (Ok (Np.sum (map gammaln xs)), G).
Proof.
  intros HG. destruct (load_imported G HG) as (_ & Hsp & _).
  unfold Namespace.gammaln_sum.
  rewrite (bind_ok _ _ G _ Hsp).
  rewrite (bind_ok _ _ G (Namespace.Module_ "scipy.special")) by reflexivity.
  rewrite (bind_ok _ _ G (Namespace.Callable "scipy.special.gammaln"))
    by reflexivity.
  reflexivity.
Qed.

Lemma np_log_imported (G : Namespace.namespace) (x : R) :
  imported G -> Namespace.np_log x G = (Ok (ln x), G).
Proof.
  intros HG. destruct (load_imported G HG) as (Hnp & _).
  unfold Namespace.np_log.
  rewrite (bind_ok _ _ G _ Hnp).
  rewrite (bind_ok _ _ G (Namespace.Callable "numpy.log")) by reflexivity.
  reflexivity.
Qed.

Lemma log_posterior_in_namespace (G : Namespace.namespace) (alpha : R)
    (I1 I2 : list R) (negative : bool) :
  imported G ->
  Namespace.log_posterior gammaln alpha I1 I2 negative G
  = (CalFactor.log_posterior gammaln alpha I1 I2 negative, G).
Proof.
  intros HG. destruct (load_imported G HG) as (Hnp & Hsp & Hlen & Hve).
  unfold Namespace.log_posterior, CalFactor.log_posterior.
  destruct (CalFactor.any_negative I1 || CalFactor.any_negative I2).
  - rewrite (bind_ok _ _ G _ Hve). reflexivity.
  - destruct (CalFactor.add I1 I2) as [tot|e]; [|reflexivity].
    rewrite (bind_ok _ _ G tot) by reflexivity.
    rewrite !(bind_ok _ _ G _ (gammaln_sum_imported G _ HG)).
    rewrite (bind_ok _ _ G _ Hsp).
    rewrite (bind_ok _ _ G (Namespace.Module_ "scipy.stats")) by reflexivity.
    rewrite (bind_ok _ _ G (Namespace.Callable "scipy.stats.halfnorm"))
      by reflexivity.
    rewrite (bind_ok _ _ G (CalFactor.halfnorm_logpdf 0 500 alpha))
      by reflexivity.
    rewrite (bind_ok _ _ G _ (np_log_imported G 2 HG)).
    rewrite (bind_ok _ _ G _ Hlen).
    rewrite (bind_ok _ _ G (length I1)) by reflexivity.
    rewrite (bind_ok _ _ G _ (np_log_imported G alpha HG)).
    reflexivity.
Qed.

End NamespaceCalls.

(** C6.  A call of [log_posterior] leaves every module-level variable of
    the script as it finds it, whether it returns or raises.  What it
    returns depends on the namespace through four names only: the
    libraries [scipy] and [np] and the builtins [len] and [ValueError].
    In a namespace where these are what the imports of the script make
    them, whatever the other variables hold, the call returns the value of
    the formula, whose only constants are those of the half-normal(0, 500)
    prior; hence two calls with equal arguments, from any two such
    namespaces, return equal values. *)
Theorem log_posterior_self_contained (gammaln : R -> R) (alpha : R)
    (I1 I2 : list R) (negative : bool) :
  (forall G,
     (Namespace.log_posterior gammaln alpha I1 I2 negative G).2 = G) /\
  (forall G G', agree free_names G G' ->
     (Namespace.log_posterior gammaln alpha I1 I2 negative G).1
     = (Namespace.log_posterior gammaln alpha I1 I2 negative G').1) /\
  (forall G, imported G ->
     (Namespace.log_posterior gammaln alpha I1 I2 negative G).1
     = CalFactor.log_posterior gammaln alpha I1 I2 negative) /\
  (forall G G' alpha' I1' I2' negative',
     imported G -> imported G' ->
     alpha = alpha' -> I1 = I1' -> I2 = I2' -> negative = negative' ->
     (Namespace.log_posterior gammaln alpha I1 I2 negative G).1
     = (Namespace.log_posterior gammaln alpha' I1' I2' negative' G').1).
Proof.
  destruct (reads_only_log_posterior gammaln alpha I1 I2 negative) as [Hw Hr].
  split; [exact Hw|]. split; [exact Hr|]. split.
  - intros G HG. rewrite (log_posterior_in_namespace gammaln G) by exact HG.
    reflexivity.
  - intros G G' alpha' I1' I2' negative' HG HG' <- <- <- <-.
    rewrite (log_posterior_in_namespace gammaln G) by exact HG.
    rewrite (log_posterior_in_namespace gammaln G') by exact HG'.
    reflexivity.
Qed.

Lemma log_posterior_self_contained_witness :
  imported grid_namespace /\
  (Namespace.log_posterior ln 25 [120; 80]%R [100; 95]%R true grid_namespace).1
  = CalFactor.log_posterior ln 25 [120; 80]%R [100; 95]%R true /\
  (Namespace.log_posterior ln 25 [120; 80]%R [100; 95]%R true grid_namespace).2
  = grid_namespace.
Proof.
  assert (HG : imported grid_namespace) by (repeat split; reflexivity).
  destruct (log_posterior_self_contained ln 25 [120; 80]%R [100; 95]%R true)
    as (Hwrites & _ & Hvalue & _).
  split; [exact HG|]. split; [exact (Hvalue grid_namespace HG)|].
  exact (Hwrites grid_namespace).
Defined.

(** The statement of the grid loop that calls [log_posterior] does write:
    it replaces one entry of the module-level array [logp], and the call
    inside it is not where the write happens. *)
Lemma assign_logp_writes :
  exists v,
    (Namespace.log_posterior ln 25 [120; 80]%R [100; 95]%R false grid_namespace)
    = (Ok v, grid_namespace) /\
    Namespace.assign_logp ln 1 25 [120; 80]%R [100; 95]%R grid_namespace
    = (Ok tt, <["logp" := Namespace.Array [0; v; 0]%R]> grid_namespace).
Proof.
  assert (HG : imported grid_namespace) by (repeat split; reflexivity).
  assert (Hrun : exists v,
            CalFactor.log_posterior ln 25 [120; 80]%R [100; 95]%R false = Ok v).
  { eexists. apply log_posterior_ok; [reflexivity | |];
      repeat constructor; lra. }
  destruct Hrun as [v Hv]. exists v.
  pose proof (log_posterior_in_namespace ln grid_namespace 25
                [120; 80]%R [100; 95]%R false HG) as Hcall.
  rewrite Hv in Hcall. split; [exact Hcall|].
  unfold Namespace.assign_logp, Namespace.bind. rewrite Hcall.
  reflexivity.
Qed.

(** ** ecdf *)

#[local] Instance Rle_total : Total Rle.
Proof. intros x y. destruct (Rle_dec x y); [left | right]; lra. Qed.

#[local] Instance Rle_trans' : Transitive Rle.
Proof. intros x y z. apply Rle_trans. Qed.

Lemma true_divide_nonzero (xs : list nat) (d : nat) :
  d <> 0%nat ->
  Np.true_divide xs d = map (fun i => Np.Finite (INR i / INR d)) xs.
Proof.
  intros Hd. unfold Np.true_divide. apply map_ext. intros i.
  destruct (Nat.eqb_spec d 0); [contradiction | reflexivity].
Qed.

Lemma ecdf_fraction_bounds (i len : nat) :
  (i < len)%nat ->
  (0 <= INR i / INR len <= INR (len - 1) / INR len)%R /\ (INR i / INR len < 1)%R.
Proof.
  intros Hi.
  assert (Hn : (0 < INR len)%R) by (apply lt_0_INR; lia).
  assert (H0 : (0 <= INR i)%R) by apply pos_INR.
  assert (H1 : (INR i <= INR (len - 1))%R) by (apply le_INR; lia).
  assert (H2 : (INR i < INR len)%R) by (apply lt_INR; lia).
  repeat split.
  - apply Rmult_le_pos; [assumption | left; apply Rinv_0_lt_compat; assumption].
  - apply Rmult_le_compat_r; [left; apply Rinv_0_lt_compat|]; assumption.
  - apply Rmult_lt_reg_r with (INR len); [assumption|].
    unfold Rdiv. rewrite Rmult_assoc, Rinv_l by lra. lra.
Qed.

(** C10, the empty input: [ecdf] divides no element and returns a pair of
    empty arrays. *)
Lemma ecdf_empty_is_pair_of_empty_arrays :
  Stats.ecdf [] = ([], []) /\ Np.ZeroDivision ∉ (Stats.ecdf []).2.
Proof.
  split; [reflexivity|]. simpl. apply not_elem_of_nil.
Qed.

(** C10 as amended: for a non-empty input of length [n], [ecdf] returns the
    sorted data paired with [0/n, 1/n, ..., (n-1)/n]; the first value is
    [0], the last and largest is [(n-1)/n] and no value reaches [1].  For
    the empty input it returns two empty arrays. *)
Theorem ecdf_sorted_data_and_fractions (data : list R) :
  data <> [] ->
  Sorted Rle (Stats.ecdf data).1 /\
  (Stats.ecdf data).1 ≡ₚ data /\
  (Stats.ecdf data).2
    = map (fun i => Np.Finite (INR i / INR (length data))) (seq 0 (length data)) /\
  head (Stats.ecdf data).2 = Some (Np.Finite 0) /\
  last (Stats.ecdf data).2
    = Some (Np.Finite (INR (length data - 1) / INR (length data))) /\
  (forall q, q ∈ (Stats.ecdf data).2 ->
     exists r, q = Np.Finite r /\
       (0 <= r <= INR (length data - 1) / INR (length data))%R /\ (r < 1)%R) /\
  Stats.ecdf [] = ([], []).
Proof.
  intros Hne.
  assert (Hlen : length data <> 0%nat) by (destruct data; [done | simpl; lia]).
  unfold Stats.ecdf, Np.sort, Np.arange_len. simpl.
  rewrite true_divide_nonzero by assumption.
  split; [apply Sorted_merge_sort; apply _|].
  split; [apply merge_sort_Permutation|].
  split; [reflexivity|].
  split.
  { destruct (length data) as [|m] eqn:E; [done|]. simpl.
    do 2 f_equal. unfold Rdiv. apply Rmult_0_l. }
  split.
  { destruct (length data) as [|m] eqn:E; [done|].
    rewrite seq_S, map_app. simpl. rewrite last_snoc.
    do 3 f_equal. f_equal. lia. }
  split; [|reflexivity].
  intros q Hq. apply list_elem_of_fmap in Hq as (i & -> & Hi).
  apply elem_of_seq in Hi. eexists. split; [reflexivity|].
  apply ecdf_fraction_bounds. lia.
Qed.

Lemma ecdf_sorted_data_and_fractions_witness :
  [3; 1; 2]%R <> [] /\
  (Stats.ecdf [3; 1; 2]%R).2
  = map (fun i => Np.Finite (INR i / INR 3)) (seq 0 3).
Proof.
  assert (Hne : [3; 1; 2]%R <> []) by discriminate.
  split; [exact Hne|].
  exact (proj1 (proj2 (proj2 (ecdf_sorted_data_and_fractions [3; 1; 2]%R Hne)))).
Defined.

(** ** The limits of the MWC activity *)

Section MWCLimits.
Variable m : MWC.t.
Hypothesis ka_pos : (0 < MWC.ka m)%R.
Hypothesis ki_pos : (0 < MWC.ki m)%R.

  #[local] Abbreviation g := (activity_of_ratio m).
#[local] Abbreviation ratio := (binding_ratio m).

Lemma g_denominator_pos (r : R) :
    (0 < 1 + exp (- MWC.ep_ai m) * Rpower r (MWC.n m))%R.
Proof.
    assert (0 < exp (- MWC.ep_ai m))%R by apply exp_pos.
    assert (0 < Rpower r (MWC.n m))%R by apply exp_pos.
    nra.
Qed.

Lemma Rpower_quotient (x y z : R) :
    (0 < x)%R -> (0 < y)%R -> (Rpower y z / Rpower x z = Rpower (y / x) z)%R.
Proof.
    intros Hx Hy. unfold Rpower, Rdiv.
    rewrite ln_mult, ln_Rinv by (try apply Rinv_0_lt_compat; assumption).
    rewrite <- exp_Ropp, <- exp_plus. f_equal. ring.
Qed.

Lemma pact_as_ratio (c : R) :
    (0 <= c)%R -> MWC.pact (with_c m c) = g (ratio c).
Proof.
    intros Hc. unfold MWC.pact, with_c, g, ratio, float_pow. simpl.
    assert (Ha : (0 < 1 + c / MWC.ka m)%R).
    { assert (0 <= c / MWC.ka m)%R; [|lra].
      apply Rmult_le_pos; [assumption | left; apply Rinv_0_lt_compat; assumption]. }
    assert (Hi : (0 < 1 + c / MWC.ki m)%R).
    { assert (0 <= c / MWC.ki m)%R; [|lra].
      apply Rmult_le_pos; [assumption | left; apply Rinv_0_lt_compat; assumption]. }
    rewrite <- Rpower_quotient by assumption.
    set (N := Rpower (1 + c / MWC.ka m) (MWC.n m)).
    set (D := Rpower (1 + c / MWC.ki m) (MWC.n m)).
    set (E := exp (- MWC.ep_ai m)).
    assert (0 < N)%R by apply exp_pos.
    assert (0 < D)%R by apply exp_pos.
    assert (0 < E)%R by apply exp_pos.
    assert (0 < N + E * D)%R by nra.
    field. split; lra.
Qed.

Lemma saturation_as_ratio : MWC.saturation m = g (MWC.ka m / MWC.ki m).
Proof.
    unfold MWC.saturation, g. fold (float_pow (MWC.ka m / MWC.ki m) (MWC.n m)).
    apply float_pow_inv. unfold float_pow. apply g_denominator_pos.
Qed.

Lemma ratio_minus_limit (c : R) :
    (0 <= c)%R ->
    (ratio c - MWC.ka m / MWC.ki m
     = MWC.ka m / MWC.ki m * (MWC.ki m - MWC.ka m) / (MWC.ka m + c))%R.
Proof.
    intros Hc. unfold ratio. field. repeat split; lra.
Qed.

Lemma ratio_tends_to (delta : R) :
    (0 < delta)%R ->
    exists M : R, (0 <= M)%R /\
      forall c : R, (M < c)%R -> (Rabs (ratio c - MWC.ka m / MWC.ki m) < delta)%R.
Proof.
    intros Hd.
    set (K := (MWC.ka m / MWC.ki m * Rabs (MWC.ki m - MWC.ka m))%R).
    assert (HK : (0 <= K)%R).
    { unfold K. apply Rmult_le_pos; [|apply Rabs_pos].
      apply Rmult_le_pos; [lra | left; apply Rinv_0_lt_compat; assumption]. }
    exists (K / delta)%R.
    assert (HM : (0 <= K / delta)%R).
    { apply Rmult_le_pos; [assumption | left; apply Rinv_0_lt_compat; assumption]. }
    split; [assumption|]. intros c Hc.
    rewrite ratio_minus_limit by lra.
    assert (Hden : (0 < MWC.ka m + c)%R) by lra.
    unfold Rdiv at 1. rewrite Rabs_mult, Rabs_mult.
    rewrite (Rabs_pos_eq (MWC.ka m / MWC.ki m)).
    2:{ apply Rmult_le_pos; [lra | left; apply Rinv_0_lt_compat; assumption]. }
    rewrite (Rabs_pos_eq (/ (MWC.ka m + c))).
    2:{ left. apply Rinv_0_lt_compat. assumption. }
    fold K.
    apply Rmult_lt_reg_r with (MWC.ka m + c)%R; [assumption|].
    rewrite Rmult_assoc, Rinv_l by lra. rewrite Rmult_1_r.
    assert (K < delta * c)%R.
    { apply Rmult_lt_reg_r with (/ delta)%R; [apply Rinv_0_lt_compat; assumption|].
      replace (delta * c * / delta)%R with c by (field; lra). exact Hc. }
    nra.
Qed.

Lemma g_continuous (x0 : R) : (0 < x0)%R -> continuity_pt g x0.
Proof.
    intros Hx0.
    assert (Hp : continuity_pt (fun r => Rpower r (MWC.n m)) x0).
    { apply derivable_continuous_pt.
      exists (MWC.n m * Rpower x0 (MWC.n m - 1))%R.
      apply derivable_pt_lim_power. assumption. }
    apply (continuity_pt_inv
             (fct_cte 1 + mult_real_fct (exp (- MWC.ep_ai m))
                                        (fun r => Rpower r (MWC.n m)))%F).
    - apply continuity_pt_plus; [apply continuity_pt_const; intros ? ?; reflexivity|].
      apply continuity_pt_scal. exact Hp.
    - unfold plus_fct, fct_cte, mult_real_fct.
      apply Rgt_not_eq. apply g_denominator_pos.
Qed.

Lemma pact_tends_to_saturation :
    tends_to_at_infinity (fun c => MWC.pact (with_c m c)) (MWC.saturation m).
Proof.
    intros eps Heps.
    assert (Hx0 : (0 < MWC.ka m / MWC.ki m)%R).
    { apply Rmult_lt_0_compat; [assumption | apply Rinv_0_lt_compat; assumption]. }
    destruct (g_continuous _ Hx0 eps Heps) as (delta & Hdelta & Hcont).
    destruct (ratio_tends_to delta Hdelta) as (M & HM & Hratio).
    exists M. intros c Hc.
    rewrite pact_as_ratio by lra. rewrite saturation_as_ratio.
    destruct (Req_dec (ratio c) (MWC.ka m / MWC.ki m)) as [Heq | Hneq].
    - rewrite Heq. unfold Rminus. rewrite Rplus_opp_r, Rabs_R0. assumption.
    - apply (Hcont (ratio c)). split.
      + split; [exact I | auto].
      + apply Hratio. assumption.
Qed.

End MWCLimits.

(** C4: for positive [ka] and [ki], [leakiness] is [pact] at zero effector
    concentration, [1 / (1 + exp(-ep_ai))], and [saturation] is the limit
    of [pact] as the concentration grows without bound,
    [1 / (1 + exp(-ep_ai) (ka / ki)^n)]. *)
Theorem leakiness_saturation_are_limits_of_pact (m : MWC.t) :
  (0 < MWC.ka m)%R -> (0 < MWC.ki m)%R ->
  MWC.leakiness m = MWC.pact (with_c m 0) /\
  MWC.leakiness m = (/ (1 + exp (- MWC.ep_ai m)))%R /\
  tends_to_at_infinity (fun c => MWC.pact (with_c m c)) (MWC.saturation m) /\
  MWC.saturation m
  = (/ (1 + exp (- MWC.ep_ai m) * Rpower (MWC.ka m / MWC.ki m) (MWC.n m)))%R.
Proof.
  intros Hka Hki.
  assert (HE : (0 < exp (- MWC.ep_ai m))%R) by apply exp_pos.
  assert (Hleak : MWC.leakiness m = (/ (1 + exp (- MWC.ep_ai m)))%R).
  { unfold MWC.leakiness. apply float_pow_inv. lra. }
  split; [|split; [exact Hleak | split]].
  - rewrite Hleak. unfold MWC.pact, with_c, float_pow. simpl.
    replace (1 + 0 / MWC.ka m)%R with 1%R by (unfold Rdiv; ring).
    replace (1 + 0 / MWC.ki m)%R with 1%R by (unfold Rdiv; ring).
    unfold Rpower. rewrite ln_1, Rmult_0_r, exp_0. field. lra.
  - apply pact_tends_to_saturation; assumption.
  - apply (saturation_as_ratio m).
Qed.

Lemma leakiness_saturation_are_limits_of_pact_witness :
  (0 < 139)%R /\ (0 < 53 / 100)%R /\
  MWC.leakiness (MWC.mk 50 (45 / 10) 2 139 (53 / 100))
  = MWC.pact (with_c (MWC.mk 50 (45 / 10) 2 139 (53 / 100)) 0).
Proof.
  assert (Hka : (0 < 139)%R) by lra.
  assert (Hki : (0 < 53 / 100)%R) by lra.
  split; [exact Hka|]. split; [exact Hki|].
  exact (proj1 (leakiness_saturation_are_limits_of_pact
                  (MWC.mk 50 (45 / 10) 2 139 (53 / 100)) Hka Hki)).
Defined.

(** ** The closed form of the posterior *)

Lemma ln_sqrt_half (x : R) : (0 < x)%R -> ln (sqrt x) = (1 / 2 * ln x)%R.
Proof.
  intros Hx. assert (Hs : (0 < sqrt x)%R) by (apply sqrt_lt_R0; assumption).
  assert (H : ln (sqrt x * sqrt x) = ln x) by (rewrite sqrt_sqrt by lra; reflexivity).
  rewrite ln_mult in H by assumption. lra.
Qed.

Lemma halfnorm_pdf_pos (scale x : R) :
  (0 < scale)%R -> (0 < CalFactor.halfnorm_pdf 0 scale x)%R.
Proof.
  intros Hs. unfold CalFactor.halfnorm_pdf.
  assert (H2 : (0 < 2 / PI)%R).
  { apply Rmult_lt_0_compat; [lra | apply Rinv_0_lt_compat, PI_RGT_0]. }
  apply Rmult_lt_0_compat; [|apply Rinv_0_lt_compat; assumption].
  apply Rmult_lt_0_compat; [apply sqrt_lt_R0; assumption | apply exp_pos].
Qed.

Lemma halfnorm_logpdf_is_ln_pdf (scale x : R) :
  (0 < scale)%R ->
  CalFactor.halfnorm_logpdf 0 scale x = ln (CalFactor.halfnorm_pdf 0 scale x).
Proof.
  intros Hs. unfold CalFactor.halfnorm_logpdf, CalFactor.halfnorm_pdf.
  assert (H2 : (0 < 2 / PI)%R).
  { apply Rmult_lt_0_compat; [lra | apply Rinv_0_lt_compat, PI_RGT_0]. }
  assert (Hq : (0 < sqrt (2 / PI))%R) by (apply sqrt_lt_R0; assumption).
  set (y := ((x - 0) / scale)%R).
  unfold Rdiv at 4.
  rewrite ln_mult;
    [| apply Rmult_lt_0_compat; [assumption | apply exp_pos]
     | apply Rinv_0_lt_compat; assumption].
  rewrite ln_mult by (assumption || apply exp_pos).
  rewrite ln_sqrt_half, ln_exp, ln_Rinv by assumption. lra.
Qed.

Section Posterior.
#[local] Open Scope R_scope.
Variables gammaln Gamma : R -> R.
Hypothesis Gamma_pos : forall x : R, (0 < x)%R -> (0 < Gamma x)%R.
Hypothesis gammaln_Gamma : forall x : R, (0 < x)%R -> gammaln x = ln (Gamma x).

Variable a : R.
Hypothesis a_pos : (0 < a)%R.

Lemma copy_number_pos (x : R) : (0 <= x)%R -> (0 < x / a + 1)%R.
Proof.
  intros Hx. assert (0 <= x / a)%R; [|lra].
  apply Rmult_le_pos; [assumption | left; apply Rinv_0_lt_compat; assumption].
Qed.

Lemma partition_term_pos (p : R * R) :
  (0 <= p.1)%R -> (0 <= p.2)%R -> (0 < CalFactor.partition_term Gamma a p)%R.
Proof.
  intros H1 H2. unfold CalFactor.partition_term.
  assert (Ht : (0 <= p.1 + p.2)%R) by lra.
  pose proof (Gamma_pos _ (copy_number_pos _ H1)).
  pose proof (Gamma_pos _ (copy_number_pos _ H2)).
  pose proof (Gamma_pos _ (copy_number_pos _ Ht)).
  apply Rmult_lt_0_compat; [|apply exp_pos].
  apply Rmult_lt_0_compat; [assumption|].
  apply Rinv_0_lt_compat. apply Rmult_lt_0_compat; assumption.
Qed.

Lemma ln_partition_term (p : R * R) :
  (0 <= p.1)%R -> (0 <= p.2)%R ->
  ln (CalFactor.partition_term Gamma a p)
  = (gammaln ((p.1 + p.2) / a + 1) - gammaln (p.1 / a + 1) - gammaln (p.2 / a + 1)
     + - ((p.1 + p.2) / a) * ln 2)%R.
Proof.
  intros H1 H2. unfold CalFactor.partition_term.
  assert (Ht : (0 <= p.1 + p.2)%R) by lra.
  pose proof (Gamma_pos _ (copy_number_pos _ H1)) as G1.
  pose proof (Gamma_pos _ (copy_number_pos _ H2)) as G2.
  pose proof (Gamma_pos _ (copy_number_pos _ Ht)) as Gt.
  rewrite !gammaln_Gamma by (apply copy_number_pos; assumption).
  assert (G12 : (0 < Gamma (p.1 / a + 1) * Gamma (p.2 / a + 1))%R)
    by (apply Rmult_lt_0_compat; assumption).
  rewrite ln_mult;
    [| apply Rmult_lt_0_compat; [assumption | apply Rinv_0_lt_compat; assumption]
     | apply exp_pos].
  unfold Rdiv at 1.
  rewrite ln_mult by (assumption || apply Rinv_0_lt_compat; assumption).
  rewrite ln_Rinv by assumption. rewrite ln_mult by assumption.
  rewrite ln_Rpower. lra.
Qed.

Lemma prod_partition_terms (ps : list (R * R)) :
  Forall pair_nonnegative ps ->
  (0 < CalFactor.prod (map (CalFactor.partition_term Gamma a) ps))%R /\
  ln (CalFactor.prod (map (CalFactor.partition_term Gamma a) ps))
  = (Np.sum (map (fun p => gammaln ((p.1 + p.2) / a + 1) - gammaln (p.1 / a + 1)
                           - gammaln (p.2 / a + 1)) ps)
     + - ln 2 * Np.sum (map (fun p => (p.1 + p.2) / a) ps))%R.
Proof.
  induction 1 as [|p ps [H1 H2] _ [IHpos IHln]]; simpl.
  - split; [lra | rewrite ln_1; lra].
  - pose proof (partition_term_pos p H1 H2) as Hp.
    split; [apply Rmult_lt_0_compat; assumption|].
    rewrite ln_mult by assumption.
    rewrite IHln, ln_partition_term by assumption. lra.
Qed.

Lemma sums_over_pairs (ps : list (R * R)) :
  Np.sum (CalFactor.div_scalar (zip_with Rplus ps.*1 ps.*2) a)
  = Np.sum (map (fun p => (p.1 + p.2) / a) ps) /\
  (Np.sum (map gammaln (CalFactor.add_scalar
             (CalFactor.div_scalar (zip_with Rplus ps.*1 ps.*2) a) 1))
   - Np.sum (map gammaln (CalFactor.add_scalar (CalFactor.div_scalar ps.*1 a) 1))
   - Np.sum (map gammaln (CalFactor.add_scalar (CalFactor.div_scalar ps.*2 a) 1))
   = Np.sum (map (fun p => gammaln ((p.1 + p.2) / a + 1) - gammaln (p.1 / a + 1)
                           - gammaln (p.2 / a + 1)) ps))%R.
Proof.
  unfold CalFactor.div_scalar, CalFactor.add_scalar.
  induction ps as [|p ps [IH1 IH2]]; csimpl.
  - split; lra.
  - split; [rewrite IH1; reflexivity|].
    rewrite <- IH2. lra.
Qed.

Lemma nonnegative_pairs (I1 I2 : list R) :
  nonnegative I1 -> nonnegative I2 -> Forall pair_nonnegative (zip I1 I2).
Proof.
  intros H1. revert I2. induction H1 as [|x I1 Hx _ IH]; intros I2 H2; simpl.
  - constructor.
  - destruct H2 as [|y I2 Hy H2]; constructor; [split; assumption | apply IH; assumption].
Qed.

(** C1: for a positive calibration factor and non-negative intensity
    arrays of equal length, [log_posterior] returns the logarithm of the
    closed-form posterior: the half-normal(0, 500) log prior, the change of
    variables [-k log(alpha)], the sum of the [gammaln] terms of the
    binomial coefficients and the partitioning term
    [-(log 2) sum_i (I1_i + I2_i) / alpha]. *)
Theorem log_posterior_is_log_of_closed_form (I1 I2 : list R) :
  length I1 = length I2 -> nonnegative I1 -> nonnegative I2 ->
  (0 < CalFactor.posterior Gamma a I1 I2)%R /\
  CalFactor.log_posterior gammaln a I1 I2 false
  = Ok (ln (CalFactor.posterior Gamma a I1 I2)) /\
  CalFactor.log_posterior gammaln a I1 I2 false
  = Ok (ln (CalFactor.halfnorm_pdf 0 500 a)
        + - INR (length I1) * ln a
        + Np.sum (map (fun p => gammaln ((p.1 + p.2) / a + 1)
                                - gammaln (p.1 / a + 1) - gammaln (p.2 / a + 1))
                      (zip I1 I2))
        + - ln 2 * Np.sum (map (fun p => (p.1 + p.2) / a) (zip I1 I2)))%R.
Proof.
  intros Hlen H1 H2.
  pose proof (nonnegative_pairs I1 I2 H1 H2) as Hps.
  destruct (prod_partition_terms _ Hps) as [Hpos Hln].
  pose proof (halfnorm_pdf_pos 500 a ltac:(lra)) as Hprior.
  assert (Hpow : (0 < a ^ length I1)%R) by (apply pow_lt; assumption).
  assert (Hinv : (0 < / a ^ length I1)%R) by (apply Rinv_0_lt_compat; assumption).
  assert (Hclosed : ln (CalFactor.posterior Gamma a I1 I2)
    = (ln (CalFactor.halfnorm_pdf 0 500 a) + - INR (length I1) * ln a
       + Np.sum (map (fun p => gammaln ((p.1 + p.2) / a + 1)
                               - gammaln (p.1 / a + 1) - gammaln (p.2 / a + 1))
                     (zip I1 I2))
       + - ln 2 * Np.sum (map (fun p => (p.1 + p.2) / a) (zip I1 I2)))%R).
  { unfold CalFactor.posterior.
    rewrite ln_mult; [| apply Rmult_lt_0_compat; assumption | assumption].
    rewrite ln_mult by assumption.
    rewrite ln_Rinv, ln_pow by assumption. rewrite Hln. lra. }
  split; [|split].
  - unfold CalFactor.posterior.
    apply Rmult_lt_0_compat; [apply Rmult_lt_0_compat|]; assumption.
  - rewrite Hclosed. rewrite log_posterior_ok by assumption. f_equal.
    destruct (sums_over_pairs (zip I1 I2)) as [S1 S2].
    rewrite fst_zip, snd_zip in S1, S2 by lia.
    rewrite S1, S2, <- halfnorm_logpdf_is_ln_pdf by lra. lra.
  - rewrite log_posterior_ok by assumption. f_equal.
    destruct (sums_over_pairs (zip I1 I2)) as [S1 S2].
    rewrite fst_zip, snd_zip in S1, S2 by lia.
    rewrite S1, S2, <- halfnorm_logpdf_is_ln_pdf by lra. lra.
Qed.

End Posterior.

Lemma log_posterior_is_log_of_closed_form_witness :
  (forall x : R, (0 < x)%R -> (0 < exp x)%R) /\
  (forall x : R, (0 < x)%R -> x = ln (exp x)) /\
  (0 < 25)%R /\ length [120; 80; 45]%R = length [100; 95; 60]%R /\
  nonnegative [120; 80; 45]%R /\ nonnegative [100; 95; 60]%R /\
  CalFactor.log_posterior (fun x => x) 25 [120; 80; 45]%R [100; 95; 60]%R false
  = Ok (ln (CalFactor.posterior exp 25 [120; 80; 45]%R [100; 95; 60]%R)).
Proof.
  assert (Hg : forall x : R, (0 < x)%R -> (0 < exp x)%R) by (intros; apply exp_pos).
  assert (Hl : forall x : R, (0 < x)%R -> x = ln (exp x))
    by (intros; symmetry; apply ln_exp).
  assert (Hpos : (0 < 25)%R) by lra.
  split; [exact Hg|]. split; [exact Hl|]. split; [exact Hpos|].
  split; [reflexivity|].
  split; [exact nonnegative_example_1|]. split; [exact nonnegative_example_2|].
  exact (proj1 (proj2 (log_posterior_is_log_of_closed_form (fun x => x) exp Hg Hl
                         25 Hpos [120; 80; 45]%R [100; 95; 60]%R eq_refl
                         nonnegative_example_1 nonnegative_example_2))).
Defined.

(** ** The grid of calibration factors and the MAP *)

Lemma alpha_range_length : length CalFactor.alpha_range = 500%nat.
Proof.
  unfold CalFactor.alpha_range, CalFactor.logspace, CalFactor.linspace.
  rewrite !length_map, length_seq. reflexivity.
Qed.

Lemma alpha_range_pos (a : R) : a ∈ CalFactor.alpha_range -> (0 < a)%R.
Proof.
  unfold CalFactor.alpha_range, CalFactor.logspace. intros H.
  apply list_elem_of_In, in_map_iff in H as (e & <- & _). apply exp_pos.
Qed.

Lemma alpha_range_points (i : nat) :
  (i < 500)%nat ->
  CalFactor.alpha_range !! i = Some (Rpower 10 (INR i * (401 / 100) / 499)).
Proof.
  intros Hi. unfold CalFactor.alpha_range, CalFactor.logspace, CalFactor.linspace.
  change (map ?f ?l) with (f <$> l).
  rewrite !list_lookup_fmap, lookup_seq_lt by exact Hi. cbn [fmap option_fmap option_map].
  do 2 f_equal.
  replace (INR (500 - 1)) with 499%R by (rewrite INR_IZR_INZ; reflexivity).
  change (0 + i)%nat with i. lra.
Qed.

#[local] Opaque CalFactor.alpha_range.

Lemma for_fold_ext {A S : Type} (body1 body2 : S -> A -> result S) (s : S)
    (xs : list A) :
  (forall s x, body1 s x = body2 s x) ->
  Stats.for_fold body1 s xs = Stats.for_fold body2 s xs.
Proof.
  intros H. revert s. induction xs as [|x xs IH]; intros s; simpl; [reflexivity|].
  rewrite H. destruct (body2 s x); simpl; [apply IH | reflexivity].
Qed.

Lemma for_fold_append_ok {A B : Type} (f : A -> result B) (xs : list A)
    (ys acc : list B) :
  Forall2 (fun x y => f x = Ok y) xs ys ->
  Stats.for_fold (fun acc x => y ← f x; Ok (acc ++ [y])) acc xs = Ok (acc ++ ys).
Proof.
  intros H. revert acc. induction H as [|x y xs ys Hxy _ IH]; intros acc; simpl.
  - rewrite app_nil_r. reflexivity.
  - rewrite Hxy. simpl. rewrite IH, <- app_assoc. reflexivity.
Qed.

Lemma for_fold_append_inv {A B : Type} (f : A -> result B) (xs : list A)
    (acc r : list B) :
  Stats.for_fold (fun acc x => y ← f x; Ok (acc ++ [y])) acc xs = Ok r ->
  exists ys, r = acc ++ ys /\ Forall2 (fun x y => f x = Ok y) xs ys.
Proof.
  revert acc. induction xs as [|x xs IH]; intros acc; simpl.
  - intros [= <-]. exists []. rewrite app_nil_r. split; [reflexivity | constructor].
  - destruct (f x) as [y|e] eqn:E; simpl; [|discriminate].
    intros H. apply IH in H as (ys & -> & Hys).
    exists (y :: ys). rewrite <- app_assoc. split; [reflexivity|].
    constructor; assumption.
Qed.

(** Filling an array of zeros by index gives the array of the values. *)
Lemma fill_by_index (f : R -> result R) (g : R -> R) (xs done : list R) :
  (forall x, x ∈ xs -> f x = Ok (g x)) ->
  Stats.for_fold (fun logp ia => v ← f ia.2; Ok (<[ia.1 := v]> logp))
    (done ++ Np.zeros (length xs))
    (imap (fun i x => ((length done + i)%nat, x)) xs)
  = Ok (done ++ map g xs).
Proof.
  revert done. induction xs as [|x xs IH]; intros done Hf; simpl.
  - reflexivity.
  - rewrite (Hf x) by left. simpl.
    rewrite insert_app_r. simpl.
    rewrite (cons_middle (g x) done), app_assoc.
    rewrite (imap_ext _ (fun i y => ((length (done ++ [g x]) + i)%nat, y))).
    2:{ intros i y _. simpl. rewrite length_app. simpl. f_equal. lia. }
    rewrite IH; [|intros y Hy; apply Hf; right; exact Hy].
    rewrite <- app_assoc. reflexivity.
Qed.

Lemma sum_exp_pos (xs : list R) : xs <> [] -> (0 < Np.sum (map exp xs))%R.
Proof.
  intros Hne. destruct xs as [|x xs]; [done|]. clear Hne. simpl.
  assert (0 <= Np.sum (map exp xs))%R.
  { induction xs as [|y ys IH]; simpl; [lra|]. pose proof (exp_pos y). lra. }
  pose proof (exp_pos x). lra.
Qed.

Lemma sum_scale (xs : list R) (s : R) :
  Np.sum (map (fun x => x * s)%R xs) = (Np.sum xs * s)%R.
Proof. induction xs as [|x xs IH]; simpl; [lra | rewrite IH; lra]. Qed.

(** Subtracting [logsumexp] normalises: the exponentials sum to one. *)
Lemma logsumexp_normalises (logp : list R) :
  logp <> [] ->
  Np.sum (map (fun l => exp (l - CalFactor.logsumexp logp)) logp) = 1%R.
Proof.
  intros Hne. pose proof (sum_exp_pos logp Hne) as HS.
  unfold CalFactor.logsumexp.
  rewrite (map_ext _ (fun l => exp l * / Np.sum (map exp logp))%R).
  2:{ intros l. unfold Rminus. rewrite exp_plus, exp_Ropp, exp_ln by assumption.
      reflexivity. }
  rewrite <- (map_map exp (fun x => x * / Np.sum (map exp logp))%R).
  rewrite sum_scale. apply Rinv_r. lra.
Qed.

Lemma keep_nonnegative (r : CalFactor.lineage) :
  CalFactor.keep r = true ->
  (0 <= CalFactor.I_1_sub r)%R /\ (0 <= CalFactor.I_2_sub r)%R.
Proof.
  unfold CalFactor.keep. intros H.
  apply andb_true_iff in H as [H _]. apply andb_true_iff in H as [H1 H2].
  apply negb_true_iff in H1, H2.
  split.
  - destruct (Rlt_dec (CalFactor.I_1_sub r) 0) as [Hlt|]; [|lra].
    apply float_lt_true in Hlt. congruence.
  - destruct (Rlt_dec (CalFactor.I_2_sub r) 0) as [Hlt|]; [|lra].
    apply float_lt_true in Hlt. congruence.
Qed.

Lemma group_of_lin_final (lin_sub : list CalFactor.lineage)
    (gd : CalFactor.replicate_key * list CalFactor.lineage) :
  gd ∈ CalFactor.groupby (CalFactor.lin_final lin_sub) ->
  gd.2 <> [] /\
  (forall r, r ∈ gd.2 <-> r ∈ CalFactor.lin_final lin_sub /\ CalFactor.key_of r = gd.1) /\
  length (map CalFactor.I_1_sub gd.2) = length (map CalFactor.I_2_sub gd.2) /\
  nonnegative (map CalFactor.I_1_sub gd.2) /\
  nonnegative (map CalFactor.I_2_sub gd.2).
Proof.
  unfold CalFactor.groupby. intros H.
  apply list_elem_of_In, in_map_iff in H as (g & <- & Hg). simpl.
  apply list_elem_of_In, elem_of_remove_dups, list_elem_of_In, in_map_iff in Hg
    as (r0 & Hr0 & Hin0).
  assert (Hmem : forall r,
    r ∈ List.filter (fun r => bool_decide (CalFactor.key_of r = g))
          (CalFactor.lin_final lin_sub)
    <-> r ∈ CalFactor.lin_final lin_sub /\ CalFactor.key_of r = g).
  { intros r. rewrite !list_elem_of_In, filter_In, bool_decide_eq_true. reflexivity. }
  split; [|split; [exact Hmem | split]].
  - intros Hnil. assert (Hr : r0 ∈ @nil CalFactor.lineage).
    { rewrite <- Hnil. apply Hmem. rewrite list_elem_of_In. auto. }
    apply elem_of_nil in Hr. exact Hr.
  - rewrite !length_map. reflexivity.
  - assert (Hall : Forall (fun r => CalFactor.keep r = true)
        (List.filter (fun r => bool_decide (CalFactor.key_of r = g))
           (CalFactor.lin_final lin_sub))).
    { apply Forall_forall. intros r Hr. apply Hmem in Hr as [Hr _].
      unfold CalFactor.lin_final in Hr.
      apply list_elem_of_In, filter_In in Hr as [_ Hk]. exact Hk. }
    unfold nonnegative. split; rewrite Forall_map;
      (eapply Forall_impl; [exact Hall|]); intros r Hk;
      apply keep_nonnegative in Hk; tauto.
Qed.

Lemma log_posterior_value (gammaln : R -> R) (a : R) (I1 I2 : list R)
    (negative : bool) :
  length I1 = length I2 -> nonnegative I1 -> nonnegative I2 ->
  CalFactor.log_posterior gammaln a I1 I2 negative
  = Ok (logp_value gammaln I1 I2 negative a).
Proof.
  intros Hlen H1 H2. unfold logp_value.
  rewrite log_posterior_ok by assumption. reflexivity.
Qed.

Lemma fill_logp_ok (gammaln : R -> R) (I1 I2 : list R) :
  length I1 = length I2 -> nonnegative I1 -> nonnegative I2 ->
  CalFactor.fill_logp gammaln I1 I2
  = Ok (map (logp_value gammaln I1 I2 false) CalFactor.alpha_range).
Proof.
  intros Hlen H1 H2. unfold CalFactor.fill_logp.
  apply (fill_by_index (fun a => CalFactor.log_posterior gammaln a I1 I2 false)
           (logp_value gammaln I1 I2 false) CalFactor.alpha_range []).
  intros a _. apply log_posterior_value; assumption.
Qed.

Lemma eval_group_ok (gammaln : R -> R) (lin_sub : list CalFactor.lineage)
    (gd : CalFactor.replicate_key * list CalFactor.lineage) :
  gd ∈ CalFactor.groupby (CalFactor.lin_final lin_sub) ->
  exists df, CalFactor.eval_group gammaln gd = Ok df /\ frame_of_group gammaln gd df.
Proof.
  intros Hgd.
  destruct (group_of_lin_final _ _ Hgd) as (_ & _ & Hlen & H1 & H2).
  unfold CalFactor.eval_group. rewrite fill_logp_ok by assumption. simpl.
  eexists. split; [reflexivity|].
  unfold frame_of_group. simpl.
  split; [reflexivity|]. split; [reflexivity|]. split; [|split; [reflexivity|split]].
  - apply Forall2_fmap_r, Forall_Forall2_diag, Forall_forall. intros a _.
    apply log_posterior_value; assumption.
  - rewrite !length_map. apply alpha_range_length.
  - apply logsumexp_normalises. intros Hnil.
    apply (f_equal length) in Hnil. rewrite length_map, alpha_range_length in Hnil.
    discriminate.
Qed.

Lemma Forall2_of_pointwise {A B : Type} (f : A -> result B) (P : A -> B -> Prop)
    (xs : list A) :
  (forall x, x ∈ xs -> exists y, f x = Ok y /\ P x y) ->
  exists ys, Forall2 (fun x y => f x = Ok y) xs ys /\ Forall2 P xs ys.
Proof.
  induction xs as [|x xs IH]; intros H.
  - exists []. split; constructor.
  - destruct (H x) as (y & Hy & Py); [left|].
    destruct IH as (ys & H1 & H2); [intros z Hz; apply H; right; exact Hz|].
    exists (y :: ys). split; constructor; assumption.
Qed.

Lemma set_alpha_opt_row (g : CalFactor.replicate_key) (v : R)
    (r : CalFactor.estimated) :
  CalFactor.lin_row (CalFactor.set_alpha_opt g v r) = CalFactor.lin_row r /\
  (CalFactor.key_of (CalFactor.lin_row r) = g ->
     CalFactor.alpha_opt (CalFactor.set_alpha_opt g v r) = Some v) /\
  (CalFactor.key_of (CalFactor.lin_row r) <> g ->
     CalFactor.set_alpha_opt g v r = r).
Proof.
  unfold CalFactor.set_alpha_opt, CalFactor.key_of.
  destruct g as [[[gc gt] gdate] grun]. cbn [fst snd].
  destruct (bool_decide_reflect (CalFactor.date (CalFactor.lin_row r) = gdate)),
    (bool_decide_reflect (CalFactor.carbon (CalFactor.lin_row r) = gc)),
    (bool_decide_reflect (CalFactor.temp (CalFactor.lin_row r) = gt)),
    (bool_decide_reflect (CalFactor.run_number (CalFactor.lin_row r) = grun));
    cbn [andb CalFactor.lin_row CalFactor.alpha_opt];
    (split; [reflexivity|]); (split; [intros [= ? ? ? ?]; try reflexivity; contradiction|]);
    intros Hne; try reflexivity.
  exfalso. apply Hne. congruence.
Qed.

Lemma set_alpha_std_row (g : CalFactor.replicate_key) (v : option R)
    (r : CalFactor.estimated) :
  CalFactor.lin_row (CalFactor.set_alpha_std g v r) = CalFactor.lin_row r /\
  CalFactor.alpha_opt (CalFactor.set_alpha_std g v r) = CalFactor.alpha_opt r.
Proof.
  unfold CalFactor.set_alpha_std.
  destruct (_ && _); split; reflexivity.
Qed.

Section MapLoop.
Variable gammaln : R -> R.
Variable minimize_scalar : (R -> result R) -> list R -> result R.
Variable approx_hess : R -> (R -> result R) -> result R.
Variable lin : list CalFactor.lineage.

(** The optimiser returns on the replicate [gd], and the Hessian at the
    point it returns is computed and not singular. *)
Let returns (gd : CalFactor.replicate_key * list CalFactor.lineage) : Prop :=
  exists a h,
    minimize_scalar
      (fun a' => CalFactor.log_posterior gammaln a' (map CalFactor.I_1_sub gd.2)
                   (map CalFactor.I_2_sub gd.2) true)
      [1; 10000]%R = Ok a /\
    approx_hess a
      (fun a' => CalFactor.log_posterior gammaln a' (map CalFactor.I_1_sub gd.2)
                   (map CalFactor.I_2_sub gd.2) false) = Ok h /\
    h <> 0%R.

Lemma estimate_ok (gd : CalFactor.replicate_key * list CalFactor.lineage) :
  returns gd ->
  exists a s,
    CalFactor.estimate gammaln minimize_scalar approx_hess gd.2 = Ok (a, s) /\
    minimize_scalar
      (fun a' => CalFactor.log_posterior gammaln a' (map CalFactor.I_1_sub gd.2)
                   (map CalFactor.I_2_sub gd.2) true)
      [1; 10000]%R = Ok a.
Proof.
  intros (a & h & Hmin & Hhess & Hh).
  exists a, (CalFactor.np_sqrt (- / h)). split; [|exact Hmin].
  unfold CalFactor.estimate, CalFactor.find_map, CalFactor.objective.
  rewrite Hmin. cbn [mbind result_bind]. rewrite Hhess. cbn [mbind result_bind].
  unfold CalFactor.linalg_inv. rewrite float_eq_false by exact Hh. reflexivity.
Qed.

Lemma map_loop (rest done : list (CalFactor.replicate_key * list CalFactor.lineage))
    (frame : list CalFactor.estimated) :
  (forall gd, gd ∈ rest -> returns gd) ->
  map CalFactor.lin_row frame = lin ->
  (forall r, r ∈ frame -> CalFactor.key_of (CalFactor.lin_row r) ∈ done.*1 ->
     map_of_replicate gammaln minimize_scalar done r) ->
  exists final,
    Stats.for_fold (CalFactor.map_step gammaln minimize_scalar approx_hess)
      frame rest = Ok final /\
    map CalFactor.lin_row final = lin /\
    (forall r, r ∈ final ->
       CalFactor.key_of (CalFactor.lin_row r) ∈ (done ++ rest).*1 ->
       map_of_replicate gammaln minimize_scalar (done ++ rest) r).
Proof.
  revert done frame. induction rest as [|gd rest IH]; intros done frame Hret Hrows Hinv.
  - exists frame. rewrite app_nil_r. split; [reflexivity|]. split; assumption.
  - destruct (estimate_ok gd (Hret gd ltac:(left))) as (a & s & Hest & Hmin).
    set (frame' := map (CalFactor.set_alpha_std gd.1 s)
                     (map (CalFactor.set_alpha_opt gd.1 a) frame)).
    assert (Hstep : CalFactor.map_step gammaln minimize_scalar approx_hess frame gd
                    = Ok frame')
      by (unfold CalFactor.map_step; rewrite Hest; reflexivity).
    cbn [Stats.for_fold]. rewrite Hstep. cbn [mbind result_bind].
    destruct (IH (done ++ [gd]) frame') as (final & Hrun & Hfinal & Hall).
    + intros gd' Hgd'. apply Hret. right. exact Hgd'.
    + unfold frame'. rewrite !map_map. rewrite <- Hrows. apply map_ext.
      intros r. rewrite (proj1 (set_alpha_std_row _ _ _)).
      apply (proj1 (set_alpha_opt_row _ _ _)).
    + intros r' Hr' Hkey. unfold frame' in Hr'. rewrite map_map in Hr'.
      apply list_elem_of_In, in_map_iff in Hr' as (r & <- & Hr).
      apply list_elem_of_In in Hr.
      destruct (set_alpha_std_row gd.1 s (CalFactor.set_alpha_opt gd.1 a r))
        as [Hrow Hopt].
      destruct (set_alpha_opt_row gd.1 a r) as (Hrow' & Hset & Hkeep).
      rewrite Hrow, Hrow' in Hkey. unfold map_of_replicate. rewrite Hrow, Hrow', Hopt.
      destruct (decide (CalFactor.key_of (CalFactor.lin_row r) = gd.1)) as [Heq|Hne].
      * exists gd.2, a. split; [|split; [exact Hmin | exact (Hset Heq)]].
        rewrite Heq. apply elem_of_app. right. apply list_elem_of_singleton.
        destruct gd; reflexivity.
      * rewrite (Hkeep Hne).
        assert (Hdone : CalFactor.key_of (CalFactor.lin_row r) ∈ done.*1).
        { rewrite fmap_app in Hkey. apply elem_of_app in Hkey as [Hk|Hk]; [exact Hk|].
          apply list_elem_of_singleton in Hk. contradiction. }
        destruct (Hinv r Hr Hdone) as (d & a0 & Hd & Ha0 & Hr0).
        exists d, a0. split; [apply elem_of_app; left; exact Hd|]. split; assumption.
    + exists final. rewrite <- app_assoc in Hall. split; [exact Hrun|].
      split; assumption.
Qed.

Lemma map_estimates_ok :
  (forall gd, gd ∈ CalFactor.groupby lin -> returns gd) ->
  exists final,
    CalFactor.map_estimates gammaln minimize_scalar approx_hess lin = Ok final /\
    map CalFactor.lin_row final = lin /\
    (forall r, r ∈ final ->
       map_of_replicate gammaln minimize_scalar (CalFactor.groupby lin) r).
Proof.
  intros Hret.
  destruct (map_loop (CalFactor.groupby lin) []
              (map (fun r => CalFactor.mkEstimated r None None) lin))
    as (final & Hrun & Hrows & Hall).
  - exact Hret.
  - rewrite map_map. apply map_id.
  - intros r _ Hkey. inversion Hkey.
  - exists final. split; [exact Hrun|]. split; [exact Hrows|].
    intros r Hr. apply Hall; [exact Hr|]. cbn [app].
    assert (Hkeys : forall l : list CalFactor.replicate_key,
              (map (fun g => (g, List.filter
                                   (fun r => bool_decide (CalFactor.key_of r = g)) lin))
                   l).*1 = l).
    { induction l as [|g l IH]; [reflexivity|]. cbn. f_equal. exact IH. }
    unfold CalFactor.groupby. rewrite Hkeys. apply elem_of_remove_dups.
    apply list_elem_of_In, in_map. rewrite <- Hrows.
    apply in_map, list_elem_of_In. exact Hr.
Qed.

End MapLoop.

(** C2: the grid is the 500 points [10 ** (4.01 * i / 499)] of
    [np.logspace(0, 4.01, 500)], from 1 to [10 ** 4.01]; for every
    replicate group of [lin_final] the grid evaluation stores the log
    posterior at each point and a [post] column, normalised with
    [logsumexp], that sums to 1.  The MAP loop, when the optimiser returns
    on every replicate and the Hessian there is computed and not singular,
    runs to its end, keeps the rows of [lin_final] and leaves in every row,
    under [alpha_opt], the value [minimize_scalar] returned for the
    negative log posterior ([negative=True]) of the replicate of the row;
    that function is the negation of the log posterior, so a minimiser of
    it maximises the posterior. *)
Theorem grid_search_and_MAP (gammaln : R -> R)
    (minimize_scalar : (R -> result R) -> list R -> result R)
    (approx_hess : R -> (R -> result R) -> result R)
    (lin_sub : list CalFactor.lineage) :
  (forall gd, gd ∈ CalFactor.groupby (CalFactor.lin_final lin_sub) ->
     exists a h,
       minimize_scalar
         (fun a' => CalFactor.log_posterior gammaln a' (map CalFactor.I_1_sub gd.2)
                      (map CalFactor.I_2_sub gd.2) true)
         [1; 10000]%R = Ok a /\
       approx_hess a
         (fun a' => CalFactor.log_posterior gammaln a' (map CalFactor.I_1_sub gd.2)
                      (map CalFactor.I_2_sub gd.2) false) = Ok h /\
       h <> 0%R) ->
  (length CalFactor.alpha_range = 500%nat /\
   (forall i, (i < 500)%nat ->
      CalFactor.alpha_range !! i = Some (Rpower 10 (INR i * (401 / 100) / 499))) /\
   CalFactor.alpha_range !! 0%nat = Some 1%R /\
   CalFactor.alpha_range !! 499%nat = Some (Rpower 10 (401 / 100))) /\
  (exists post_dfs,
     CalFactor.grid_search gammaln (CalFactor.lin_final lin_sub) = Ok post_dfs /\
     Forall2 (frame_of_group gammaln)
             (CalFactor.groupby (CalFactor.lin_final lin_sub)) post_dfs) /\
  (forall gd, gd ∈ CalFactor.groupby (CalFactor.lin_final lin_sub) ->
     (forall a, exists v,
        CalFactor.log_posterior gammaln a (map CalFactor.I_1_sub gd.2)
          (map CalFactor.I_2_sub gd.2) false = Ok v /\
        CalFactor.log_posterior gammaln a (map CalFactor.I_1_sub gd.2)
          (map CalFactor.I_2_sub gd.2) true = Ok (- v)%R) /\
     (forall (D : R -> Prop) (a_opt : R),
        is_argmin D (logp_value gammaln (map CalFactor.I_1_sub gd.2)
                       (map CalFactor.I_2_sub gd.2) true) a_opt ->
        is_argmax D (logp_value gammaln (map CalFactor.I_1_sub gd.2)
                       (map CalFactor.I_2_sub gd.2) false) a_opt)) /\
  (exists final,
     CalFactor.map_estimates gammaln minimize_scalar approx_hess
       (CalFactor.lin_final lin_sub) = Ok final /\
     map CalFactor.lin_row final = CalFactor.lin_final lin_sub /\
     (forall r, r ∈ final ->
        map_of_replicate gammaln minimize_scalar
          (CalFactor.groupby (CalFactor.lin_final lin_sub)) r)).
Proof.
  intros Hret. split; [|split; [|split]].
  - split; [apply alpha_range_length|]. split; [apply alpha_range_points|].
    split.
    + rewrite alpha_range_points by lia. f_equal.
      replace (INR 0 * (401 / 100) / 499)%R with 0%R by (simpl; lra).
      apply Rpower_O. lra.
    + rewrite alpha_range_points by lia. do 2 f_equal.
      replace (INR 499) with 499%R by (rewrite INR_IZR_INZ; reflexivity). lra.
  - destruct (Forall2_of_pointwise (CalFactor.eval_group gammaln)
                (frame_of_group gammaln)
                (CalFactor.groupby (CalFactor.lin_final lin_sub)))
      as (dfs & Hok & Hframes).
    { intros gd Hgd. eapply eval_group_ok. exact Hgd. }
    exists dfs. split; [|exact Hframes].
    unfold CalFactor.grid_search.
    rewrite (for_fold_append_ok _ _ dfs []) by exact Hok. reflexivity.
  - intros gd Hgd.
    destruct (group_of_lin_final _ _ Hgd) as (_ & _ & Hlen & H1 & H2).
    split.
    + intros a. eexists. split; [apply log_posterior_value; assumption|].
      rewrite log_posterior_value by assumption.
      rewrite logp_value_negative. reflexivity.
    + intros D a_opt. apply argmin_negative_argmax.
  - apply map_estimates_ok. exact Hret.
Qed.

Lemma grid_search_and_MAP_witness :
  (exists post_dfs,
     CalFactor.grid_search ln
       (CalFactor.lin_final
          [CalFactor.mkLineage "glucose" 37 20181005 2 1200 1100;
           CalFactor.mkLineage "glucose" 37 20181005 2 (-30) 400;
           CalFactor.mkLineage "glycerol" 37 20181026 1 800 950])
     = Ok post_dfs /\
     Forall2 (frame_of_group ln)
       (CalFactor.groupby
          (CalFactor.lin_final
             [CalFactor.mkLineage "glucose" 37 20181005 2 1200 1100;
              CalFactor.mkLineage "glucose" 37 20181005 2 (-30) 400;
              CalFactor.mkLineage "glycerol" 37 20181026 1 800 950]))
       post_dfs) /\
  (exists final,
     CalFactor.map_estimates ln (fun _ _ => Ok 25%R) (fun _ _ => Ok (-1)%R)
       (CalFactor.lin_final
          [CalFactor.mkLineage "glucose" 37 20181005 2 1200 1100;
           CalFactor.mkLineage "glucose" 37 20181005 2 (-30) 400;
           CalFactor.mkLineage "glycerol" 37 20181026 1 800 950])
     = Ok final /\
     map CalFactor.lin_row final
     = CalFactor.lin_final
         [CalFactor.mkLineage "glucose" 37 20181005 2 1200 1100;
          CalFactor.mkLineage "glucose" 37 20181005 2 (-30) 400;
          CalFactor.mkLineage "glycerol" 37 20181026 1 800 950] /\
     Forall (fun r => CalFactor.alpha_opt r = Some 25%R) final).
Proof.
  assert (Hret : forall gd,
            gd ∈ CalFactor.groupby
                   (CalFactor.lin_final
                      [CalFactor.mkLineage "glucose" 37 20181005 2 1200 1100;
                       CalFactor.mkLineage "glucose" 37 20181005 2 (-30) 400;
                       CalFactor.mkLineage "glycerol" 37 20181026 1 800 950]) ->
            exists a h,
              (fun (_ : R -> result R) (_ : list R) => Ok 25%R)
                (fun a' => CalFactor.log_posterior ln a' (map CalFactor.I_1_sub gd.2)
                             (map CalFactor.I_2_sub gd.2) true)
                [1; 10000]%R = Ok a /\
              (fun (_ : R) (_ : R -> result R) => Ok (-1)%R) a
                (fun a' => CalFactor.log_posterior ln a' (map CalFactor.I_1_sub gd.2)
                             (map CalFactor.I_2_sub gd.2) false) = Ok h /\
              h <> 0%R).
  { intros gd _. exists 25%R, (-1)%R. split; [reflexivity|]. split; [reflexivity | lra]. }
  destruct (grid_search_and_MAP ln (fun _ _ => Ok 25%R) (fun _ _ => Ok (-1)%R) _ Hret)
    as (_ & Hgrid & _ & final & Hrun & Hrows & Hall).
  split; [exact Hgrid|].
  exists final. split; [exact Hrun|]. split; [exact Hrows|].
  apply Forall_forall. intros r Hr.
  destruct (Hall r Hr) as (d & a & _ & Ha & Hopt).
  injection Ha as <-. exact Hopt.
Defined.

(** ** Failure handling *)

Lemma for_fold_app {A S : Type} (body : S -> A -> result S) (s : S)
    (xs ys : list A) :
  Stats.for_fold body s (xs ++ ys)
  = (s' ← Stats.for_fold body s xs; Stats.for_fold body s' ys).
Proof.
  revert s. induction xs as [|x xs IH]; intros s; simpl; [reflexivity|].
  destruct (body s x); simpl; [apply IH | reflexivity].
Qed.

Lemma log_posterior_rejects_negative (gammaln : R -> R) (alpha : R)
    (I1 I2 : list R) (negative : bool) (x : R) :
  x ∈ I1 \/ x ∈ I2 -> (x < 0)%R ->
  CalFactor.log_posterior gammaln alpha I1 I2 negative
  = Raise (ValueError "Negative values in I1 or I2").
Proof.
  intros Hin Hx. unfold CalFactor.log_posterior.
  destruct Hin as [Hin | Hin].
  - rewrite (any_negative_true I1 x) by assumption. reflexivity.
  - rewrite (any_negative_true I2 x) by assumption.
    rewrite orb_true_r. reflexivity.
Qed.

Lemma MWC_init_rejects_zero (effector_conc ka ki ep_ai n_sites : R)
    (log_transform : bool) :
  ka = 0%R \/ ki = 0%R ->
  MWC.init effector_conc ka ki ep_ai n_sites log_transform
  = Raise (ValueError "ka and/or ki cannot be zero.").
Proof.
  intros H. unfold MWC.init.
  destruct H as [-> | ->]; rewrite (float_eq_true 0 0) by reflexivity;
    rewrite ?orb_true_r; reflexivity.
Qed.

Lemma MWC_init_rejects_negative_conc (effector_conc ka ki ep_ai n_sites : R)
    (log_transform : bool) :
  ka <> 0%R -> ki <> 0%R -> (effector_conc < 0)%R ->
  MWC.init effector_conc ka ki ep_ai n_sites log_transform
  = Raise (RuntimeError "effector_conc must be positive.").
Proof.
  intros Ha Hi Hc. unfold MWC.init.
  rewrite (float_eq_false ka 0), (float_eq_false ki 0) by assumption. simpl.
  unfold MWC.check_positive. simpl.
  rewrite (float_lt_true effector_conc 0) by assumption. reflexivity.
Qed.

(** C3 as stated fails: operations of the repository do validate their
    input and raise on malformed data. *)
Lemma validation_raises_on_malformed_data :
  CalFactor.log_posterior ln 25 [120; -3]%R [100; 95]%R false
  = Raise (ValueError "Negative values in I1 or I2") /\
  MWC.init 50 0 (53 / 100) (45 / 10) 2 false
  = Raise (ValueError "ka and/or ki cannot be zero.").
Proof.
  split.
  - apply (log_posterior_rejects_negative ln 25 _ _ false (-3)%R); [|lra].
    left. set_solver.
  - apply MWC_init_rejects_zero. left. reflexivity.
Qed.

(** C3 as amended: the loop of [compile_data.py] indexes [info['status']]
    and the first glob match without a guard, so a missing key or an
    empty match raises [KeyError] or [IndexError] and aborts the loop;
    [log_posterior] does validate its intensities ([ValueError] on a
    negative one) and [MWC.__init__] rejects a zero [ka] or [ki]
    ([ValueError]) and a negative concentration ([RuntimeError]). *)
Theorem failure_handling_is_sparse (frame : Type)
    (read_csv : string -> result frame) (gammaln : R -> R) :
  (forall acc d,
     CompileData.info d !! "status" = None ->
     CompileData.compile_step frame read_csv acc d = Raise (KeyError "status")) /\
  (forall acc d status,
     CompileData.info d !! "status" = Some status ->
     CompileData.lower status = "accepted" ->
     CompileData.fluct_glob d = [] ->
     CompileData.compile_step frame read_csv acc d
     = Raise (IndexError "list index out of range")) /\
  (forall acc d status path df,
     CompileData.info d !! "status" = Some status ->
     CompileData.lower status = "accepted" ->
     CompileData.fluct_glob d !! 0%nat = Some path ->
     read_csv path = Ok df ->
     CompileData.fc_glob d = [] ->
     CompileData.compile_step frame read_csv acc d
     = Raise (IndexError "list index out of range")) /\
  (forall before d after acc e,
     Stats.for_fold (CompileData.compile_step frame read_csv) ([], []) before
     = Ok acc ->
     CompileData.compile_step frame read_csv acc d = Raise e ->
     CompileData.compile_loop frame read_csv (before ++ d :: after) = Raise e) /\
  (forall alpha I1 I2 negative x,
     x ∈ I1 \/ x ∈ I2 -> (x < 0)%R ->
     CalFactor.log_posterior gammaln alpha I1 I2 negative
     = Raise (ValueError "Negative values in I1 or I2")) /\
  (forall effector_conc ka ki ep_ai n_sites log_transform,
     ka = 0%R \/ ki = 0%R ->
     MWC.init effector_conc ka ki ep_ai n_sites log_transform
     = Raise (ValueError "ka and/or ki cannot be zero.")) /\
  (forall effector_conc ka ki ep_ai n_sites log_transform,
     ka <> 0%R -> ki <> 0%R -> (effector_conc < 0)%R ->
     MWC.init effector_conc ka ki ep_ai n_sites log_transform
     = Raise (RuntimeError "effector_conc must be positive.")).
Proof.
  repeat apply conj.
  - intros acc d H. unfold CompileData.compile_step, CompileData.dict_get.
    rewrite H. reflexivity.
  - intros acc d status Hs Hacc Hg.
    unfold CompileData.compile_step, CompileData.dict_get.
    rewrite Hs. simpl. rewrite Hacc. simpl. rewrite Hg. reflexivity.
  - intros acc d status path df Hs Hacc Hp Hr Hg.
    unfold CompileData.compile_step, CompileData.dict_get.
    rewrite Hs. simpl. rewrite Hacc. simpl.
    destruct (CompileData.fluct_glob d) as [|p ps]; [discriminate|].
    injection Hp as ->. simpl. rewrite Hr. simpl. rewrite Hg. reflexivity.
  - intros before d after acc e Hbefore Hd. unfold CompileData.compile_loop.
    rewrite for_fold_app, Hbefore. simpl. rewrite Hd. reflexivity.
  - apply log_posterior_rejects_negative.
  - apply MWC_init_rejects_zero.
  - apply MWC_init_rejects_negative_conc.
Qed.

Lemma failure_handling_is_sparse_witness :
  (∅ : gmap string string) !! "status" = None /\
  CompileData.compile_step unit (fun _ => Ok tt) ([], [])
    (CompileData.mkExp ∅ ["a_fluctuations.csv"] ["a_foldchange.csv"])
  = Raise (KeyError "status").
Proof.
  split; [reflexivity|].
  exact (proj1 (failure_handling_is_sparse unit (fun _ => Ok tt) ln) ([], [])
           (CompileData.mkExp ∅ ["a_fluctuations.csv"] ["a_foldchange.csv"])
           eq_refl).
Defined.

(** ** bin_by_events *)

(** *** The bins *)

Lemma arange_length (len b : nat) :
  (0 < b)%nat ->
  Z.to_nat (- ((- (Z.of_nat len + Z.of_nat b - 0)) / Z.of_nat b))%Z
  = S (num_groups len b).
Proof.
  intros Hb. unfold num_groups.
  pose proof (Nat.div_mod (len + b - 1) b ltac:(lia)) as Hdm.
  pose proof (Nat.mod_upper_bound (len + b - 1) b ltac:(lia)) as Hr.
  set (q := ((len + b - 1) `div` b)%nat) in *.
  set (r := ((len + b - 1) `mod` b)%nat) in *.
  assert (Hq : ((- (Z.of_nat len + Z.of_nat b - 0)) / Z.of_nat b
                = - (Z.of_nat q + 1))%Z).
  { symmetry. apply (Z.div_unique_pos _ _ _ (Z.of_nat (b - 1 - r))); lia. }
  rewrite Hq. lia.
Qed.

Lemma arange_bins (len b : nat) :
  (0 < b)%nat ->
  Np.arange 0 (Z.of_nat len + Z.of_nat b) (Z.of_nat b)
  = Ok (map (fun i => (Z.of_nat i * Z.of_nat b)%Z) (seq 0 (S (num_groups len b)))).
Proof.
  intros Hb. unfold Np.arange.
  destruct (Z.eqb_spec (Z.of_nat b) 0) as [E|_]; [lia|].
  rewrite arange_length by assumption. reflexivity.
Qed.

Lemma num_groups_bounds (len b : nat) :
  (0 < b)%nat -> (0 < len)%nat ->
  (0 < num_groups len b)%nat /\
  ((num_groups len b - 1) * b < len)%nat /\ (len <= num_groups len b * b)%nat.
Proof.
  intros Hb Hlen. unfold num_groups.
  pose proof (Nat.div_mod (len + b - 1) b ltac:(lia)) as Hdm.
  pose proof (Nat.mod_upper_bound (len + b - 1) b ltac:(lia)) as Hr.
  set (q := ((len + b - 1) `div` b)%nat) in *.
  set (r := ((len + b - 1) `mod` b)%nat) in *.
  assert (0 < q)%nat by (destruct q; [lia | lia]).
  split; [assumption|]. split; nia.
Qed.

(** *** The groups *)

Lemma group_succ {A : Type} (b : nat) (xs : list A) (i : nat) :
  group b xs (S i) = group b (drop b xs) i.
Proof.
  unfold group. rewrite drop_drop. reflexivity.
Qed.

Lemma concat_groups {A : Type} (b n : nat) (xs : list A) :
  (length xs <= n * b)%nat ->
  concat (map (group b xs) (seq 0 n)) = xs.
Proof.
  revert xs. induction n as [|n IH]; intros xs Hlen; simpl.
  - destruct xs; [reflexivity | simpl in Hlen; lia].
  - rewrite <- fmap_S_seq.
    change (map (group b xs) (S <$> seq 0 n))
      with (map (group b xs) (map S (seq 0 n))).
    rewrite map_map.
    rewrite (map_ext _ (group b (drop b xs))) by (intros; apply group_succ).
    rewrite IH by (rewrite length_drop; lia).
    unfold group. simpl. apply take_drop.
Qed.

Lemma group_length {A : Type} (b : nat) (xs : list A) (i : nat) :
  length (group b xs i) = (b `min` (length xs - i * b))%nat.
Proof. unfold group. rewrite length_take, length_drop. reflexivity. Qed.

(** *** The dictionary of zero arrays *)

Lemma foldl_insert_lookup (f : string -> string) (v : list R)
    (ks : list string) (m : gmap string (list R)) (key : string) :
  foldl (fun m k => <[f k := v]> m) m ks !! key
  = if bool_decide (key ∈ map f ks) then Some v else m !! key.
Proof.
  revert m. induction ks as [|k ks IH]; intros m; simpl; [reflexivity|].
  rewrite IH. destruct (decide (key ∈ map f ks)) as [Hin|Hnin].
  - rewrite !bool_decide_eq_true_2; [reflexivity | | assumption].
    right. assumption.
  - rewrite (bool_decide_eq_false_2 _ Hnin).
    destruct (decide (f k = key)) as [<-|Hne].
    + rewrite lookup_insert_eq, bool_decide_eq_true_2; [reflexivity | left].
    + rewrite lookup_insert_ne by assumption.
      rewrite bool_decide_eq_false_2; [reflexivity|].
      intros [->|Hin]%elem_of_cons; contradiction.
Qed.

Lemma init_averages_lookup (average : list string) (nbins : nat) (k : string) :
  k ∈ average ->
  Stats.init_averages average nbins !! k = Some (Np.zeros nbins) /\
  Stats.init_averages average nbins !! Stats.sem_key k = Some (Np.zeros nbins).
Proof.
  intros Hk. unfold Stats.init_averages.
  rewrite !(foldl_insert_lookup Stats.sem_key).
  rewrite !(foldl_insert_lookup (fun k => k)). rewrite map_id.
  split.
  - destruct (bool_decide _); [reflexivity|].
    rewrite bool_decide_eq_true_2 by assumption. reflexivity.
  - rewrite bool_decide_eq_true_2; [reflexivity|].
    apply list_elem_of_In, in_map, list_elem_of_In. assumption.
Qed.

(** *** The keys of the dictionary *)

Lemma string_length_append (s t : string) :
  String.length (s +:+ t) = (String.length s + String.length t)%nat.
Proof. induction s as [|a s IH]; simpl; [reflexivity | rewrite IH; reflexivity]. Qed.

Lemma sem_key_inj (k1 k2 : string) : Stats.sem_key k1 = Stats.sem_key k2 -> k1 = k2.
Proof.
  unfold Stats.sem_key. revert k2.
  induction k1 as [|a k1 IH]; intros [|b k2] H; simpl in H.
  - reflexivity.
  - apply (f_equal String.length) in H. simpl in H.
    rewrite string_length_append in H. simpl in H. lia.
  - apply (f_equal String.length) in H. simpl in H.
    rewrite string_length_append in H. simpl in H. lia.
  - injection H as -> H. f_equal. apply IH. exact H.
Qed.

(** *** The inner loop *)

Section InnerLoop.
Variable average : list string.
Hypothesis no_collision :
  forall k k', k ∈ average -> k' ∈ average -> k' <> Stats.sem_key k.

Variable d : Stats.DataFrame.
Hypothesis d_columns : Stats.columns d = average.
Variable i : nat.

#[local] Abbreviation ready := (writable average i).

Lemma bin_column_ok (m : gmap string (list R)) (k : string) (arr_k arr_s : list R) :
  k ∈ average ->
  m !! k = Some arr_k -> (i - 1 < length arr_k)%nat ->
  m !! Stats.sem_key k = Some arr_s -> (i - 1 < length arr_s)%nat ->
  Stats.bin_column d i m k
  = Ok (<[k := <[(i - 1)%nat := Np.mean (col k (Stats.rows d))]> arr_k]>
         (<[Stats.sem_key k := <[(i - 1)%nat := sem (col k (Stats.rows d))]> arr_s]> m)).
Proof.
  intros Hk Hmk Hlk Hms Hls. unfold Stats.bin_column, Stats.values.
  rewrite d_columns, bool_decide_eq_true_2 by assumption. simpl.
  unfold Stats.setitem at 2. rewrite Hms.
  rewrite bool_decide_eq_true_2 by assumption. simpl.
  unfold Stats.setitem.
  rewrite lookup_insert_ne
    by (intros E; apply (no_collision k k Hk Hk); symmetry; exact E).
  rewrite Hmk, bool_decide_eq_true_2 by assumption.
  unfold sem, col, Stats.len. rewrite length_map. reflexivity.
Qed.

Lemma inner_loop (ks : list string) (m : gmap string (list R)) :
  (forall k, k ∈ ks -> k ∈ average) -> ready m ->
  exists m',
    Stats.for_fold (Stats.bin_column d i) m ks = Ok m' /\
    ready m' /\
    (forall k, k ∈ ks ->
       m' !! k = <[(i - 1)%nat := Np.mean (col k (Stats.rows d))]> <$> (m !! k)) /\
    (forall k, k ∈ ks ->
       m' !! Stats.sem_key k
       = <[(i - 1)%nat := sem (col k (Stats.rows d))]> <$> (m !! Stats.sem_key k)) /\
    (forall key, key ∉ ks -> key ∉ map Stats.sem_key ks -> m' !! key = m !! key).
Proof.
  revert m. induction ks as [|k0 ks IH]; intros m Hks Hready.
  - exists m. simpl. split; [reflexivity|]. split; [assumption|].
    split; [|split]; try (intros k Hk; apply elem_of_nil in Hk; contradiction).
    reflexivity.
  - assert (Hk0 : k0 ∈ average) by (apply Hks; left).
    destruct (Hready k0 Hk0) as [(arr_k & Hmk & Hlk) (arr_s & Hms & Hls)].
    simpl. rewrite (bin_column_ok m k0 arr_k arr_s) by assumption. simpl.
    set (m1 := <[k0 := _]> (<[Stats.sem_key k0 := _]> m)).
    assert (Hm1_avg : forall k, k ∈ average ->
      m1 !! k = if decide (k = k0)
                then Some (<[(i - 1)%nat := Np.mean (col k0 (Stats.rows d))]> arr_k)
                else m !! k).
    { intros k Hk. unfold m1. destruct (decide (k = k0)) as [->|Hne].
      - apply lookup_insert_eq.
      - rewrite lookup_insert_ne by congruence.
        apply lookup_insert_ne. intros E.
        apply (no_collision k0 k Hk0 Hk). symmetry. exact E. }
    assert (Hm1_sem : forall k, k ∈ average ->
      m1 !! Stats.sem_key k
      = if decide (k = k0)
        then Some (<[(i - 1)%nat := sem (col k0 (Stats.rows d))]> arr_s)
        else m !! Stats.sem_key k).
    { intros k Hk. unfold m1.
      rewrite lookup_insert_ne by (intros E; apply (no_collision k k0 Hk Hk0 E)).
      destruct (decide (k = k0)) as [->|Hne].
      - apply lookup_insert_eq.
      - apply lookup_insert_ne. intros E. apply sem_key_inj in E. congruence. }
    assert (Hready1 : ready m1).
    { intros k Hk. rewrite Hm1_avg, Hm1_sem by assumption.
      destruct (decide (k = k0)) as [->|Hne]; [|apply Hready; assumption].
      split; eexists; (split; [reflexivity|]); rewrite length_insert; assumption. }
    destruct (IH m1) as (m' & Hrun & Hready' & Havg & Hsem & Hother);
      [intros k Hk; apply Hks; right; exact Hk | exact Hready1 |].
    exists m'. split; [exact Hrun|]. split; [exact Hready'|].
    split; [|split].
    + intros k Hk.
      assert (Hka : k ∈ average) by (apply Hks; exact Hk).
      destruct (decide (k ∈ ks)) as [Hin|Hnin].
      * rewrite Havg, Hm1_avg by assumption.
        destruct (decide (k = k0)) as [->|Hne]; [|reflexivity].
        rewrite Hmk. simpl. rewrite list_insert_insert_eq. reflexivity.
      * apply elem_of_cons in Hk as [->|Hk]; [|contradiction].
        rewrite Hother, Hm1_avg; [| assumption | assumption |].
        -- rewrite decide_True by reflexivity. rewrite Hmk. reflexivity.
        -- intros Hin. apply list_elem_of_In, in_map_iff in Hin as (k' & E & Hk').
           apply (no_collision k' k0);
             [apply Hks; right; apply list_elem_of_In; exact Hk' | exact Hk0
             | symmetry; exact E].
    + intros k Hk.
      assert (Hka : k ∈ average) by (apply Hks; exact Hk).
      destruct (decide (k ∈ ks)) as [Hin|Hnin].
      * rewrite Hsem, Hm1_sem by assumption.
        destruct (decide (k = k0)) as [->|Hne]; [|reflexivity].
        rewrite Hms. simpl. rewrite list_insert_insert_eq. reflexivity.
      * apply elem_of_cons in Hk as [->|Hk]; [|contradiction].
        rewrite Hother, Hm1_sem; [| assumption | |].
        -- rewrite decide_True by reflexivity. rewrite Hms. reflexivity.
        -- intros Hin.
           apply (no_collision k0 (Stats.sem_key k0) Hk0);
             [apply Hks; right; exact Hin | reflexivity].
        -- intros Hin. apply list_elem_of_In, in_map_iff in Hin as (k' & E & Hk').
           apply sem_key_inj in E. subst k'. apply Hnin, list_elem_of_In, Hk'.
    + intros key Hn1 Hn2. rewrite Hother.
      * unfold m1. rewrite !lookup_insert_ne; [reflexivity | |].
        -- intros E. apply Hn2. simpl. rewrite E. left.
        -- intros E. apply Hn1. rewrite E. left.
      * intros Hin. apply Hn1. right. exact Hin.
      * intros Hin. apply Hn2. simpl. right. exact Hin.
Qed.

End InnerLoop.

(** *** The outer loop *)

Lemma check_labels_ok (cols labels : list string) :
  (forall k, k ∈ labels -> k ∈ cols) -> Stats.check_labels cols labels = Ok tt.
Proof.
  intros H. unfold Stats.check_labels.
  assert (Hnone : Stats.missing_labels cols labels = []).
  { unfold Stats.missing_labels. induction labels as [|k ks IH]; [reflexivity|].
    simpl. rewrite bool_decide_eq_true_2 by (apply H; left). simpl.
    apply IH. intros k' Hk'. apply H. right. exact Hk'. }
  rewrite Hnone. reflexivity.
Qed.

Lemma insert_next_zero (xs : list R) (len j : nat) (v : R) :
  length xs = j -> (j < len)%nat ->
  <[j := v]> (xs ++ Np.zeros (len - j)) = (xs ++ [v]) ++ Np.zeros (len - S j).
Proof.
  intros <- Hlt.
  replace (len - length xs)%nat with (S (len - S (length xs))) by lia.
  unfold Np.zeros. simpl.
  rewrite <- (Nat.add_0_r (length xs)) at 1.
  rewrite insert_app_r, <- app_assoc. reflexivity.
Qed.

Section OuterLoop.
Variable average : list string.
Hypothesis no_collision :
  forall k k', k ∈ average -> k' ∈ average -> k' <> Stats.sem_key k.

Variable sorted_df : Stats.DataFrame.
Hypothesis average_columns : forall k, k ∈ average -> k ∈ Stats.columns sorted_df.

Variable b : nat.
Hypothesis b_pos : (0 < b)%nat.
Variable G : nat.

#[local] Abbreviation bins :=
  (map (fun i => (Z.of_nat i * Z.of_nat b)%Z) (seq 0 (S G))).
#[local] Abbreviation done := (filled average b (S G) (Stats.rows sorted_df)).

Lemma getitem_bins (j : nat) :
  (j <= G)%nat -> Stats.getitem bins j = Ok (Z.of_nat j * Z.of_nat b)%Z.
Proof.
  intros Hj. unfold Stats.getitem.
  change (map ?f ?l) with (f <$> l).
  rewrite list_lookup_fmap, lookup_seq_lt by lia. reflexivity.
Qed.

Lemma bin_step_ok (j : nat) (m : gmap string (list R)) :
  (j < G)%nat -> done j m ->
  exists m', Stats.bin_step sorted_df bins average m (S j) = Ok m' /\ done (S j) m'.
Proof.
  intros Hj Hdone. unfold Stats.bin_step.
  replace (S j - 1)%nat with j by lia.
  rewrite !getitem_bins by lia. simpl.
  unfold Stats.select. rewrite check_labels_ok by exact average_columns. simpl.
  set (d := Stats.mkDF average _).
  assert (Hrows : Stats.rows d = group b (Stats.rows sorted_df) j).
  { unfold d, group. simpl. f_equal; [nia | f_equal; nia]. }
  destruct (inner_loop average no_collision d eq_refl (S j) average m)
    as (m' & Hrun & _ & Havg & Hsem & _).
  { auto. }
  { intros k Hk. destruct (Hdone k Hk) as [H1 H2]. rewrite H1, H2.
    unfold Np.zeros.
    split; eexists; (split; [reflexivity|]);
      rewrite length_app, length_map, length_seq, length_replicate; lia. }
  exists m'. split; [exact Hrun|].
  intros k Hk. destruct (Hdone k Hk) as [H1 H2].
  rewrite Havg, Hsem, H1, H2, Hrows by assumption.
  replace (S j - 1)%nat with j by lia.
  rewrite seq_S, !map_app.
  split;
    (etrans;
     [| apply f_equal, insert_next_zero;
        [rewrite length_map, length_seq; reflexivity | lia]]);
    reflexivity.
Qed.

Lemma outer_loop (n j : nat) (m : gmap string (list R)) :
  (j + n = G)%nat -> done j m ->
  exists m',
    Stats.for_fold (Stats.bin_step sorted_df bins average) m (seq (S j) n) = Ok m'
    /\ done G m'.
Proof.
  revert j m. induction n as [|n IH]; intros j m Hjn Hdone.
  - exists m. split; [reflexivity|].
    assert (E : j = G) by lia. subst j. exact Hdone.
  - destruct (bin_step_ok j m ltac:(lia) Hdone) as (m1 & Hstep & Hdone1).
    change (seq (S j) (S n)) with (S j :: seq (S (S j)) n).
    cbn [Stats.for_fold]. rewrite Hstep.
    apply (IH (S j) m1); [lia | exact Hdone1].
Qed.

End OuterLoop.

(** *** The whole function *)

#[local] Instance row_le_total (by_ : string) : Total (Stats.row_le by_).
Proof. intros r1 r2. unfold Stats.row_le. destruct (Rle_dec (r1 by_) (r2 by_)); [left | right]; lra. Qed.

Lemma sort_values_ok (df : Stats.DataFrame) (sortby : string) :
  sortby ∈ Stats.columns df ->
  exists sorted_df,
    Stats.sort_values df sortby = Ok sorted_df /\
    Stats.columns sorted_df = Stats.columns df /\
    Sorted (Stats.row_le sortby) (Stats.rows sorted_df) /\
    Stats.rows sorted_df ≡ₚ Stats.rows df.
Proof.
  intros Hin. unfold Stats.sort_values.
  rewrite bool_decide_eq_true_2 by assumption.
  eexists. split; [reflexivity|]. simpl. split; [reflexivity|].
  split; [apply Sorted_merge_sort; apply _ | apply merge_sort_Permutation].
Qed.

Lemma group_sizes {A : Type} (b : nat) (xs : list A) (g : nat) :
  (0 < b)%nat -> (0 < length xs)%nat -> (g < num_groups (length xs) b)%nat ->
  (0 < length (group b xs g) <= b)%nat /\
  (g < num_groups (length xs) b - 1 -> length (group b xs g) = b)%nat.
Proof.
  intros Hb Hlen Hg. rewrite group_length.
  destruct (num_groups_bounds (length xs) b Hb Hlen) as (HG & Hlo & Hhi).
  split; [nia|]. intros Hg'. nia.
Qed.

(** C7 as amended: for a dataframe with at least one row, a positive
    [bin_size], a [sortby] column and [average] columns of the dataframe
    such that no name [k_sem] with [k] in [average] is itself in [average],
    [bin_by_events] sorts the rows ascending by [sortby], cuts them into
    consecutive groups of [bin_size] rows (the last one may be shorter),
    and returns a dictionary that holds under every [k] of [average] the
    group means and under [k_sem] the group standard errors, each followed
    by one entry left at zero, so that every array is as long as
    [np.arange(0, len(df) + bin_size, bin_size)]. *)
Theorem bin_by_events_means_and_errors (df : Stats.DataFrame) (bin_size : Z)
    (sortby : string) (average : list string) :
  (0 < Stats.len df)%nat -> (0 < bin_size)%Z ->
  sortby ∈ Stats.columns df ->
  (forall k, k ∈ average -> k ∈ Stats.columns df) ->
  (forall k k', k ∈ average -> k' ∈ average -> k' <> Stats.sem_key k) ->
  exists (sorted_df : Stats.DataFrame) (bins : list Z)
         (res : gmap string (list R)),
    Stats.sort_values df sortby = Ok sorted_df /\
    Sorted (Stats.row_le sortby) (Stats.rows sorted_df) /\
    Stats.rows sorted_df ≡ₚ Stats.rows df /\
    concat (map (group (Z.to_nat bin_size) (Stats.rows sorted_df))
                (seq 0 (num_groups (Stats.len df) (Z.to_nat bin_size))))
    = Stats.rows sorted_df /\
    (forall g, (g < num_groups (Stats.len df) (Z.to_nat bin_size))%nat ->
       (0 < length (group (Z.to_nat bin_size) (Stats.rows sorted_df) g)
        <= Z.to_nat bin_size)%nat /\
       ((g < num_groups (Stats.len df) (Z.to_nat bin_size) - 1)%nat ->
        length (group (Z.to_nat bin_size) (Stats.rows sorted_df) g)
        = Z.to_nat bin_size)) /\
    Np.arange 0 (Z.of_nat (Stats.len df) + bin_size) bin_size = Ok bins /\
    length bins = S (num_groups (Stats.len df) (Z.to_nat bin_size)) /\
    Stats.bin_by_events df bin_size sortby average = Ok res /\
    forall k, k ∈ average ->
      res !! k
      = Some (map (fun g => Np.mean (col k (group (Z.to_nat bin_size)
                                              (Stats.rows sorted_df) g)))
                  (seq 0 (num_groups (Stats.len df) (Z.to_nat bin_size)))
              ++ [0%R]) /\
      res !! Stats.sem_key k
      = Some (map (fun g => sem (col k (group (Z.to_nat bin_size)
                                          (Stats.rows sorted_df) g)))
                  (seq 0 (num_groups (Stats.len df) (Z.to_nat bin_size)))
              ++ [0%R]).
Proof.
  intros Hlen Hbin Hsortby Havg Hcoll.
  destruct (sort_values_ok df sortby Hsortby) as (sorted_df & Hsort & Hcols & Hsorted & Hperm).
  set (b := Z.to_nat bin_size).
  assert (Hb : (0 < b)%nat) by (unfold b; lia).
  assert (Hbz : bin_size = Z.of_nat b) by (unfold b; lia).
  clearbody b. subst bin_size.
  assert (Hlen' : length (Stats.rows sorted_df) = Stats.len df).
  { unfold Stats.len. apply Permutation_length. exact Hperm. }
  set (G := num_groups (Stats.len df) b).
  pose proof (arange_bins (Stats.len df) b Hb) as Hbins. fold G in Hbins.
  destruct (num_groups_bounds (Stats.len df) b Hb Hlen) as (HG & Hlo & Hhi).
  fold G in HG, Hlo, Hhi.
  destruct (outer_loop average Hcoll sorted_df
              ltac:(intros k Hk; rewrite Hcols; auto) b Hb G G 0
              (Stats.init_averages average (S G)) eq_refl)
    as (res & Hrun & Hres).
  { intros k Hk. apply (init_averages_lookup average (S G) k Hk). }
  exists sorted_df, (map (fun i => (Z.of_nat i * Z.of_nat b)%Z) (seq 0 (S G))), res.
  split; [exact Hsort|]. split; [exact Hsorted|]. split; [exact Hperm|].
  split; [apply concat_groups; lia|].
  split.
  { intros g Hg. unfold G in Hg |- *. rewrite <- Hlen' in Hg |- *.
    apply group_sizes; [exact Hb | lia | exact Hg]. }
  split; [exact Hbins|].
  split; [rewrite length_map, length_seq; reflexivity|].
  split.
  - unfold Stats.bin_by_events. rewrite Hsort.
    cbn [mbind result_bind]. unfold Stats.len at 1. rewrite Hlen', Hbins.
    cbn [mbind result_bind]. rewrite length_map, length_seq.
    replace (S G - 1)%nat with G by lia. exact Hrun.
  - intros k Hk. destruct (Hres k Hk) as [H1 H2].
    replace (S G - G)%nat with 1%nat in H1, H2 by lia.
    split; assumption.
Qed.

Lemma mean_singleton (x : R) : Np.mean [x] = x.
Proof. unfold Np.mean, Np.sum. simpl. lra. Qed.

Lemma sem_singleton (x : R) : sem [x] = 0%R.
Proof.
  unfold sem, Np.std. rewrite mean_singleton. simpl map.
  rewrite mean_singleton. unfold Rminus. rewrite Rplus_opp_r, Rsqr_0, sqrt_0.
  unfold Rdiv. apply Rmult_0_l.
Qed.

(** C7 as stated fails when [average] holds both [k] and [k_sem]: the
    array under [a_sem] then holds the mean of the column [a_sem], here 5,
    and not the standard error of the column [a], here 0. *)
Lemma bin_by_events_key_collision :
  exists res,
    Stats.bin_by_events collision_df 1 "a" ["a"; "a_sem"] = Ok res /\
    res !! Stats.sem_key "a" = Some [5; 0]%R /\
    res !! Stats.sem_key "a"
    <> Some (map (fun g => sem (col "a" (group 1 (Stats.rows collision_df) g)))
                 (seq 0 1) ++ [0%R]).
Proof.
  assert (Hrun : exists res,
    Stats.bin_by_events collision_df 1 "a" ["a"; "a_sem"] = Ok res /\
    res !! Stats.sem_key "a" = Some [Np.mean [5]; 0]%R).
  { unfold Stats.bin_by_events, Stats.sort_values.
    rewrite bool_decide_eq_true_2 by (unfold collision_df; simpl; set_solver).
    cbn [mbind result_bind].
    change (merge_sort (Stats.row_le "a") (Stats.rows collision_df))
      with [collision_row].
    unfold Stats.len. cbn [Stats.rows length].
    change (Np.arange 0 (Z.of_nat 1 + 1) 1) with (Ok (A:=list Z) [0; 1]%Z).
    cbn [mbind result_bind length Nat.sub seq Stats.for_fold].
    unfold Stats.bin_step.
    cbn [Stats.getitem lookup list_lookup Nat.sub mbind result_bind].
    unfold Stats.select.
    rewrite check_labels_ok by (unfold collision_df; simpl; set_solver).
    cbn [mbind result_bind Stats.columns Stats.for_fold].
    unfold Stats.bin_column, Stats.values.
    cbn [Stats.columns Stats.rows Stats.iloc Stats.len].
    rewrite !bool_decide_eq_true_2 by set_solver.
    cbn [mbind result_bind].
    change (take (Z.to_nat 1 - Z.to_nat 0) (drop (Z.to_nat 0) [collision_row]))
      with [collision_row].
    cbn [map length Nat.sub].
    change (collision_row "a") with 1%R. change (collision_row "a_sem") with 5%R.
    unfold Stats.init_averages. cbn [foldl].
    change (Stats.sem_key "a") with "a_sem".
    change (Stats.sem_key "a_sem") with "a_sem_sem".
    unfold Stats.setitem.
    repeat (rewrite ?lookup_insert_eq, ?lookup_insert_ne by done;
            cbn [mbind result_bind length Np.zeros replicate];
            rewrite ?length_insert;
            rewrite ?bool_decide_eq_true_2 by (simpl; lia)).
    eexists. split; [reflexivity|].
    rewrite lookup_insert_eq. reflexivity. }
  destruct Hrun as (res & Hres & Hkey). rewrite mean_singleton in Hkey.
  exists res. split; [exact Hres|]. split; [exact Hkey|].
  rewrite Hkey. unfold group, col. simpl. rewrite sem_singleton.
  intros [= H]. lra.
Qed.

Lemma events_without_collision (k k' : string) :
  k ∈ ["summed"; "fluct"] -> k' ∈ ["summed"; "fluct"] -> k' <> Stats.sem_key k.
Proof.
  intros Hk Hk'.
  apply elem_of_cons in Hk as [->|Hk]; [|apply list_elem_of_singleton in Hk as ->];
    (apply elem_of_cons in Hk' as [->|Hk'];
       [|apply list_elem_of_singleton in Hk' as ->]);
    discriminate.
Defined.

Lemma bin_by_events_means_and_errors_witness :
  (0 < Stats.len events_df)%nat /\ (0 < 2)%Z /\
  exists res, Stats.bin_by_events events_df 2 "summed" ["summed"; "fluct"] = Ok res.
Proof.
  assert (Hlen : (0 < Stats.len events_df)%nat) by (unfold Stats.len; simpl; lia).
  assert (Hbin : (0 < 2)%Z) by lia.
  assert (Hsort : "summed" ∈ Stats.columns events_df) by (simpl; left).
  assert (Havg : forall k, k ∈ ["summed"; "fluct"] -> k ∈ Stats.columns events_df)
    by (intros k Hk; exact Hk).
  split; [exact Hlen|]. split; [exact Hbin|].
  destruct (bin_by_events_means_and_errors events_df 2 "summed" ["summed"; "fluct"]
              Hlen Hbin Hsort Havg events_without_collision)
    as (sorted_df & bins & res & _ & _ & _ & _ & _ & _ & _ & Hres & _).
  exists res. exact Hres.
Defined.

(** * Further properties of the code *)

(** ** The constructors of [model.py] *)

Lemma check_positive_ok (k : string) (v : R) :
  (0 <= v)%R -> MWC.check_positive (k, v) = Ok tt.
Proof. intros H. unfold MWC.check_positive. simpl. rewrite float_lt_false by assumption. reflexivity. Qed.

Lemma check_positive_raise (k : string) (v : R) :
  (v < 0)%R -> MWC.check_positive (k, v) = Raise (RuntimeError (k +:+ " must be positive.")).
Proof. intros H. unfold MWC.check_positive. simpl. rewrite float_lt_true by assumption. reflexivity. Qed.

Lemma check_positive_inv (k : string) (v : R) :
  MWC.check_positive (k, v) = Ok tt -> (0 <= v)%R.
Proof.
  unfold MWC.check_positive. simpl. unfold float_lt.
  destruct (Rlt_dec v 0); [discriminate | intros _; lra].
Qed.

(** [MWC.__init__] succeeds exactly when [ka] and [ki] are non-zero as
    given and the concentration, the stored constants and the number of
    sites are not negative; the instance it leaves has positive [ka] and
    [ki], whether or not they were given as logarithms. *)
Theorem MWC_init_success_and_invariant
    (effector_conc ka ki ep_ai n_sites : R) (log_transform : bool) :
  (forall m,
     MWC.init effector_conc ka ki ep_ai n_sites log_transform = Ok m <->
     (ka <> 0 /\ ki <> 0 /\ 0 <= effector_conc /\ 0 <= n_sites /\
      (log_transform = false -> 0 < ka /\ 0 < ki))%R /\
     m = MWC.mk effector_conc ep_ai n_sites
           (if log_transform then exp ka else ka)
           (if log_transform then exp ki else ki)) /\
  (forall m,
     MWC.init effector_conc ka ki ep_ai n_sites log_transform = Ok m ->
     (0 <= MWC.c m /\ 0 < MWC.ka m /\ 0 < MWC.ki m /\ 0 <= MWC.n m)%R).
Proof.
  assert (Hiff : forall m,
     MWC.init effector_conc ka ki ep_ai n_sites log_transform = Ok m <->
     (ka <> 0 /\ ki <> 0 /\ 0 <= effector_conc /\ 0 <= n_sites /\
      (log_transform = false -> 0 < ka /\ 0 < ki))%R /\
     m = MWC.mk effector_conc ep_ai n_sites
           (if log_transform then exp ka else ka)
           (if log_transform then exp ki else ki)).
  { intros m. unfold MWC.init. split.
    - destruct (Req_dec_T ka 0) as [Ea|Na];
        [rewrite (float_eq_true ka 0 Ea); discriminate|].
      destruct (Req_dec_T ki 0) as [Ei|Ni];
        [rewrite (float_eq_true ki 0 Ei), orb_true_r; discriminate|].
      rewrite (float_eq_false ka 0 Na), (float_eq_false ki 0 Ni). simpl.
      destruct (MWC.check_positive ("effector_conc", effector_conc)) as [[]|] eqn:E1;
        simpl; [|discriminate].
      destruct (MWC.check_positive ("ka", _)) as [[]|] eqn:E2; simpl; [|discriminate].
      destruct (MWC.check_positive ("ki", _)) as [[]|] eqn:E3; simpl; [|discriminate].
      destruct (MWC.check_positive ("n_sites", n_sites)) as [[]|] eqn:E4;
        simpl; [|discriminate].
      intros [= <-].
      apply check_positive_inv in E1, E2, E3, E4.
      split; [|reflexivity].
      split; [exact Na|]. split; [exact Ni|]. split; [exact E1|].
      split; [exact E4|].
      intros ->. simpl in E2, E3.
      split; [destruct E2 as [E2|E2]; [exact E2 | congruence]
             | destruct E3 as [E3|E3]; [exact E3 | congruence]].
    - intros [(Na & Ni & Hc & Hn & Hlog) ->].
      rewrite (float_eq_false ka 0 Na), (float_eq_false ki 0 Ni). simpl.
      rewrite !check_positive_ok; try assumption; try reflexivity.
      + destruct log_transform; [left; apply exp_pos | left; apply Hlog; reflexivity].
      + destruct log_transform; [left; apply exp_pos | left; apply Hlog; reflexivity]. }
  split; [exact Hiff|].
  intros m Hm. apply Hiff in Hm as [(Na & Ni & Hc & Hn & Hlog) ->]. simpl.
  repeat split; try assumption;
    destruct log_transform; try apply exp_pos; apply Hlog; reflexivity.
Qed.

Lemma MWC_init_success_and_invariant_witness :
  MWC.init 50 139 (53 / 100) (45 / 10) 2 false
  = Ok (MWC.mk 50 (45 / 10) 2 139 (53 / 100)) /\
  (0 < MWC.ka (MWC.mk 50 (45 / 10) 2 139 (53 / 100)))%R.
Proof.
  assert (H : MWC.init 50 139 (53 / 100) (45 / 10) 2 false
              = Ok (MWC.mk 50 (45 / 10) 2 139 (53 / 100))).
  { unfold MWC.init, MWC.check_positive. simpl. float_decide. simpl.
    float_decide. reflexivity. }
  split; [exact H|].
  exact (proj1 (proj2 (proj2 (MWC_init_success_and_invariant 50 139 (53 / 100)
                                (45 / 10) 2 false) _ H))).
Defined.

Lemma MWC_init_positive (effector_conc ka ki ep_ai n_sites : R)
    (log_transform : bool) (m : MWC.t) :
  MWC.init effector_conc ka ki ep_ai n_sites log_transform = Ok m ->
  (0 <= MWC.c m /\ 0 < MWC.ka m /\ 0 < MWC.ki m /\ 0 <= MWC.n m)%R.
Proof.
  intros Hm. unfold MWC.init in Hm.
  destruct (float_eq ka 0 || float_eq ki 0) eqn:Ez; [discriminate|].
  apply orb_false_iff in Ez as [Ea Ei].
  assert (Na : ka <> 0%R) by (intros ->; rewrite float_eq_true in Ea by reflexivity; discriminate).
  assert (Ni : ki <> 0%R) by (intros ->; rewrite float_eq_true in Ei by reflexivity; discriminate).
  simpl in Hm.
  destruct (MWC.check_positive ("effector_conc", effector_conc)) as [[]|] eqn:E1;
    simpl in Hm; [|discriminate].
  destruct (MWC.check_positive ("ka", _)) as [[]|] eqn:E2; simpl in Hm; [|discriminate].
  destruct (MWC.check_positive ("ki", _)) as [[]|] eqn:E3; simpl in Hm; [|discriminate].
  destruct (MWC.check_positive ("n_sites", n_sites)) as [[]|] eqn:E4;
    simpl in Hm; [|discriminate].
  injection Hm as <-. simpl.
  apply check_positive_inv in E1, E2, E3, E4.
  repeat split; try assumption; destruct log_transform; try apply exp_pos; lra.
Qed.

(** ** The activity of a constructed repressor *)

Lemma with_c_self (m : MWC.t) : with_c m (MWC.c m) = m.
Proof. destruct m. reflexivity. Qed.

Lemma activity_antitone (m : MWC.t) (r1 r2 : R) :
  (0 <= MWC.n m)%R -> (0 < r1 <= r2)%R ->
  (activity_of_ratio m r2 <= activity_of_ratio m r1)%R.
Proof.
  intros Hn Hr. unfold activity_of_ratio.
  pose proof (g_denominator_pos m r1) as H1.
  pose proof (g_denominator_pos m r2) as H2.
  apply Rinv_le_contravar; [exact H1|].
  pose proof (Rle_Rpower_l r1 r2 (MWC.n m) Hn Hr) as Hp.
  pose proof (exp_pos (- MWC.ep_ai m)) as HE.
  nra.
Qed.

Lemma activity_at_one (m : MWC.t) : activity_of_ratio m 1 = MWC.leakiness m.
Proof.
  unfold activity_of_ratio, MWC.leakiness.
  pose proof (exp_pos (- MWC.ep_ai m)) as HE.
  rewrite float_pow_inv by lra.
  unfold Rpower. rewrite ln_1, Rmult_0_r, exp_0, Rmult_1_r. reflexivity.
Qed.

Lemma activity_in_unit_interval (m : MWC.t) (r : R) :
  (0 < activity_of_ratio m r < 1)%R.
Proof.
  unfold activity_of_ratio.
  pose proof (exp_pos (- MWC.ep_ai m)) as HE.
  assert (HP : (0 < Rpower r (MWC.n m))%R) by apply exp_pos.
  assert (HD : (1 < 1 + exp (- MWC.ep_ai m) * Rpower r (MWC.n m))%R) by nra.
  split; [apply Rinv_0_lt_compat; lra|].
  rewrite <- Rinv_1. apply Rinv_lt_contravar; lra.
Qed.

(** On every instance [MWC.__init__] leaves, the probability of the
    active state, its zero-effector value and its saturating value all lie
    strictly between 0 and 1. *)
Theorem pact_is_a_probability
    (effector_conc ka ki ep_ai n_sites : R) (log_transform : bool) (m : MWC.t) :
  MWC.init effector_conc ka ki ep_ai n_sites log_transform = Ok m ->
  (0 < MWC.pact m < 1)%R /\ (0 < MWC.leakiness m < 1)%R /\
  (0 < MWC.saturation m < 1)%R.
Proof.
  intros Hm. destruct (MWC_init_positive _ _ _ _ _ _ _ Hm) as (Hc & Hka & Hki & Hn).
  split; [|split].
  - rewrite <- (with_c_self m) at 1 2.
    rewrite (pact_as_ratio m Hka Hki) by assumption.
    apply activity_in_unit_interval.
  - rewrite <- activity_at_one. apply activity_in_unit_interval.
  - rewrite saturation_as_ratio. apply activity_in_unit_interval.
Qed.

Lemma MWC_init_example :
  MWC.init 50 139 (53 / 100) (45 / 10) 2 false
  = Ok (MWC.mk 50 (45 / 10) 2 139 (53 / 100)).
Proof.
  unfold MWC.init, MWC.check_positive. simpl. float_decide. simpl.
  float_decide. reflexivity.
Defined.

Lemma pact_is_a_probability_witness :
  MWC.init 50 139 (53 / 100) (45 / 10) 2 false
  = Ok (MWC.mk 50 (45 / 10) 2 139 (53 / 100)) /\
  (0 < MWC.pact (MWC.mk 50 (45 / 10) 2 139 (53 / 100)) < 1)%R.
Proof.
  split; [exact MWC_init_example|].
  exact (proj1 (pact_is_a_probability _ _ _ _ _ _ _ MWC_init_example)).
Defined.

Lemma binding_ratio_bounds (m : MWC.t) :
  (0 < MWC.ka m)%R -> (0 < MWC.ki m)%R -> (0 <= MWC.c m)%R ->
  (MWC.ki m <= MWC.ka m ->
     1 <= binding_ratio m (MWC.c m) <= MWC.ka m / MWC.ki m)%R /\
  (MWC.ka m <= MWC.ki m ->
     MWC.ka m / MWC.ki m <= binding_ratio m (MWC.c m) <= 1)%R.
Proof.
  intros Hka Hki Hc.
  pose proof (ratio_minus_limit m Hka Hki (MWC.c m) Hc) as Hlim.
  assert (Hone : (binding_ratio m (MWC.c m) - 1
                  = MWC.c m * (MWC.ka m - MWC.ki m)
                    / (MWC.ki m * (MWC.ka m + MWC.c m)))%R).
  { unfold binding_ratio. field. repeat split; lra. }
  assert (Hden1 : (0 < / (MWC.ki m * (MWC.ka m + MWC.c m)))%R)
    by (apply Rinv_0_lt_compat; nra).
  assert (Hden2 : (0 < / (MWC.ka m + MWC.c m))%R)
    by (apply Rinv_0_lt_compat; lra).
  assert (Hq : (0 < MWC.ka m / MWC.ki m)%R)
    by (apply Rmult_lt_0_compat; [|apply Rinv_0_lt_compat]; assumption).
  split; intros Hle.
  - split.
    + assert (0 <= binding_ratio m (MWC.c m) - 1)%R; [|lra].
      rewrite Hone. apply Rmult_le_pos; [|lra]. apply Rmult_le_pos; lra.
    + assert (binding_ratio m (MWC.c m) - MWC.ka m / MWC.ki m <= 0)%R; [|lra].
      rewrite Hlim. unfold Rdiv at 1.
      assert (MWC.ka m / MWC.ki m * (MWC.ki m - MWC.ka m) <= 0)%R by nra.
      nra.
  - split.
    + assert (0 <= binding_ratio m (MWC.c m) - MWC.ka m / MWC.ki m)%R; [|lra].
      rewrite Hlim. unfold Rdiv at 1.
      apply Rmult_le_pos; [|lra]. apply Rmult_le_pos; lra.
    + assert (binding_ratio m (MWC.c m) - 1 <= 0)%R; [|lra].
      rewrite Hone. unfold Rdiv.
      assert (MWC.c m * (MWC.ka m - MWC.ki m) <= 0)%R by nra.
      nra.
Qed.

(** On every constructed instance [pact] stays between [saturation] and
    [leakiness]: below [leakiness] and above [saturation] when the
    effector binds the inactive state more tightly ([ki <= ka]), the other
    way round when [ka <= ki]. *)
Theorem pact_between_saturation_and_leakiness
    (effector_conc ka ki ep_ai n_sites : R) (log_transform : bool) (m : MWC.t) :
  MWC.init effector_conc ka ki ep_ai n_sites log_transform = Ok m ->
  ((MWC.ki m <= MWC.ka m)%R ->
     (MWC.saturation m <= MWC.pact m <= MWC.leakiness m)%R) /\
  ((MWC.ka m <= MWC.ki m)%R ->
     (MWC.leakiness m <= MWC.pact m <= MWC.saturation m)%R).
Proof.
  intros Hm. destruct (MWC_init_positive _ _ _ _ _ _ _ Hm) as (Hc & Hka & Hki & Hn).
  destruct (binding_ratio_bounds m Hka Hki Hc) as [Hge Hle].
  assert (Hq : (0 < MWC.ka m / MWC.ki m)%R)
    by (apply Rmult_lt_0_compat; [|apply Rinv_0_lt_compat]; assumption).
  assert (Hp : MWC.pact m = activity_of_ratio m (binding_ratio m (MWC.c m))).
  { rewrite <- (with_c_self m) at 1. apply pact_as_ratio; assumption. }
  rewrite Hp, saturation_as_ratio, <- activity_at_one.
  split; intros H.
  - destruct (Hge H) as [H1 H2].
    split; apply activity_antitone; try assumption; lra.
  - destruct (Hle H) as [H1 H2].
    split; apply activity_antitone; try assumption; lra.
Qed.

Lemma pact_between_saturation_and_leakiness_witness :
  MWC.init 50 139 (53 / 100) (45 / 10) 2 false
  = Ok (MWC.mk 50 (45 / 10) 2 139 (53 / 100)) /\
  (53 / 100 <= 139)%R /\
  (MWC.saturation (MWC.mk 50 (45 / 10) 2 139 (53 / 100))
   <= MWC.pact (MWC.mk 50 (45 / 10) 2 139 (53 / 100))
   <= MWC.leakiness (MWC.mk 50 (45 / 10) 2 139 (53 / 100)))%R.
Proof.
  assert (Hle : (53 / 100 <= 139)%R) by lra.
  split; [exact MWC_init_example|]. split; [exact Hle|].
  exact (proj1 (pact_between_saturation_and_leakiness _ _ _ _ _ _ _
                  MWC_init_example) Hle).
Defined.

(** ** Simple repression *)

Lemma pact_in_unit (m : MWC.t) :
  (0 < MWC.ka m)%R -> (0 < MWC.ki m)%R -> (0 <= MWC.c m)%R ->
  (0 < MWC.pact m < 1)%R.
Proof.
  intros Hka Hki Hc. rewrite <- (with_c_self m) at 1 2.
  rewrite (pact_as_ratio m Hka Hki) by assumption.
  apply activity_in_unit_interval.
Qed.

Lemma SR_check_positive_inv (k : string) (v : R) :
  SimpleRepression.check_positive (k, v) = Ok tt -> (0 <= v)%R.
Proof.
  unfold SimpleRepression.check_positive. simpl. unfold float_lt.
  destruct (Rlt_dec v 0); [discriminate | intros _; lra].
Qed.

Lemma SR_init_inv (R0 ep_r0 n_ns0 : R)
    (kwargs : option SimpleRepression.mwc_kwargs) (self : SimpleRepression.t) :
  SimpleRepression.init R0 ep_r0 n_ns0 kwargs = Ok self ->
  (0 <= R0)%R /\ (0 <= n_ns0)%R /\
  SimpleRepression.R_ self = R0 /\ SimpleRepression.ep_r self = ep_r0 /\
  SimpleRepression.n_ns self = n_ns0 /\
  ((SimpleRepression.allo self = true /\
    exists kw m, kwargs = Some kw /\ SimpleRepression.mwc self = Some m /\
      MWC.init (SimpleRepression.kw_effector_conc kw) (SimpleRepression.kw_ka kw)
        (SimpleRepression.kw_ki kw) (SimpleRepression.kw_ep_ai kw)
        (SimpleRepression.kw_n_sites kw) (SimpleRepression.kw_log_transform kw)
      = Ok m)
   \/ (SimpleRepression.allo self = false /\ kwargs = None /\
       SimpleRepression.mwc self = None)).
Proof.
  unfold SimpleRepression.init. simpl. intros H.
  destruct (SimpleRepression.check_positive ("R", R0)) as [[]|] eqn:E1;
    simpl in H; [|discriminate].
  destruct (SimpleRepression.check_positive ("n_ns", n_ns0)) as [[]|] eqn:E2;
    simpl in H; [|discriminate].
  apply SR_check_positive_inv in E1, E2.
  split; [exact E1|]. split; [exact E2|].
  destruct kwargs as [kw|].
  - destruct (MWC.init _ _ _ _ _ _) as [m|] eqn:Em; simpl in H; [|discriminate].
    injection H as <-. simpl. repeat split. left. split; [reflexivity|].
    exists kw, m. auto.
  - injection H as <-. simpl. repeat split. right. auto.
Qed.

(** [SimpleRepression.__init__] checks [R] before [n_ns] and both before
    the keyword arguments; zero is accepted for both; and the instance it
    leaves has non-negative [R] and [n_ns], carries an [mwc] attribute
    exactly when [allo] is true, and that attribute is a validated [MWC]
    instance. *)
Theorem SimpleRepression_init_order_and_invariant
    (R0 ep_r0 n_ns0 : R) (kwargs : option SimpleRepression.mwc_kwargs) :
  ((R0 < 0)%R ->
     SimpleRepression.init R0 ep_r0 n_ns0 kwargs
     = Raise (RuntimeError "R must be positive.")) /\
  ((0 <= R0)%R -> (n_ns0 < 0)%R ->
     SimpleRepression.init R0 ep_r0 n_ns0 kwargs
     = Raise (RuntimeError "n_ns must be positive.")) /\
  ((0 <= R0)%R -> (0 <= n_ns0)%R ->
     SimpleRepression.init R0 ep_r0 n_ns0 None
     = Ok (SimpleRepression.mk R0 ep_r0 n_ns0 false None)) /\
  (forall self,
     SimpleRepression.init R0 ep_r0 n_ns0 kwargs = Ok self ->
     (0 <= SimpleRepression.R_ self)%R /\ (0 <= SimpleRepression.n_ns self)%R /\
     (SimpleRepression.allo self = true <-> is_Some (SimpleRepression.mwc self)) /\
     (forall m, SimpleRepression.mwc self = Some m ->
        (0 <= MWC.c m /\ 0 < MWC.ka m /\ 0 < MWC.ki m /\ 0 <= MWC.n m)%R)).
Proof.
  split; [|split; [|split]].
  - intros HR. unfold SimpleRepression.init, SimpleRepression.check_positive.
    simpl. rewrite (float_lt_true R0 0) by assumption. reflexivity.
  - intros HR Hn. unfold SimpleRepression.init, SimpleRepression.check_positive.
    simpl. rewrite (float_lt_false R0 0) by assumption. simpl.
    rewrite (float_lt_true n_ns0 0) by assumption. reflexivity.
  - intros HR Hn. unfold SimpleRepression.init, SimpleRepression.check_positive.
    simpl. rewrite (float_lt_false R0 0) by assumption. simpl.
    rewrite (float_lt_false n_ns0 0) by assumption. reflexivity.
  - intros self Hinit.
    destruct (SR_init_inv _ _ _ _ _ Hinit)
      as (HR & Hn & -> & _ & -> & [(Ha & kw & m & _ & Hm & Hmi) | (Ha & _ & Hm)]).
    + split; [exact HR|]. split; [exact Hn|]. split.
      * rewrite Ha, Hm. split; [eauto | reflexivity].
      * intros m' Hm'. rewrite Hm in Hm'. injection Hm' as <-.
        eapply MWC_init_positive. exact Hmi.
    + split; [exact HR|]. split; [exact Hn|]. split.
      * rewrite Ha, Hm. split; [discriminate | intros [? ?]; discriminate].
      * intros m' Hm'. rewrite Hm in Hm'. discriminate.
Qed.

Lemma SimpleRepression_init_order_and_invariant_witness :
  (-1 < 0)%R /\
  SimpleRepression.init (-1) (-139 / 10) (-5) None
  = Raise (RuntimeError "R must be positive.").
Proof.
  assert (H : (-1 < 0)%R) by lra.
  split; [exact H|].
  exact (proj1 (SimpleRepression_init_order_and_invariant (-1) (-139 / 10) (-5) None) H).
Defined.

(** The value [fold_change] computes from an activity [p]. *)
Lemma fold_change_value_in_range (p R0 n_ns0 ep_r0 : R) :
  (0 <= p)%R -> (0 <= R0)%R -> (0 < n_ns0)%R ->
  (0 < float_pow (1 + p * R0 / n_ns0 * exp (- ep_r0)) (-1) <= 1)%R.
Proof.
  intros Hp HR Hn.
  assert (Hx : (0 <= p * R0 / n_ns0 * exp (- ep_r0))%R).
  { apply Rmult_le_pos; [|left; apply exp_pos].
    apply Rmult_le_pos; [|left; apply Rinv_0_lt_compat; assumption].
    apply Rmult_le_pos; assumption. }
  rewrite float_pow_inv by lra.
  split; [apply Rinv_0_lt_compat; lra|].
  rewrite <- Rinv_1 at 2. apply Rinv_le_contravar; lra.
Qed.

(** On a constructed instance with a positive number of non-specific
    sites, [fold_change] under the weak promoter approximation returns a
    number in (0, 1]; on an allosteric instance the [pact] argument is
    ignored; without the approximation it always raises. *)
Theorem fold_change_range
    (R0 ep_r0 n_ns0 : R) (kwargs : option SimpleRepression.mwc_kwargs)
    (self : SimpleRepression.t) (num_pol ep_pol : option R) (pact : R) :
  SimpleRepression.init R0 ep_r0 n_ns0 kwargs = Ok self ->
  (0 < n_ns0)%R ->
  (SimpleRepression.allo self = false -> (0 <= pact <= 1)%R) ->
  (exists fc,
     SimpleRepression.fold_change self true num_pol ep_pol pact = Ok fc /\
     (0 < fc <= 1)%R) /\
  (SimpleRepression.allo self = true ->
     forall num_pol' ep_pol' pact',
       SimpleRepression.fold_change self true num_pol' ep_pol' pact'
       = SimpleRepression.fold_change self true num_pol ep_pol pact) /\
  SimpleRepression.fold_change self false num_pol ep_pol pact
  = Raise (RuntimeError "not yet implemented").
Proof.
  intros Hinit Hn Hp.
  destruct (SR_init_inv _ _ _ _ _ Hinit)
    as (HR & _ & ER & Eep & En & [(Ha & kw & m & _ & Hm & Hmi) | (Ha & _ & Hm)]).
  - destruct (MWC_init_positive _ _ _ _ _ _ _ Hmi) as (Hc & Hka & Hki & _).
    destruct (pact_in_unit m Hka Hki Hc) as [Hp0 _].
    split; [|split; [|reflexivity]].
    + unfold SimpleRepression.fold_change, SimpleRepression.get_mwc.
      rewrite Ha, Hm. simpl. eexists. split; [reflexivity|].
      rewrite ER, En. apply fold_change_value_in_range; lra.
    + intros _ num_pol' ep_pol' pact'.
      unfold SimpleRepression.fold_change. rewrite Ha. reflexivity.
  - specialize (Hp Ha).
    split; [|split; [|reflexivity]].
    + unfold SimpleRepression.fold_change. rewrite Ha. simpl.
      unfold float_gt. rewrite (float_lt_false pact 0), (float_lt_false 1 pact) by lra.
      simpl. eexists. split; [reflexivity|].
      rewrite ER, En. apply fold_change_value_in_range; lra.
    + rewrite Ha. discriminate.
Qed.

Lemma fold_change_range_witness :
  SimpleRepression.init 260 (-139 / 10) 4600000 None
  = Ok (SimpleRepression.mk 260 (-139 / 10) 4600000 false None) /\
  (0 < 4600000)%R /\
  exists fc,
    SimpleRepression.fold_change
      (SimpleRepression.mk 260 (-139 / 10) 4600000 false None) true None None 1
    = Ok fc /\ (0 < fc <= 1)%R.
Proof.
  assert (Hn : (0 < 4600000)%R) by lra.
  assert (Hp : SimpleRepression.allo
                 (SimpleRepression.mk 260 (-139 / 10) 4600000 false None) = false
               -> (0 <= 1 <= 1)%R) by (intros _; lra).
  split; [exact init_plain_example|]. split; [exact Hn|].
  exact (proj1 (fold_change_range _ _ _ _ _ None None 1%R init_plain_example Hn Hp)).
Defined.

(** With at least one repressor, the fold-change of a constructed
    instance is the logistic function [1 / (1 + exp(b))] of the value [b]
    that [bohr_parameter] returns. *)
Theorem fold_change_is_logistic_in_bohr
    (R0 ep_r0 n_ns0 : R) (kwargs : option SimpleRepression.mwc_kwargs)
    (self : SimpleRepression.t) (num_pol ep_pol : option R) :
  SimpleRepression.init R0 ep_r0 n_ns0 kwargs = Ok self ->
  (0 < R0)%R -> (0 < n_ns0)%R ->
  exists b,
    SimpleRepression.bohr_parameter self = Ok b /\
    SimpleRepression.fold_change self true num_pol ep_pol 1
    = Ok (/ (1 + exp b))%R.
Proof.
  intros Hinit HR Hn.
  assert (Hq : (0 < R0 / n_ns0)%R)
    by (apply Rmult_lt_0_compat; [|apply Rinv_0_lt_compat]; assumption).
  assert (Hexp : forall p, (0 < p)%R ->
    exp (ln p + ln (R0 / n_ns0) - ep_r0) = (p * R0 / n_ns0 * exp (- ep_r0))%R).
  { intros p Hp. unfold Rminus. rewrite !exp_plus, !exp_ln by assumption.
    unfold Rdiv. ring. }
  destruct (SR_init_inv _ _ _ _ _ Hinit)
    as (_ & _ & ER & Eep & En & [(Ha & kw & m & _ & Hm & Hmi) | (Ha & _ & Hm)]).
  - destruct (MWC_init_positive _ _ _ _ _ _ _ Hmi) as (Hc & Hka & Hki & _).
    destruct (pact_in_unit m Hka Hki Hc) as [Hp0 _].
    unfold SimpleRepression.bohr_parameter, SimpleRepression.fold_change,
      SimpleRepression.get_mwc.
    rewrite Ha, Hm, ER, Eep, En. simpl. eexists. split; [reflexivity|].
    f_equal. rewrite Hexp by assumption.
    apply float_pow_inv.
    pose proof (fold_change_value_in_range (MWC.pact m) R0 n_ns0 ep_r0
                  ltac:(lra) ltac:(lra) Hn) as [Hpos _].
    assert (0 <= MWC.pact m * R0 / n_ns0 * exp (- ep_r0))%R; [|lra].
    apply Rmult_le_pos; [|left; apply exp_pos].
    apply Rmult_le_pos; [|left; apply Rinv_0_lt_compat; assumption].
    apply Rmult_le_pos; lra.
  - unfold SimpleRepression.bohr_parameter, SimpleRepression.fold_change.
    rewrite Ha, ER, Eep, En. simpl.
    unfold float_gt. rewrite (float_lt_false 1 0), (float_lt_false 1 1) by lra.
    simpl. eexists. split; [reflexivity|].
    f_equal. rewrite Hexp by lra.
    apply float_pow_inv.
    assert (0 <= 1 * R0 / n_ns0 * exp (- ep_r0))%R; [|lra].
    apply Rmult_le_pos; [|left; apply exp_pos].
    apply Rmult_le_pos; [|left; apply Rinv_0_lt_compat; assumption]. lra.
Qed.

Lemma fold_change_is_logistic_in_bohr_witness :
  SimpleRepression.init 260 (-139 / 10) 4600000 None
  = Ok (SimpleRepression.mk 260 (-139 / 10) 4600000 false None) /\
  (0 < 260)%R /\ (0 < 4600000)%R /\
  exists b,
    SimpleRepression.bohr_parameter
      (SimpleRepression.mk 260 (-139 / 10) 4600000 false None) = Ok b /\
    SimpleRepression.fold_change
      (SimpleRepression.mk 260 (-139 / 10) 4600000 false None) true None None 1
    = Ok (/ (1 + exp b))%R.
Proof.
  assert (HR : (0 < 260)%R) by lra.
  assert (Hn : (0 < 4600000)%R) by lra.
  split; [exact init_plain_example|]. split; [exact HR|]. split; [exact Hn|].
  exact (fold_change_is_logistic_in_bohr _ _ _ _ _ None None
           init_plain_example HR Hn).
Defined.

(** ** Further properties of [log_posterior] *)

Lemma any_negative_spec (I : list R) :
  CalFactor.any_negative I = true <-> exists x, x ∈ I /\ (x < 0)%R.
Proof.
  unfold CalFactor.any_negative. rewrite existsb_exists. split.
  - intros (x & Hin & Hx). exists x. split; [apply list_elem_of_In; exact Hin|].
    apply float_lt_spec. exact Hx.
  - intros (x & Hin & Hx). exists x. split; [apply list_elem_of_In; exact Hin|].
    apply float_lt_spec. exact Hx.
Qed.

Lemma add_broadcast_cases (I1 I2 : list R) :
  (length I1 = length I2 \/ length I1 = 1%nat \/ length I2 = 1%nat ->
   exists tot, CalFactor.add I1 I2 = Ok tot) /\
  (length I1 <> length I2 -> length I1 <> 1%nat -> length I2 <> 1%nat ->
   CalFactor.add I1 I2
   = Raise (ValueError "operands could not be broadcast together")).
Proof.
  unfold CalFactor.add. split.
  - intros H. destruct (Nat.eqb_spec (length I1) (length I2)) as [E|N]; [eauto|].
    destruct H as [H | [H | H]]; [contradiction | |].
    + destruct I1 as [|x [|? ?]]; try discriminate. eauto.
    + destruct I2 as [|y [|? ?]]; try discriminate.
      destruct I1 as [|x [|? ?]]; eauto.
  - intros N H1 H2. destruct (Nat.eqb_spec (length I1) (length I2)) as [E|_];
      [contradiction|].
    destruct I1 as [|x [|? ?]]; destruct I2 as [|y [|? ?]]; simpl in *;
      try reflexivity; try contradiction; try lia.
Qed.

(** What a call of [log_posterior] does is decided by its arrays alone:
    it raises the [ValueError] of its own check when an intensity is
    negative, before the shapes are looked at; it returns a number when
    no intensity is negative and the arrays have equal length or one of
    them has length one; and it fails inside numpy otherwise. *)
Theorem log_posterior_outcomes (gammaln : R -> R) (alpha : R) (I1 I2 : list R)
    (negative : bool) :
  ((exists x, (x ∈ I1 \/ x ∈ I2) /\ (x < 0)%R) ->
     CalFactor.log_posterior gammaln alpha I1 I2 negative
     = Raise (ValueError "Negative values in I1 or I2")) /\
  (nonnegative I1 -> nonnegative I2 ->
     length I1 = length I2 \/ length I1 = 1%nat \/ length I2 = 1%nat ->
     exists logp, CalFactor.log_posterior gammaln alpha I1 I2 negative = Ok logp) /\
  (nonnegative I1 -> nonnegative I2 ->
     length I1 <> length I2 -> length I1 <> 1%nat -> length I2 <> 1%nat ->
     CalFactor.log_posterior gammaln alpha I1 I2 negative
     = Raise (ValueError "operands could not be broadcast together")).
Proof.
  split; [|split].
  - intros (x & Hin & Hx). eapply log_posterior_rejects_negative; eassumption.
  - intros H1 H2 Hshape. unfold CalFactor.log_posterior.
    rewrite (any_negative_false I1 H1), (any_negative_false I2 H2). simpl.
    destruct (proj1 (add_broadcast_cases I1 I2) Hshape) as [tot ->]. simpl. eauto.
  - intros H1 H2 N N1 N2. unfold CalFactor.log_posterior.
    rewrite (any_negative_false I1 H1), (any_negative_false I2 H2). simpl.
    rewrite (proj2 (add_broadcast_cases I1 I2) N N1 N2). reflexivity.
Qed.

Lemma log_posterior_outcomes_witness :
  (exists x, (x ∈ [120; -3]%R \/ x ∈ [100; 95; 60]%R) /\ (x < 0)%R) /\
  CalFactor.log_posterior ln 25 [120; -3]%R [100; 95; 60]%R false
  = Raise (ValueError "Negative values in I1 or I2").
Proof.
  assert (H : exists x, (x ∈ [120; -3]%R \/ x ∈ [100; 95; 60]%R) /\ (x < 0)%R).
  { exists (-3)%R. split; [left; set_solver | lra]. }
  split; [exact H|].
  exact (proj1 (log_posterior_outcomes ln 25 [120; -3]%R [100; 95; 60]%R false) H).
Defined.

Lemma zip_with_Rplus_comm (I1 I2 : list R) :
  zip_with Rplus I1 I2 = zip_with Rplus I2 I1.
Proof.
  revert I2. induction I1 as [|x I1 IH]; intros [|y I2]; simpl; try reflexivity.
  rewrite IH. f_equal. apply Rplus_comm.
Qed.

(** Exchanging the two daughters does not change the log posterior when
    the arrays have the same length. *)
Theorem log_posterior_symmetric (gammaln : R -> R) (alpha : R) (I1 I2 : list R)
    (negative : bool) :
  length I1 = length I2 ->
  CalFactor.log_posterior gammaln alpha I1 I2 negative
  = CalFactor.log_posterior gammaln alpha I2 I1 negative.
Proof.
  intros Hlen. unfold CalFactor.log_posterior.
  rewrite (orb_comm (CalFactor.any_negative I2)).
  destruct (CalFactor.any_negative I1 || CalFactor.any_negative I2); [reflexivity|].
  rewrite (add_same_length I1 I2 Hlen), (add_same_length I2 I1 (eq_sym Hlen)).
  simpl. rewrite (zip_with_Rplus_comm I2 I1), Hlen. f_equal. lra.
Qed.

Lemma log_posterior_symmetric_witness :
  length [120; 80; 45]%R = length [100; 95; 60]%R /\
  CalFactor.log_posterior ln 25 [120; 80; 45]%R [100; 95; 60]%R false
  = CalFactor.log_posterior ln 25 [100; 95; 60]%R [120; 80; 45]%R false.
Proof.
  split; [reflexivity|].
  exact (log_posterior_symmetric ln 25 [120; 80; 45]%R [100; 95; 60]%R false eq_refl).
Defined.

Lemma sum_app (xs ys : list R) : Np.sum (xs ++ ys) = (Np.sum xs + Np.sum ys)%R.
Proof. induction xs as [|x xs IH]; simpl; [lra | rewrite IH; lra]. Qed.

Lemma nonnegative_app (xs ys : list R) :
  nonnegative xs -> nonnegative ys -> nonnegative (xs ++ ys).
Proof. unfold nonnegative. intros. apply Forall_app. split; assumption. Qed.

(** At a positive calibration factor, pooling two data sets adds their
    log posteriors and removes one copy of the log prior; without data the
    log posterior is the log prior. *)
Theorem log_posterior_pools (gammaln : R -> R) (alpha : R)
    (I1 I2 J1 J2 : list R) :
  (0 < alpha)%R ->
  length I1 = length I2 -> length J1 = length J2 ->
  nonnegative I1 -> nonnegative I2 -> nonnegative J1 -> nonnegative J2 ->
  (exists u v,
     CalFactor.log_posterior gammaln alpha I1 I2 false = Ok u /\
     CalFactor.log_posterior gammaln alpha J1 J2 false = Ok v /\
     CalFactor.log_posterior gammaln alpha (I1 ++ J1) (I2 ++ J2) false
     = Ok (u + v - CalFactor.halfnorm_logpdf 0 500 alpha)%R) /\
  CalFactor.log_posterior gammaln alpha [] [] false
  = Ok (CalFactor.halfnorm_logpdf 0 500 alpha).
Proof.
  intros _ HI HJ HI1 HI2 HJ1 HJ2. split.
  - do 2 eexists.
    split; [apply log_posterior_ok; assumption|].
    split; [apply log_posterior_ok; assumption|].
    rewrite log_posterior_ok;
      [| rewrite !length_app; congruence
       | apply nonnegative_app; assumption | apply nonnegative_app; assumption].
    f_equal. rewrite zip_with_app by assumption.
    unfold CalFactor.div_scalar, CalFactor.add_scalar.
    rewrite !map_app, !sum_app, length_app, plus_INR. lra.
  - unfold CalFactor.log_posterior. simpl. f_equal. lra.
Qed.

Lemma log_posterior_pools_witness :
  (0 < 25)%R /\
  length [120; 80]%R = length [100; 95]%R /\ length [45]%R = length [60]%R /\
  exists u v,
    CalFactor.log_posterior ln 25 [120; 80]%R [100; 95]%R false = Ok u /\
    CalFactor.log_posterior ln 25 [45]%R [60]%R false = Ok v /\
    CalFactor.log_posterior ln 25 ([120; 80] ++ [45])%R ([100; 95] ++ [60])%R false
    = Ok (u + v - CalFactor.halfnorm_logpdf 0 500 25)%R.
Proof.
  assert (Hpos : (0 < 25)%R) by lra.
  split; [exact Hpos|]. split; [reflexivity|]. split; [reflexivity|].
  refine (proj1 (log_posterior_pools ln 25 [120; 80]%R [100; 95]%R [45]%R [60]%R
                   Hpos eq_refl eq_refl _ _ _ _)); repeat constructor; lra.
Defined.

Lemma sum_map_permutation {A : Type} (f : A -> R) (xs ys : list A) :
  xs ≡ₚ ys -> Np.sum (map f xs) = Np.sum (map f ys).
Proof. induction 1; simpl; lra. Qed.

Lemma any_negative_permutation (xs ys : list R) :
  xs ≡ₚ ys -> CalFactor.any_negative xs = CalFactor.any_negative ys.
Proof.
  intros H. unfold CalFactor.any_negative.
  induction H as [|x xs ys _ IH|x y xs|xs ys zs _ IH1 _ IH2]; simpl.
  - reflexivity.
  - rewrite IH. reflexivity.
  - destruct (float_lt x 0), (float_lt y 0); reflexivity.
  - congruence.
Qed.

(** The log posterior does not depend on the order in which the division
    events are listed. *)
Theorem log_posterior_order_independent (gammaln : R -> R) (alpha : R)
    (events events' : list (R * R)) (negative : bool) :
  events ≡ₚ events' ->
  CalFactor.log_posterior gammaln alpha events.*1 events.*2 negative
  = CalFactor.log_posterior gammaln alpha events'.*1 events'.*2 negative.
Proof.
  intros Hperm. unfold CalFactor.log_posterior.
  rewrite (any_negative_permutation events.*1 events'.*1) by (apply fmap_Permutation; exact Hperm).
  rewrite (any_negative_permutation events.*2 events'.*2) by (apply fmap_Permutation; exact Hperm).
  destruct (CalFactor.any_negative events'.*1 || CalFactor.any_negative events'.*2);
    [reflexivity|].
  rewrite !add_same_length by (rewrite !length_fmap; reflexivity). simpl.
  destruct (sums_over_pairs gammaln alpha events) as [S1 S2].
  destruct (sums_over_pairs gammaln alpha events') as [S1' S2'].
  rewrite S1, S2, S1', S2'.
  rewrite (sum_map_permutation _ events events' Hperm).
  rewrite (sum_map_permutation
             (fun p => (gammaln ((p.1 + p.2) / alpha + 1) - gammaln (p.1 / alpha + 1)
                        - gammaln (p.2 / alpha + 1))%R) events events' Hperm).
  rewrite !length_fmap, (Permutation_length Hperm). reflexivity.
Qed.

Lemma log_posterior_order_independent_witness :
  [(120, 100); (80, 95)]%R ≡ₚ [(80, 95); (120, 100)]%R /\
  CalFactor.log_posterior ln 25 [(120, 100); (80, 95)]%R.*1
    [(120, 100); (80, 95)]%R.*2 false
  = CalFactor.log_posterior ln 25 [(80, 95); (120, 100)]%R.*1
      [(80, 95); (120, 100)]%R.*2 false.
Proof.
  assert (H : [(120, 100); (80, 95)]%R ≡ₚ [(80, 95); (120, 100)]%R)
    by apply perm_swap.
  split; [exact H|].
  exact (log_posterior_order_independent ln 25 _ _ false H).
Defined.

(** ** compute_hpd *)

Lemma sorted_lookup_le (d : list R) (i j : nat) (a b : R) :
  StronglySorted Rle d -> (i <= j)%nat ->
  d !! i = Some a -> d !! j = Some b -> (a <= b)%R.
Proof.
  intros Hs. revert i j a b.
  induction Hs as [|x d' _ IH Hall]; intros i j a b Hij Hi Hj.
  - rewrite lookup_nil in Hi. discriminate.
  - destruct i as [|i'], j as [|j']; simpl in Hi, Hj.
    + injection Hi as <-. injection Hj as <-. lra.
    + injection Hi as <-. rewrite Forall_forall in Hall.
      apply Hall. eapply list_elem_of_lookup_2. exact Hj.
    + lia.
    + apply (IH i' j'); [lia | assumption | assumption].
Qed.

Lemma argmin_from_spec (xs pre : list R) (best_i : nat) (best : R) :
  pre !! best_i = Some best ->
  (forall x, x ∈ pre -> (best <= x)%R) ->
  exists m,
    (pre ++ xs) !! Np.argmin_from best_i best (length pre) xs = Some m /\
    forall x, x ∈ pre ++ xs -> (m <= x)%R.
Proof.
  revert pre best_i best. induction xs as [|x xs IH]; intros pre best_i best Hb Hmin.
  - exists best. simpl. rewrite app_nil_r. split; [exact Hb | exact Hmin].
  - simpl. rewrite (cons_middle x pre xs), app_assoc.
    replace (S (length pre)) with (length (pre ++ [x]))
      by (rewrite length_app; simpl; lia).
    destruct (Rlt_dec x best) as [Hlt | Hge].
    + rewrite (float_lt_true x best Hlt).
      apply IH.
      * rewrite lookup_app_r by lia. rewrite Nat.sub_diag. reflexivity.
      * intros y Hy. apply elem_of_app in Hy as [Hy | Hy].
        -- specialize (Hmin y Hy). lra.
        -- apply list_elem_of_singleton in Hy as ->. lra.
    + rewrite (float_lt_false x best) by lra.
      apply IH.
      * apply lookup_app_l_Some. exact Hb.
      * intros y Hy. apply elem_of_app in Hy as [Hy | Hy].
        -- apply Hmin. exact Hy.
        -- apply list_elem_of_singleton in Hy as ->. lra.
Qed.

Lemma argmin_spec (xs : list R) :
  xs <> [] ->
  exists i m,
    Np.argmin xs = Ok i /\ xs !! i = Some m /\
    forall x, x ∈ xs -> (m <= x)%R.
Proof.
  intros Hne. destruct xs as [|x xs]; [done|].
  destruct (argmin_from_spec xs [x] 0 x eq_refl) as (m & Hm & Hmin).
  { intros y Hy. apply list_elem_of_singleton in Hy as ->. lra. }
  exists (Np.argmin_from 0 x 1 xs), m. split; [reflexivity|].
  split; [exact Hm | exact Hmin].
Qed.

Lemma item_in_range (xs : list R) (i : nat) (x : R) :
  xs !! i = Some x -> Np.item xs (Z.of_nat i) = Ok x.
Proof.
  intros H. unfold Np.item.
  destruct (Z.ltb_spec (Z.of_nat i) 0) as [Hneg|_]; [lia|].
  destruct (Z.ltb_spec (Z.of_nat i) 0) as [Hneg|_]; [lia|].
  rewrite Nat2Z.id, H. reflexivity.
Qed.

Lemma floor_below_length (p : R) (len : nat) :
  (0 <= p < INR len)%R ->
  (0 <= Np.floor_int p < Z.of_nat len)%Z.
Proof.
  intros [Hx0 Hx1]. unfold Np.floor_int.
  destruct (base_Int_part p) as [Hlo Hhi].
  split.
  - apply le_IZR. assert (-1 < IZR (Int_part p))%R by lra.
    assert (Hz : (-1 < Int_part p)%Z) by (apply lt_IZR; exact H).
    apply IZR_le. lia.
  - apply lt_IZR. rewrite <- INR_IZR_INZ. lra.
Qed.

(** Let [p] be the product [mass_frac * len(trace)] as the machine
    computes it, whatever its rounding.  For a non-empty trace and
    [0 <= p < len(trace)], [compute_hpd] returns two samples [lo <= hi]
    that stand [n_samples = floor(p)] places apart in the sorted trace,
    and no other pair of sorted samples that far apart is closer
    together. *)
Theorem compute_hpd_narrowest_window (fmul : R -> R -> R) (trace : list R)
    (mass_frac : R) :
  trace <> [] ->
  (0 <= fmul mass_frac (INR (length trace)) < INR (length trace))%R ->
  exists (lo hi : R) (i : nat),
    Stats.compute_hpd_rounded fmul trace mass_frac = Ok [lo; hi] /\
    Np.sort trace !! i = Some lo /\
    Np.sort trace
      !! (i + Z.to_nat (Np.floor_int (fmul mass_frac (INR (length trace)))))%nat
    = Some hi /\
    (lo <= hi)%R /\ lo ∈ trace /\ hi ∈ trace /\
    forall (j : nat) (a b : R),
      Np.sort trace !! j = Some a ->
      Np.sort trace
        !! (j + Z.to_nat (Np.floor_int (fmul mass_frac (INR (length trace)))))%nat
      = Some b ->
      (hi - lo <= b - a)%R.
Proof.
  intros Hne Hmf.
  assert (Hlen : (0 < length trace)%nat) by (destruct trace; [done | simpl; lia]).
  pose proof (floor_below_length _ (length trace) Hmf) as Hns.
  set (ns := Np.floor_int (fmul mass_frac (INR (length trace)))) in *.
  set (k := Z.to_nat ns).
  assert (Hk : (k < length trace)%nat) by (unfold k; lia).
  assert (Hperm : Np.sort trace ≡ₚ trace) by apply merge_sort_Permutation.
  assert (Hsorted : StronglySorted Rle (Np.sort trace))
    by (apply StronglySorted_merge_sort; apply _).
  assert (Hdlen : length (Np.sort trace) = length trace)
    by (apply Permutation_length; exact Hperm).
  set (d := Np.sort trace) in *.
  assert (Hfrom : Np.slice_from d ns = drop k d).
  { unfold Np.slice_from, Np.slice_bound.
    destruct (Z.ltb_spec ns 0); [lia|]. f_equal. fold k. lia. }
  assert (Hto : Np.slice_to d (Z.of_nat (length trace) - ns) = take (length trace - k) d).
  { unfold Np.slice_to, Np.slice_bound.
    destruct (Z.ltb_spec (Z.of_nat (length trace) - ns) 0); [lia|]. f_equal.
    unfold k. lia. }
  set (w := zip_with Rminus (drop k d) (take (length trace - k) d)).
  assert (Hsub : Np.subtract (drop k d) (take (length trace - k) d) = Ok w).
  { unfold Np.subtract. rewrite length_drop, length_take, Hdlen.
    replace (length trace - k =? (length trace - k) `min` length trace)%nat with true
      by (symmetry; apply Nat.eqb_eq; lia).
    reflexivity. }
  assert (Hw : forall j x, w !! j = Some x <->
             exists a b, d !! j = Some a /\ d !! (j + k)%nat = Some b /\ x = (b - a)%R).
  { intros j x. unfold w. rewrite lookup_zip_with_Some. split.
    - intros (b & a & -> & Hb & Ha). rewrite lookup_drop in Hb.
      apply lookup_take_Some in Ha as [Ha _].
      exists a, b. rewrite (Nat.add_comm j k). auto.
    - intros (a & b & Ha & Hb & ->). exists b, a. split; [reflexivity|].
      rewrite lookup_drop, (Nat.add_comm k j). split; [exact Hb|].
      apply lookup_take_Some. split; [exact Ha|].
      apply lookup_lt_Some in Hb. lia. }
  assert (Hwne : w <> []).
  { intros E. apply (f_equal length) in E. unfold w in E.
    rewrite length_zip_with, length_drop, length_take, Hdlen in E. simpl in E. lia. }
  destruct (argmin_spec w Hwne) as (i & m & Harg & Hi & Hmin).
  apply Hw in Hi as (lo & hi & Hlo & Hhi & ->).
  exists lo, hi, i.
  split.
  { unfold Stats.compute_hpd_rounded. fold d. fold ns. rewrite Hfrom, Hto, Hsub.
    cbn [mbind result_bind]. rewrite Harg. cbn [mbind result_bind].
    rewrite (item_in_range d i lo Hlo). cbn [mbind result_bind].
    replace (Z.of_nat i + ns)%Z with (Z.of_nat (i + k)) by (unfold k; lia).
    rewrite (item_in_range d (i + k) hi Hhi). reflexivity. }
  split; [exact Hlo|]. split; [exact Hhi|].
  split; [apply (sorted_lookup_le d i (i + k) lo hi Hsorted); [lia | assumption..]|].
  split; [rewrite <- Hperm; eapply list_elem_of_lookup_2; exact Hlo|].
  split; [rewrite <- Hperm; eapply list_elem_of_lookup_2; exact Hhi|].
  intros j a b Ha Hb. apply Hmin.
  apply (list_elem_of_lookup_2 w j). apply Hw. eauto.
Qed.

Lemma compute_hpd_narrowest_window_witness :
  [3; 1; 2]%R <> [] /\
  (0 <= Rmult (1 / 2) (INR (length [3; 1; 2]%R)) < INR (length [3; 1; 2]%R))%R /\
  exists lo hi,
    Stats.compute_hpd_rounded Rmult [3; 1; 2]%R (1 / 2) = Ok [lo; hi] /\
    (lo <= hi)%R.
Proof.
  assert (Hne : [3; 1; 2]%R <> []) by discriminate.
  assert (Hmf : (0 <= Rmult (1 / 2) (INR (length [3; 1; 2]%R))
                 < INR (length [3; 1; 2]%R))%R) by (simpl; lra).
  split; [exact Hne|]. split; [exact Hmf|].
  destruct (compute_hpd_narrowest_window Rmult [3; 1; 2]%R (1 / 2) Hne Hmf)
    as (lo & hi & i & Hrun & _ & _ & Hle & _).
  exists lo, hi. split; [exact Hrun | exact Hle].
Defined.

(** With the whole mass ([mass_frac = 1], which the docstring admits) and
    on an empty trace, no window is left to compare: [compute_hpd] fails
    inside [np.argmin]. *)
Theorem compute_hpd_full_mass_or_empty_trace (trace : list R) (mass_frac : R) :
  Stats.compute_hpd trace 1
  = Raise (ValueError "attempt to get argmin of an empty sequence") /\
  Stats.compute_hpd [] mass_frac
  = Raise (ValueError "attempt to get argmin of an empty sequence").
Proof.
  split.
  - unfold Stats.compute_hpd, Stats.compute_hpd_rounded, Np.floor_int.
    rewrite Rmult_1_l, Int_part_INR.
    assert (Hdlen : length (Np.sort trace) = length trace)
      by (apply Permutation_length, merge_sort_Permutation).
    unfold Np.slice_from, Np.slice_to, Np.slice_bound. rewrite Hdlen.
    destruct (Z.ltb_spec (Z.of_nat (length trace)) 0); [lia|].
    rewrite Z.sub_diag. simpl (0 <? 0)%Z. cbn iota.
    rewrite Nat2Z.id, Nat.min_id. simpl (Z.to_nat 0). rewrite Nat.min_0_r.
    rewrite drop_ge by lia. rewrite take_0. reflexivity.
  - unfold Stats.compute_hpd, Stats.compute_hpd_rounded, Np.floor_int.
    simpl length. simpl INR.
    rewrite Rmult_0_r.
    replace (Int_part 0) with 0%Z by (symmetry; apply (Int_part_INR 0)).
    reflexivity.
Qed.

(** ** compute_mean_sem *)

Lemma sum_squares_nonneg (xs : list R) (c : R) :
  (0 <= Np.sum (map (fun x => Rsqr (x - c)) xs))%R.
Proof.
  induction xs as [|x xs IH]; simpl; [lra|].
  pose proof (Rle_0_sqr (x - c)). lra.
Qed.

(** [compute_mean_sem] raises [KeyError] on a missing column; on a column
    of at least two values it returns their mean and a standard error
    built on the sample standard deviation ([ddof = 1]), which is the
    standard error that [bin_by_events] stores for the same values times
    [sqrt(n / (n - 1))], hence never smaller. *)
Theorem compute_mean_sem_uses_sample_std (df : Stats.DataFrame) (key : string) :
  (key ∉ Stats.columns df ->
     Stats.compute_mean_sem df key = Raise (KeyError key)) /\
  (key ∈ Stats.columns df -> (2 <= Stats.len df)%nat ->
     exists mean_val sem_val,
       Stats.compute_mean_sem df key = Ok (mean_val, sem_val) /\
       mean_val = Np.mean (col key (Stats.rows df)) /\
       (sem_val * sem_val * (INR (Stats.len df) - 1)
        = sem (col key (Stats.rows df)) * sem (col key (Stats.rows df))
          * INR (Stats.len df))%R /\
       (sem (col key (Stats.rows df)) <= sem_val)%R).
Proof.
  split.
  - intros Hk. unfold Stats.compute_mean_sem, Stats.values.
    rewrite bool_decide_eq_false_2 by assumption. reflexivity.
  - intros Hk Hlen. unfold Stats.compute_mean_sem, Stats.values.
    rewrite bool_decide_eq_true_2 by assumption. cbn [mbind result_bind].
    fold (col key (Stats.rows df)).
    set (vals := col key (Stats.rows df)).
    assert (Hvlen : length vals = Stats.len df)
      by (unfold vals, col, Stats.len; apply length_map).
    set (n := INR (Stats.len df)).
    assert (Hn : (2 <= n)%R) by (unfold n; apply (le_INR 2); exact Hlen).
    set (SS := Np.sum (map (fun x => Rsqr (x - Np.mean vals)) vals)).
    assert (HSS : (0 <= SS)%R) by apply sum_squares_nonneg.
    assert (Hsqn : (0 < sqrt n)%R) by (apply sqrt_lt_R0; lra).
    assert (Hpd : Stats.series_std vals = sqrt (SS / (n - 1))).
    { unfold Stats.series_std. rewrite Hvlen. reflexivity. }
    assert (Hnp : Np.std vals = sqrt (SS / n)).
    { unfold Np.std, Np.mean at 1. rewrite length_map, Hvlen. reflexivity. }
    assert (Hq1 : (0 <= SS / (n - 1))%R)
      by (apply Rmult_le_pos; [exact HSS | left; apply Rinv_0_lt_compat; lra]).
    assert (Hq2 : (0 <= SS / n)%R)
      by (apply Rmult_le_pos; [exact HSS | left; apply Rinv_0_lt_compat; lra]).
    assert (Hle : (SS / n <= SS / (n - 1))%R).
    { unfold Rdiv. apply Rmult_le_compat_l; [exact HSS|].
      apply Rinv_le_contravar; lra. }
    exists (Np.mean vals), (Stats.series_std vals / sqrt n)%R.
    split; [reflexivity|]. split; [reflexivity|].
    unfold sem. rewrite Hvlen. fold n. rewrite Hpd, Hnp. split.
    + assert (E1 : (sqrt (SS / (n - 1)) * sqrt (SS / (n - 1)) = SS / (n - 1))%R)
        by (apply sqrt_sqrt; exact Hq1).
      assert (E2 : (sqrt (SS / n) * sqrt (SS / n) = SS / n)%R)
        by (apply sqrt_sqrt; exact Hq2).
      assert (E3 : (sqrt n * sqrt n = n)%R) by (apply sqrt_sqrt; lra).
      assert (Hinv : (/ sqrt n * / sqrt n = / n)%R).
      { rewrite <- Rinv_mult, E3. reflexivity. }
      unfold Rdiv.
      replace (sqrt (SS * / (n - 1)) * / sqrt n * (sqrt (SS * / (n - 1)) * / sqrt n)
               * (n - 1))%R
        with ((sqrt (SS / (n - 1)) * sqrt (SS / (n - 1))) * (/ sqrt n * / sqrt n)
              * (n - 1))%R by (unfold Rdiv; ring).
      replace (sqrt (SS * / n) * / sqrt n * (sqrt (SS * / n) * / sqrt n) * n)%R
        with ((sqrt (SS / n) * sqrt (SS / n)) * (/ sqrt n * / sqrt n) * n)%R
        by (unfold Rdiv; ring).
      rewrite E1, E2, Hinv. field. lra.
    + unfold Rdiv. apply Rmult_le_compat_r;
        [left; apply Rinv_0_lt_compat; exact Hsqn|].
      apply sqrt_le_1; assumption.
Qed.

Lemma compute_mean_sem_uses_sample_std_witness :
  "summed" ∈ Stats.columns events_df /\ (2 <= Stats.len events_df)%nat /\
  exists mean_val sem_val,
    Stats.compute_mean_sem events_df "summed" = Ok (mean_val, sem_val) /\
    (sem (col "summed" (Stats.rows events_df)) <= sem_val)%R.
Proof.
  assert (Hk : "summed" ∈ Stats.columns events_df) by (simpl; left).
  assert (Hlen : (2 <= Stats.len events_df)%nat) by (unfold Stats.len; simpl; lia).
  split; [exact Hk|]. split; [exact Hlen|].
  destruct (proj2 (compute_mean_sem_uses_sample_std events_df "summed") Hk Hlen)
    as (mu & s & Hrun & _ & _ & Hle).
  exists mu, s. split; [exact Hrun | exact Hle].
Defined.

(** ** Further properties of [bin_by_events] *)

Lemma bin_by_events_run (df : Stats.DataFrame) (b : nat) (sortby : string)
    (average : list string) :
  (0 < b)%nat -> sortby ∈ Stats.columns df ->
  (forall k, k ∈ average -> k ∈ Stats.columns df) ->
  (forall k k', k ∈ average -> k' ∈ average -> k' <> Stats.sem_key k) ->
  exists sorted_df res,
    Stats.sort_values df sortby = Ok sorted_df /\
    Stats.rows sorted_df ≡ₚ Stats.rows df /\
    Stats.bin_by_events df (Z.of_nat b) sortby average = Ok res /\
    filled average b (S (num_groups (Stats.len df) b)) (Stats.rows sorted_df)
      (num_groups (Stats.len df) b) res.
Proof.
  intros Hb Hsortby Havg Hcoll.
  destruct (sort_values_ok df sortby Hsortby)
    as (sorted_df & Hsort & Hcols & _ & Hperm).
  assert (Hlen' : length (Stats.rows sorted_df) = Stats.len df)
    by (unfold Stats.len; apply Permutation_length; exact Hperm).
  set (G := num_groups (Stats.len df) b).
  pose proof (arange_bins (Stats.len df) b Hb) as Hbins. fold G in Hbins.
  destruct (outer_loop average Hcoll sorted_df
              ltac:(intros k Hk; rewrite Hcols; auto) b Hb G G 0
              (Stats.init_averages average (S G)) eq_refl)
    as (res & Hrun & Hres).
  { intros k Hk. apply (init_averages_lookup average (S G) k Hk). }
  exists sorted_df, res. split; [exact Hsort|]. split; [exact Hperm|].
  split; [|exact Hres].
  unfold Stats.bin_by_events. rewrite Hsort.
  cbn [mbind result_bind]. unfold Stats.len at 1. rewrite Hlen', Hbins.
  cbn [mbind result_bind]. rewrite length_map, length_seq.
  replace (S G - 1)%nat with G by lia. exact Hrun.
Qed.

Lemma mean_permutation (xs ys : list R) : xs ≡ₚ ys -> Np.mean xs = Np.mean ys.
Proof.
  intros H. unfold Np.mean. rewrite (Permutation_length H).
  rewrite <- (map_id xs), <- (map_id ys).
  rewrite (sum_map_permutation (fun x => x) xs ys H). reflexivity.
Qed.

Lemma sem_permutation (xs ys : list R) : xs ≡ₚ ys -> sem xs = sem ys.
Proof.
  intros H. unfold sem, Np.std. rewrite (mean_permutation xs ys H).
  unfold Np.mean at 1 3. rewrite !length_map, (Permutation_length H).
  rewrite (sum_map_permutation _ xs ys H). reflexivity.
Qed.

Lemma col_permutation (k : string) (rs rs' : list (string -> R)) :
  rs ≡ₚ rs' -> col k rs ≡ₚ col k rs'.
Proof. intros H. unfold col. apply Permutation_map. exact H. Qed.

(** When [bin_size] is at least the number of rows there is one bin: the
    arrays are the mean and the standard error of the whole column, then
    a zero, whatever column the rows are sorted by. *)
Theorem bin_by_events_single_bin (df : Stats.DataFrame) (bin_size : Z)
    (sortby : string) (average : list string) :
  (0 < Stats.len df)%nat -> (Z.of_nat (Stats.len df) <= bin_size)%Z ->
  sortby ∈ Stats.columns df ->
  (forall k, k ∈ average -> k ∈ Stats.columns df) ->
  (forall k k', k ∈ average -> k' ∈ average -> k' <> Stats.sem_key k) ->
  exists res,
    Stats.bin_by_events df bin_size sortby average = Ok res /\
    forall k, k ∈ average ->
      res !! k = Some [Np.mean (col k (Stats.rows df)); 0%R] /\
      res !! Stats.sem_key k = Some [sem (col k (Stats.rows df)); 0%R].
Proof.
  intros Hlen Hbin Hsortby Havg Hcoll.
  set (b := Z.to_nat bin_size).
  assert (Hb : (0 < b)%nat) by (unfold b; lia).
  assert (Hbl : (Stats.len df <= b)%nat) by (unfold b; lia).
  assert (Hbz : bin_size = Z.of_nat b) by (unfold b; lia).
  destruct (bin_by_events_run df b sortby average Hb Hsortby Havg Hcoll)
    as (sorted_df & res & _ & Hperm & Hrun & Hres).
  assert (HG : num_groups (Stats.len df) b = 1%nat).
  { unfold num_groups. symmetry.
    apply (Nat.div_unique (Stats.len df + b - 1) b 1 (Stats.len df - 1)); lia. }
  rewrite HG in Hres.
  exists res. split; [rewrite Hbz; exact Hrun|].
  intros k Hk. destruct (Hres k Hk) as [H1 H2].
  assert (Hgrp : group b (Stats.rows sorted_df) 0 = Stats.rows sorted_df).
  { unfold group. simpl. apply take_ge.
    rewrite (Permutation_length Hperm). exact Hbl. }
  simpl in H1, H2. rewrite Hgrp in H1, H2.
  rewrite (mean_permutation _ _ (col_permutation k _ _ Hperm)) in H1.
  rewrite (sem_permutation _ _ (col_permutation k _ _ Hperm)) in H2.
  split; assumption.
Qed.

Lemma bin_by_events_single_bin_witness :
  (0 < Stats.len events_df)%nat /\ (Z.of_nat (Stats.len events_df) <= 50)%Z /\
  exists res,
    Stats.bin_by_events events_df 50 "fluct" ["summed"; "fluct"] = Ok res /\
    res !! "summed" = Some [Np.mean (col "summed" (Stats.rows events_df)); 0%R].
Proof.
  assert (Hlen : (0 < Stats.len events_df)%nat) by (unfold Stats.len; simpl; lia).
  assert (Hbin : (Z.of_nat (Stats.len events_df) <= 50)%Z)
    by (unfold Stats.len; simpl; lia).
  assert (Hsort : "fluct" ∈ Stats.columns events_df) by (simpl; right; left).
  assert (Havg : forall k, k ∈ ["summed"; "fluct"] -> k ∈ Stats.columns events_df)
    by (intros k Hk; exact Hk).
  split; [exact Hlen|]. split; [exact Hbin|].
  destruct (bin_by_events_single_bin events_df 50 "fluct" ["summed"; "fluct"]
              Hlen Hbin Hsort Havg events_without_collision)
    as (res & Hrun & Hres).
  exists res. split; [exact Hrun|].
  exact (proj1 (Hres "summed" ltac:(left))).
Defined.

Lemma sum_concat (ls : list (list R)) :
  Np.sum (concat ls) = Np.sum (map Np.sum ls).
Proof. induction ls as [|l ls IH]; simpl; [reflexivity|]. rewrite sum_app, IH. reflexivity. Qed.

Lemma mean_times_length (xs : list R) :
  xs <> [] -> (INR (length xs) * Np.mean xs = Np.sum xs)%R.
Proof.
  intros Hne. unfold Np.mean.
  assert (0 < INR (length xs))%R
    by (apply lt_0_INR; destruct xs; [done | simpl; lia]).
  field. lra.
Qed.

(** The bins lose nothing: the group sizes add up to the number of rows,
    and the stored means weighted by the group sizes add up to the column
    total. *)
Theorem bin_by_events_conserves_total (df : Stats.DataFrame) (bin_size : Z)
    (sortby : string) (average : list string) (k : string) :
  (0 < Stats.len df)%nat -> (0 < bin_size)%Z ->
  sortby ∈ Stats.columns df ->
  (forall k, k ∈ average -> k ∈ Stats.columns df) ->
  (forall k k', k ∈ average -> k' ∈ average -> k' <> Stats.sem_key k) ->
  k ∈ average ->
  exists (res : gmap string (list R)) (means : list R) (sizes : list nat),
    Stats.bin_by_events df bin_size sortby average = Ok res /\
    res !! k = Some (means ++ [0%R]) /\
    length means = length sizes /\
    Forall (fun size => (0 < size <= Z.to_nat bin_size)%nat) sizes /\
    sum_list sizes = Stats.len df /\
    Np.sum (zip_with (fun size mu => (INR size * mu)%R) sizes means)
    = Np.sum (col k (Stats.rows df)).
Proof.
  intros Hlen Hbin Hsortby Havg Hcoll Hk.
  set (b := Z.to_nat bin_size).
  assert (Hb : (0 < b)%nat) by (unfold b; lia).
  assert (Hbz : bin_size = Z.of_nat b) by (unfold b; lia).
  destruct (bin_by_events_run df b sortby average Hb Hsortby Havg Hcoll)
    as (sorted_df & res & _ & Hperm & Hrun & Hres).
  set (G := num_groups (Stats.len df) b) in *.
  set (rs := Stats.rows sorted_df) in *.
  assert (Hrlen : length rs = Stats.len df)
    by (unfold rs, Stats.len; apply Permutation_length; exact Hperm).
  destruct (num_groups_bounds (Stats.len df) b Hb Hlen) as (HG & Hlo & Hhi).
  fold G in HG, Hlo, Hhi.
  assert (Hconcat : concat (map (group b rs) (seq 0 G)) = rs)
    by (apply concat_groups; lia).
  assert (Hsizes : forall g, g ∈ seq 0 G ->
            (0 < length (group b rs g) <= b)%nat).
  { intros g Hg. apply elem_of_seq in Hg.
    apply group_sizes; [exact Hb | lia | rewrite Hrlen; fold G; lia]. }
  exists res, (map (fun g => Np.mean (col k (group b rs g))) (seq 0 G)),
         (map (fun g => length (group b rs g)) (seq 0 G)).
  split; [rewrite Hbz; exact Hrun|].
  split.
  { destruct (Hres k Hk) as [H1 _].
    replace (S G - G)%nat with 1%nat in H1 by lia. exact H1. }
  split; [rewrite !length_map; reflexivity|].
  split.
  { apply Forall_forall. intros size Hsize.
    apply list_elem_of_In, in_map_iff in Hsize as (g & <- & Hg).
    apply Hsizes, list_elem_of_In, Hg. }
  split.
  { transitivity (length (concat (map (group b rs) (seq 0 G))));
      [|rewrite Hconcat; exact Hrlen].
    clear. induction (seq 0 G) as [|g gs IH]; simpl.
    - reflexivity.
    - rewrite length_app, IH. reflexivity. }
  transitivity (Np.sum (col k (concat (map (group b rs) (seq 0 G)))));
    [|rewrite Hconcat; apply (sum_map_permutation (fun r => r k) rs _ Hperm)].
  assert (Hgen : forall gs, (forall g, g ∈ gs -> (0 < length (group b rs g))%nat) ->
    Np.sum (zip_with (fun size mu => (INR size * mu)%R)
              (map (fun g => length (group b rs g)) gs)
              (map (fun g => Np.mean (col k (group b rs g))) gs))
    = Np.sum (col k (concat (map (group b rs) gs)))).
  { induction gs as [|g gs IH]; intros Hpos; simpl; [reflexivity|].
    unfold col in *. rewrite map_app, sum_app.
    rewrite <- IH by (intros g' Hg'; apply Hpos; right; exact Hg').
    f_equal.
    rewrite <- (length_map (fun r : string -> R => r k) (group b rs g)).
    apply mean_times_length. intros E. apply (f_equal length) in E.
    rewrite length_map in E. simpl in E. specialize (Hpos g ltac:(left)). lia. }
  apply Hgen. intros g Hg. apply Hsizes. exact Hg.
Qed.

Lemma bin_by_events_conserves_total_witness :
  (0 < Stats.len events_df)%nat /\ (0 < 2)%Z /\
  exists res means sizes,
    Stats.bin_by_events events_df 2 "summed" ["summed"; "fluct"] = Ok res /\
    res !! "fluct" = Some (means ++ [0%R]) /\
    sum_list sizes = Stats.len events_df /\
    Np.sum (zip_with (fun size mu => (INR size * mu)%R) sizes means)
    = Np.sum (col "fluct" (Stats.rows events_df)).
Proof.
  assert (Hlen : (0 < Stats.len events_df)%nat) by (unfold Stats.len; simpl; lia).
  assert (Hbin : (0 < 2)%Z) by lia.
  assert (Hsort : "summed" ∈ Stats.columns events_df) by (simpl; left).
  assert (Havg : forall k, k ∈ ["summed"; "fluct"] -> k ∈ Stats.columns events_df)
    by (intros k Hk; exact Hk).
  assert (Hk : "fluct" ∈ ["summed"; "fluct"]) by (right; left).
  split; [exact Hlen|]. split; [exact Hbin|].
  destruct (bin_by_events_conserves_total events_df 2 "summed" ["summed"; "fluct"]
              "fluct" Hlen Hbin Hsort Havg events_without_collision Hk)
    as (res & means & sizes & Hrun & Hres & _ & _ & Hsum & Htot).
  exists res, means, sizes. auto.
Defined.

Lemma check_labels_missing (cols labels : list string) :
  Stats.missing_labels cols labels <> [] ->
  Stats.check_labels cols labels
  = Raise (KeyError (Stats.missing_message labels
                       (Stats.missing_labels cols labels))).
Proof.
  intros H. unfold Stats.check_labels.
  destruct (Stats.missing_labels cols labels); [done | reflexivity].
Qed.

(** A column that is missing raises [KeyError]: the [sortby] column
    always, by its name; and on a dataframe with rows the labels of
    [average] that are not columns, all of them in one error raised at
    the first bin. *)
Theorem bin_by_events_missing_column (df : Stats.DataFrame) (bin_size : Z)
    (sortby : string) (average : list string) :
  (sortby ∉ Stats.columns df ->
     Stats.bin_by_events df bin_size sortby average = Raise (KeyError sortby)) /\
  (sortby ∈ Stats.columns df -> (0 < Stats.len df)%nat -> (0 < bin_size)%Z ->
     forall k, k ∈ average -> k ∉ Stats.columns df ->
       k ∈ Stats.missing_labels (Stats.columns df) average /\
       Stats.bin_by_events df bin_size sortby average
       = Raise (KeyError
                  (Stats.missing_message average
                     (Stats.missing_labels (Stats.columns df) average)))).
Proof.
  split.
  - intros Hs. unfold Stats.bin_by_events, Stats.sort_values.
    rewrite bool_decide_eq_false_2 by assumption. reflexivity.
  - intros Hsortby Hlen Hbin k Hk Hmiss.
    assert (Hin : k ∈ Stats.missing_labels (Stats.columns df) average).
    { apply list_elem_of_In, filter_In. split; [apply list_elem_of_In; exact Hk|].
      rewrite bool_decide_eq_false_2 by exact Hmiss. reflexivity. }
    split; [exact Hin|].
    set (b := Z.to_nat bin_size).
    assert (Hb : (0 < b)%nat) by (unfold b; lia).
    assert (Hbz : bin_size = Z.of_nat b) by (unfold b; lia).
    clearbody b. subst bin_size.
    destruct (sort_values_ok df sortby Hsortby)
      as (sorted_df & Hsort & Hcols & _ & Hperm).
    assert (Hlen' : length (Stats.rows sorted_df) = Stats.len df)
      by (unfold Stats.len; apply Permutation_length; exact Hperm).
    destruct (num_groups_bounds (Stats.len df) b Hb Hlen) as (HG & _ & _).
    set (G := num_groups (Stats.len df) b) in *.
    pose proof (arange_bins (Stats.len df) b Hb) as Hbins. fold G in Hbins.
    unfold Stats.bin_by_events. rewrite Hsort.
    cbn [mbind result_bind]. unfold Stats.len at 1. rewrite Hlen', Hbins.
    cbn [mbind result_bind]. rewrite length_map, length_seq.
    replace (S G - 1)%nat with (S (G - 1)) by lia.
    change (seq 1 (S (G - 1))) with (1%nat :: seq 2 (G - 1)).
    cbn [Stats.for_fold]. unfold Stats.bin_step.
    rewrite (getitem_bins b Hb G (1 - 1)), (getitem_bins b Hb G 1) by lia.
    cbn [mbind result_bind].
    unfold Stats.select. cbn [Stats.iloc Stats.columns].
    rewrite Hcols, check_labels_missing; [reflexivity|].
    intros Hnil. rewrite Hnil in Hin. inversion Hin.
Qed.

Lemma bin_by_events_missing_column_witness :
  ("total" ∉ Stats.columns events_df) /\
  Stats.bin_by_events events_df 2 "total" ["summed"; "fluct"]
  = Raise (KeyError "total") /\
  ("yy" ∉ Stats.columns events_df) /\
  Stats.bin_by_events events_df 2 "summed" ["yy"; "summed"; "zz"]
  = Raise (KeyError "['yy', 'zz'] not in index").
Proof.
  assert (H : "total" ∉ Stats.columns events_df).
  { simpl. intros Hin.
    apply elem_of_cons in Hin as [Hin|Hin]; [discriminate|].
    apply list_elem_of_singleton in Hin. discriminate. }
  assert (Hyy : "yy" ∉ Stats.columns events_df).
  { simpl. intros Hin.
    apply elem_of_cons in Hin as [Hin|Hin]; [discriminate|].
    apply list_elem_of_singleton in Hin. discriminate. }
  assert (Hs : "summed" ∈ Stats.columns events_df) by (simpl; left).
  assert (Hlen : (0 < Stats.len events_df)%nat) by (unfold Stats.len; simpl; lia).
  assert (Hbin : (0 < 2)%Z) by lia.
  assert (Hk : "yy" ∈ ["yy"; "summed"; "zz"]) by left.
  pose proof (bin_by_events_missing_column events_df 2 "total"
                ["summed"; "fluct"]) as [H1 _].
  pose proof (bin_by_events_missing_column events_df 2 "summed"
                ["yy"; "summed"; "zz"]) as [_ H2].
  split; [exact H|]. split; [exact (H1 H)|]. split; [exact Hyy|].
  destruct (H2 Hs Hlen Hbin "yy" Hk Hyy) as [_ Hrun].
  rewrite Hrun. reflexivity.
Defined.

(** On a dataframe without rows no bin is visited: the result holds the
    one-element array [0.] under every key, and labels of [average] that
    are not columns go unnoticed. *)
Theorem bin_by_events_empty_frame (df : Stats.DataFrame) (bin_size : Z)
    (sortby : string) (average : list string) :
  Stats.rows df = [] -> (0 < bin_size)%Z -> sortby ∈ Stats.columns df ->
  Stats.bin_by_events df bin_size sortby average
  = Ok (Stats.init_averages average 1) /\
  forall k, k ∈ average ->
    Stats.init_averages average 1 !! k = Some [0%R] /\
    Stats.init_averages average 1 !! Stats.sem_key k = Some [0%R].
Proof.
  intros Hrows Hbin Hsortby. split.
  - set (b := Z.to_nat bin_size).
    assert (Hb : (0 < b)%nat) by (unfold b; lia).
    assert (Hbz : bin_size = Z.of_nat b) by (unfold b; lia).
    clearbody b. subst bin_size.
    unfold Stats.bin_by_events, Stats.sort_values.
    rewrite bool_decide_eq_true_2 by assumption.
    cbn [mbind result_bind]. unfold Stats.len. cbn [Stats.rows].
    rewrite Hrows. cbn [merge_sort length].
    change (merge_sort (Stats.row_le sortby) []) with (@nil (string -> R)).
    cbn [length].
    pose proof (arange_bins 0 b Hb) as Hbins.
    assert (HG : num_groups 0 b = 0%nat).
    { unfold num_groups. apply Nat.div_small. lia. }
    rewrite HG in Hbins. rewrite Hbins. reflexivity.
  - intros k Hk. apply (init_averages_lookup average 1 k Hk).
Qed.

Lemma bin_by_events_empty_frame_witness :
  Stats.rows (Stats.mkDF ["summed"] []) = [] /\ (0 < 50)%Z /\
  Stats.bin_by_events (Stats.mkDF ["summed"] []) 50 "summed" ["summed"; "fluct"]
  = Ok (Stats.init_averages ["summed"; "fluct"] 1).
Proof.
  assert (Hbin : (0 < 50)%Z) by lia.
  assert (Hs : "summed" ∈ Stats.columns (Stats.mkDF ["summed"] [])) by (simpl; left).
  split; [reflexivity|]. split; [exact Hbin|].
  exact (proj1 (bin_by_events_empty_frame (Stats.mkDF ["summed"] []) 50 "summed"
                  ["summed"; "fluct"] eq_refl Hbin Hs)).
Defined.

(** ** The stored posterior *)

Lemma entry_le_sum (xs : list R) (x : R) :
  Forall (fun y => (0 <= y)%R) xs -> x ∈ xs -> (x <= Np.sum xs)%R.
Proof.
  intros Hall Hin. induction Hall as [|y ys Hy Hys IH]; simpl.
  - apply elem_of_nil in Hin. contradiction.
  - assert (0 <= Np.sum ys)%R.
    { clear -Hys. induction Hys as [|z zs Hz _ IHz]; simpl; lra. }
    apply elem_of_cons in Hin as [->|Hin]; [lra|]. specialize (IH Hin). lra.
Qed.

(** In the frame stored for a replicate of [lin_final], [post] has one
    entry per entry of [log_post], every posterior value lies in [0, 1],
    and the posterior never reverses the order of the log posterior: a
    grid point whose [log_post] is at least that of another has a [post]
    at least that of the other, so a grid point of largest [log_post] is
    one of largest [post]. *)
Theorem stored_posterior_follows_log_posterior (gammaln : R -> R)
    (lin_sub : list CalFactor.lineage)
    (gd : CalFactor.replicate_key * list CalFactor.lineage) :
  gd ∈ CalFactor.groupby (CalFactor.lin_final lin_sub) ->
  exists df,
    CalFactor.eval_group gammaln gd = Ok df /\
    length (CalFactor.post df) = length (CalFactor.log_post df) /\
    (forall p, p ∈ CalFactor.post df -> (0 <= p <= 1)%R) /\
    (forall i j pi pj li lj,
       CalFactor.post df !! i = Some pi -> CalFactor.post df !! j = Some pj ->
       CalFactor.log_post df !! i = Some li ->
       CalFactor.log_post df !! j = Some lj ->
       (li <= lj)%R -> (pi <= pj)%R) /\
    (forall j pj lj,
       CalFactor.post df !! j = Some pj -> CalFactor.log_post df !! j = Some lj ->
       (forall l, l ∈ CalFactor.log_post df -> (l <= lj)%R) ->
       forall p, p ∈ CalFactor.post df -> (p <= pj)%R).
Proof.
  intros Hgd. destruct (eval_group_ok gammaln lin_sub gd Hgd) as (df & Hrun & Hf).
  destruct Hf as (_ & _ & _ & Hpost & _ & Hsum).
  assert (Hmono : forall i j pi pj li lj,
            CalFactor.post df !! i = Some pi -> CalFactor.post df !! j = Some pj ->
            CalFactor.log_post df !! i = Some li ->
            CalFactor.log_post df !! j = Some lj ->
            (li <= lj)%R -> (pi <= pj)%R).
  { intros i j pi pj li lj Hpi Hpj Hli Hlj H.
    rewrite Hpost in Hpi, Hpj.
    change (map ?f ?l) with (f <$> l) in Hpi, Hpj.
    rewrite list_lookup_fmap, Hli in Hpi. rewrite list_lookup_fmap, Hlj in Hpj.
    simpl in Hpi, Hpj. injection Hpi as <-. injection Hpj as <-.
    destruct H as [Hlt|Heq].
    - left. apply exp_increasing. lra.
    - right. rewrite Heq. reflexivity. }
  exists df. split; [exact Hrun|].
  split; [rewrite Hpost, length_map; reflexivity|].
  split; [|split].
  - intros p Hp.
    assert (Hpos : Forall (fun y => (0 <= y)%R) (CalFactor.post df)).
    { rewrite Hpost. apply Forall_forall. intros y Hy.
      apply list_elem_of_In, in_map_iff in Hy as (l & <- & _). left. apply exp_pos. }
    split.
    + rewrite Forall_forall in Hpos. apply Hpos. exact Hp.
    + rewrite <- Hsum. apply entry_le_sum; assumption.
  - exact Hmono.
  - intros j pj lj Hpj Hlj Hmax p Hp.
    apply list_elem_of_lookup in Hp as [i Hpi].
    assert (Hi : (i < length (CalFactor.log_post df))%nat).
    { apply lookup_lt_Some in Hpi. rewrite Hpost, length_map in Hpi. exact Hpi. }
    destruct (lookup_lt_is_Some_2 _ _ Hi) as [li Hli].
    apply (Hmono i j p pj li lj Hpi Hpj Hli Hlj).
    apply Hmax. eapply list_elem_of_lookup_2. exact Hli.
Qed.

Lemma stored_posterior_follows_log_posterior_witness :
  exists df,
    CalFactor.eval_group ln
      (("glucose", 37%Z, 20181005%Z, 2%Z),
       [CalFactor.mkLineage "glucose" 37 20181005 2 1200 1100]) = Ok df /\
    forall p, p ∈ CalFactor.post df -> (0 <= p <= 1)%R.
Proof.
  assert (Hgd : (("glucose", 37%Z, 20181005%Z, 2%Z),
                 [CalFactor.mkLineage "glucose" 37 20181005 2 1200 1100])
                ∈ CalFactor.groupby
                    (CalFactor.lin_final
                       [CalFactor.mkLineage "glucose" 37 20181005 2 1200 1100])).
  { unfold CalFactor.lin_final, CalFactor.keep. simpl.
    float_decide. simpl. unfold CalFactor.groupby. simpl.
    apply list_elem_of_singleton. reflexivity. }
  destruct (stored_posterior_follows_log_posterior ln _ _ Hgd)
    as (df & Hrun & _ & Hrange & _).
  exists df. split; [exact Hrun | exact Hrange].
Defined.

(** ** The loop of [compile_data.py] *)

Section CompileLoop.
Variable frame : Type.
Variable read_csv : string -> result frame.
Variable concat : list frame -> frame.

#[local] Abbreviation step := (CompileData.compile_step frame read_csv).

Lemma compile_step_skips (acc : list frame * list frame)
    (d : CompileData.experiment) :
  is_Some (CompileData.info d !! "status") -> accepted d = false ->
  step acc d = Ok acc.
Proof.
  intros [status Hs] Hacc. unfold accepted in Hacc. rewrite Hs in Hacc.
  unfold CompileData.compile_step, CompileData.dict_get. rewrite Hs.
  cbn [mbind result_bind]. rewrite Hacc. reflexivity.
Qed.

Lemma compile_step_accepts (acc : list frame * list frame)
    (d : CompileData.experiment) (r : list frame * list frame) :
  accepted d = true ->
  step acc d = Ok r <->
  exists f1 f2,
    loads read_csv (CompileData.fluct_glob d) f1 /\
    loads read_csv (CompileData.fc_glob d) f2 /\
    r = (acc.1 ++ [f1], acc.2 ++ [f2]).
Proof.
  intros Hacc. unfold accepted in Hacc.
  destruct (CompileData.info d !! "status") as [status|] eqn:Hs; [|discriminate].
  unfold CompileData.compile_step, CompileData.dict_get, loads. rewrite Hs.
  cbn [mbind result_bind]. rewrite Hacc.
  destruct (CompileData.fluct_glob d) as [|p1 ps1]; simpl.
  { split; [discriminate | intros (f1 & f2 & (p & Hp & _) & _); discriminate]. }
  destruct (read_csv p1) as [f1|e1] eqn:E1; simpl.
  2:{ split; [discriminate|].
      intros (f1 & f2 & (p & [= <-] & Hr) & _). congruence. }
  destruct (CompileData.fc_glob d) as [|p2 ps2]; simpl.
  { split; [discriminate | intros (g1 & f2 & _ & (p & Hp & _) & _); discriminate]. }
  destruct (read_csv p2) as [f2|e2] eqn:E2; simpl.
  2:{ split; [discriminate|].
      intros (g1 & g2 & _ & (p & [= <-] & Hr) & _). congruence. }
  split.
  - intros [= <-]. exists f1, f2.
    split; [exists p1; split; [reflexivity | exact E1]|].
    split; [exists p2; split; [reflexivity | exact E2]|]. reflexivity.
  - intros (g1 & g2 & (q1 & [= <-] & Hr1) & (q2 & [= <-] & Hr2) & ->).
    congruence.
Qed.

Lemma compile_fold_spec (dil_exp : list CompileData.experiment)
    (acc : list frame * list frame) (fl fc : list frame) :
  Stats.for_fold step acc dil_exp = Ok (fl, fc) <->
  (forall d, d ∈ dil_exp -> is_Some (CompileData.info d !! "status")) /\
  exists fl' fc',
    fl = acc.1 ++ fl' /\ fc = acc.2 ++ fc' /\
    Forall2 (fun d f => loads read_csv (CompileData.fluct_glob d) f)
            (List.filter accepted dil_exp) fl' /\
    Forall2 (fun d f => loads read_csv (CompileData.fc_glob d) f)
            (List.filter accepted dil_exp) fc'.
Proof.
  revert acc. induction dil_exp as [|d ds IH]; intros acc.
  - simpl. split.
    + intros [= ->]. split; [intros d Hd; apply elem_of_nil in Hd; contradiction|].
      exists [], []. simpl. rewrite !app_nil_r. repeat split; constructor.
    + intros (_ & fl' & fc' & -> & -> & H1 & H2).
      apply Forall2_nil_inv_l in H1, H2. subst. rewrite !app_nil_r.
      destruct acc. reflexivity.
  - cbn [Stats.for_fold List.filter].
    destruct (CompileData.info d !! "status") as [status|] eqn:Hs.
    2:{ split.
        - unfold CompileData.compile_step, CompileData.dict_get. rewrite Hs.
          discriminate.
        - intros (Hall & _). destruct (Hall d ltac:(left)) as [? ?]. congruence. }
    destruct (accepted d) eqn:Hacc.
    + split.
      * destruct (step acc d) as [r|e] eqn:Hstep; [|discriminate].
        cbn [mbind result_bind]. intros Hrest.
        apply (compile_step_accepts acc d r Hacc) in Hstep
          as (f1 & f2 & L1 & L2 & ->).
        apply IH in Hrest as (Hall & fl' & fc' & -> & -> & H1 & H2). simpl.
        split.
        { intros d' Hd'. apply elem_of_cons in Hd' as [->|Hd']; [eauto | auto]. }
        exists (f1 :: fl'), (f2 :: fc'). rewrite <- !app_assoc. simpl.
        repeat split; try constructor; assumption.
      * intros (Hall & fl' & fc' & -> & -> & H1 & H2).
        apply Forall2_cons_inv_l in H1 as (f1 & fl'' & L1 & H1 & ->).
        apply Forall2_cons_inv_l in H2 as (f2 & fc'' & L2 & H2 & ->).
        assert (Hstep : step acc d = Ok (acc.1 ++ [f1], acc.2 ++ [f2])).
        { apply compile_step_accepts; [exact Hacc|]. exists f1, f2. auto. }
        rewrite Hstep. cbn [mbind result_bind]. apply IH.
        split; [intros d' Hd'; apply Hall; right; exact Hd'|].
        exists fl'', fc''. simpl. rewrite <- !app_assoc. simpl. auto.
    + rewrite compile_step_skips by eauto. cbn [mbind result_bind].
      rewrite IH. split.
      * intros (Hall & Hrest). split; [|exact Hrest].
        intros d' Hd'. apply elem_of_cons in Hd' as [->|Hd']; [eauto | auto].
      * intros (Hall & Hrest). split; [|exact Hrest].
        intros d' Hd'. apply Hall. right. exact Hd'.
Qed.

(** The loop returns exactly when every README carries a status and both
    CSV files of every accepted experiment are found and read; it then
    holds one fluctuation frame and one fold-change frame per accepted
    experiment, in the order of the experiments, and the files of the
    other experiments are never looked for. *)
Theorem compile_loop_collects_accepted (dil_exp : list CompileData.experiment)
    (fluct_dfs fc_dfs : list frame) :
  CompileData.compile_loop frame read_csv dil_exp = Ok (fluct_dfs, fc_dfs) <->
  (forall d, d ∈ dil_exp -> is_Some (CompileData.info d !! "status")) /\
  Forall2 (fun d f => loads read_csv (CompileData.fluct_glob d) f)
          (List.filter accepted dil_exp) fluct_dfs /\
  Forall2 (fun d f => loads read_csv (CompileData.fc_glob d) f)
          (List.filter accepted dil_exp) fc_dfs.
Proof.
  unfold CompileData.compile_loop. rewrite compile_fold_spec. simpl. split.
  - intros (Hall & fl' & fc' & -> & -> & H1 & H2). auto.
  - intros (Hall & H1 & H2). split; [exact Hall|]. exists fluct_dfs, fc_dfs. auto.
Qed.

(** When every README carries a status and none of them is accepted, the
    loop leaves two empty lists and the script stops at [pd.concat] with
    [ValueError]. *)
Theorem compile_frames_without_accepted (dil_exp : list CompileData.experiment) :
  (forall d, d ∈ dil_exp ->
     is_Some (CompileData.info d !! "status") /\ accepted d = false) ->
  CompileData.compile_loop frame read_csv dil_exp = Ok ([], []) /\
  CompileData.compile_frames frame read_csv concat dil_exp
  = Raise (ValueError "No objects to concatenate").
Proof.
  intros Hall.
  assert (Hfilter : List.filter accepted dil_exp = []).
  { induction dil_exp as [|d ds IH]; simpl; [reflexivity|].
    destruct (Hall d ltac:(left)) as [_ ->]. apply IH.
    intros d' Hd'. apply Hall. right. exact Hd'. }
  assert (Hloop : CompileData.compile_loop frame read_csv dil_exp = Ok ([], [])).
  { unfold CompileData.compile_loop. apply compile_fold_spec. simpl.
    split; [intros d Hd; apply Hall; exact Hd|].
    exists [], []. rewrite Hfilter. repeat split; constructor. }
  split; [exact Hloop|].
  unfold CompileData.compile_frames. rewrite Hloop. reflexivity.
Qed.

End CompileLoop.

Lemma compile_frames_without_accepted_witness :
  (forall d,
     d ∈ [CompileData.mkExp {["status" := "Rejected"]} [] []] ->
     is_Some (CompileData.info d !! "status") /\ accepted d = false) /\
  CompileData.compile_frames unit (fun _ => Ok tt) (fun _ => tt)
    [CompileData.mkExp {["status" := "Rejected"]} [] []]
  = Raise (ValueError "No objects to concatenate").
Proof.
  assert (H : forall d,
     d ∈ [CompileData.mkExp {["status" := "Rejected"]} [] []] ->
     is_Some (CompileData.info d !! "status") /\ accepted d = false).
  { intros d Hd. apply list_elem_of_singleton in Hd as ->.
    split; [exists "Rejected"; reflexivity | reflexivity]. }
  split; [exact H|].
  exact (proj2 (compile_frames_without_accepted unit (fun _ => Ok tt) (fun _ => tt)
                  _ H)).
Defined.

(** ** bin_by_value *)

Lemma insert_next {A : Type} (xs : list A) (len j : nat) (v z : A) :
  length xs = j -> (j < len)%nat ->
  <[j := v]> (xs ++ replicate (len - j) z) = (xs ++ [v]) ++ replicate (len - S j) z.
Proof.
  intros <- Hlt.
  replace (len - length xs)%nat with (S (len - S (length xs))) by lia. simpl.
  rewrite <- (Nat.add_0_r (length xs)) at 1.
  rewrite insert_app_r, <- app_assoc. reflexivity.
Qed.

Lemma array_set_next (xs : list (option R)) (len j : nat) (v : option R) :
  length xs = j -> (j < len)%nat ->
  CalFactor.array_set (xs ++ replicate (len - j) (Some 0%R)) j v
  = Ok ((xs ++ [v]) ++ replicate (len - S j) (Some 0%R)).
Proof.
  intros Hxs Hlt. unfold CalFactor.array_set.
  rewrite bool_decide_eq_true_2
    by (rewrite length_app, length_replicate; lia).
  rewrite insert_next by assumption. reflexivity.
Qed.

Lemma bin_by_value_unfold (df : Stats.DataFrame) (bins : list R) :
  bins <> [] ->
  CalFactor.bin_by_value df bins
  = (arrs ← Stats.for_fold (CalFactor.bin_value_step df bins)
              (CalFactor.mkArrays
                 (replicate (length bins - 1) (Some 0%R))
                 (replicate (length bins - 1) (Some 0%R))
                 (replicate (length bins - 1) (Some 0%R))
                 (replicate (length bins - 1) (Some 0%R)))
              (seq 0 (length bins - 1));
     Ok (CalFactor.assemble arrs)).
Proof. intros Hne. destruct bins; [done | reflexivity]. Qed.

Section BinByValue.
Variable df : Stats.DataFrame.
Variable bins : list R.
Hypothesis has_summed : "summed" ∈ Stats.columns df.
Hypothesis has_fluct : "fluct" ∈ Stats.columns df.

#[local] Abbreviation len := (length bins - 1)%nat.

(** The arrays after the first [j] bins. *)
Let arrays_after (j : nat) : CalFactor.bin_arrays :=
  CalFactor.mkArrays
    (map (fun i => CalFactor.summed_mean (binned_of df bins i)) (seq 0 j)
     ++ replicate (len - j) (Some 0%R))
    (map (fun i => CalFactor.fluct_mean (binned_of df bins i)) (seq 0 j)
     ++ replicate (len - j) (Some 0%R))
    (map (fun i => CalFactor.summed_sem (binned_of df bins i)) (seq 0 j)
     ++ replicate (len - j) (Some 0%R))
    (map (fun i => CalFactor.fluct_sem (binned_of df bins i)) (seq 0 j)
     ++ replicate (len - j) (Some 0%R)).

Lemma bin_value_step_ok (j : nat) :
  (j < len)%nat ->
  CalFactor.bin_value_step df bins (arrays_after j) j = Ok (arrays_after (S j)).
Proof.
  intros Hj. unfold CalFactor.bin_value_step, Stats.getitem.
  destruct (lookup_lt_is_Some_2 bins j ltac:(lia)) as [b_lo Hlo].
  destruct (lookup_lt_is_Some_2 bins (j + 1) ltac:(lia)) as [b_hi Hhi].
  rewrite Hlo, Hhi. cbn [mbind result_bind].
  unfold Stats.values, arrays_after.
  cbn [Stats.columns Stats.rows CalFactor.summed_means CalFactor.fluct_means
       CalFactor.summed_sems CalFactor.fluct_sems].
  repeat first
    [ rewrite bool_decide_eq_true_2 by assumption
    | rewrite array_set_next
        by (try rewrite length_map, length_seq; try reflexivity; lia)
    | progress cbn [mbind result_bind] ].
  rewrite seq_S, !map_app. cbn [map]. change (0 + j)%nat with j.
  assert (Hrow : binned_of df bins j
    = let samps := List.filter (CalFactor.in_bin (b_lo - 1) (b_hi + 1))
                     (Stats.rows df) in
      let sm := CalFactor.nan_mean (col "summed" samps) in
      let ss := CalFactor.nan_sem (col "summed" samps) (length samps) in
      let fm := CalFactor.nan_mean (col "fluct" samps) in
      let fs := CalFactor.nan_sem (col "fluct" samps) (length samps) in
      CalFactor.mkBinned sm ss fm fs
        (CalFactor.nan_sub sm ss) (CalFactor.nan_add sm ss)
        (CalFactor.nan_sub fm fs) (CalFactor.nan_add fm fs)).
  { unfold binned_of, bin_samples. rewrite Hlo, Hhi. reflexivity. }
  rewrite Hrow.
  cbn [CalFactor.summed_mean CalFactor.fluct_mean CalFactor.summed_sem
       CalFactor.fluct_sem Nat.add].
  unfold col, Stats.len. cbn [Stats.rows]. reflexivity.
Qed.

Lemma bin_value_loop (n j : nat) :
  (j + n = len)%nat ->
  Stats.for_fold (CalFactor.bin_value_step df bins) (arrays_after j) (seq j n)
  = Ok (arrays_after len).
Proof.
  revert j. induction n as [|n IH]; intros j Hjn.
  - simpl. replace j with len by lia. reflexivity.
  - cbn [seq Stats.for_fold]. rewrite bin_value_step_ok by lia.
    cbn [mbind result_bind]. apply IH. lia.
Qed.

Lemma assemble_arrays :
  CalFactor.assemble (arrays_after len) = map (binned_of df bins) (seq 0 len).
Proof.
  unfold CalFactor.assemble, arrays_after.
  cbn [CalFactor.summed_means CalFactor.fluct_means
       CalFactor.summed_sems CalFactor.fluct_sems].
  rewrite Nat.sub_diag. simpl replicate. rewrite !app_nil_r.
  induction (seq 0 len) as [|i l IH]; [reflexivity|].
  cbn [map zip zip_with]. rewrite IH. reflexivity.
Qed.

Lemma bin_by_value_rows :
  bins <> [] ->
  CalFactor.bin_by_value df bins = Ok (map (binned_of df bins) (seq 0 len)).
Proof.
  intros Hne. rewrite bin_by_value_unfold by exact Hne.
  assert (Hstart : CalFactor.mkArrays
            (replicate len (Some 0%R)) (replicate len (Some 0%R))
            (replicate len (Some 0%R)) (replicate len (Some 0%R))
          = arrays_after 0).
  { unfold arrays_after. rewrite Nat.sub_0_r. reflexivity. }
  rewrite Hstart, (bin_value_loop len 0) by lia. cbn [mbind result_bind].
  rewrite assemble_arrays. reflexivity.
Qed.

End BinByValue.

Lemma mean_between (xs : list R) (lo hi : R) :
  xs <> [] -> Forall (fun x => (lo <= x <= hi)%R) xs ->
  (lo <= Np.mean xs <= hi)%R.
Proof.
  intros Hne Hall.
  assert (Hsum : (INR (length xs) * lo <= Np.sum xs <= INR (length xs) * hi)%R).
  { clear Hne. induction Hall as [|x xs Hx _ IH].
    - simpl. lra.
    - change (length (x :: xs)) with (S (length xs)). rewrite S_INR. simpl Np.sum. lra. }
  assert (Hn : (0 < INR (length xs))%R)
    by (apply lt_0_INR; destruct xs; [done | simpl; lia]).
  unfold Np.mean. split.
  - apply Rmult_le_reg_l with (INR (length xs)); [exact Hn|].
    replace (INR (length xs) * (Np.sum xs / INR (length xs)))%R with (Np.sum xs)
      by (field; lra). lra.
  - apply Rmult_le_reg_l with (INR (length xs)); [exact Hn|].
    replace (INR (length xs) * (Np.sum xs / INR (length xs)))%R with (Np.sum xs)
      by (field; lra). lra.
Qed.

Lemma sem_value_nonneg (xs : list R) (n : nat) :
  (0 < n)%nat -> (0 <= Np.std xs / sqrt (INR n))%R.
Proof.
  intros Hn. apply Rmult_le_pos; [apply sqrt_pos|].
  left. apply Rinv_0_lt_compat, sqrt_lt_R0, lt_0_INR. exact Hn.
Qed.

Lemma in_bin_spec (lower upper : R) (r : string -> R) :
  CalFactor.in_bin lower upper r = true <-> (lower <= r "summed" <= upper)%R.
Proof.
  unfold CalFactor.in_bin, float_lt.
  destruct (Rlt_dec (r "summed") lower), (Rlt_dec upper (r "summed")); simpl;
    split; intros H; try discriminate; try reflexivity; lra.
Qed.

Lemma bin_value_step_missing_summed (df : Stats.DataFrame) (bins : list R)
    (arrs : CalFactor.bin_arrays) (i : nat) (b_lo b_hi : R) :
  bins !! i = Some b_lo -> bins !! (i + 1)%nat = Some b_hi ->
  "summed" ∉ Stats.columns df ->
  CalFactor.bin_value_step df bins arrs i = Raise (KeyError "summed").
Proof.
  intros Hlo Hhi Hs. unfold CalFactor.bin_value_step, Stats.getitem.
  rewrite Hlo, Hhi. cbn [mbind result_bind]. unfold Stats.values.
  cbn [Stats.columns Stats.rows].
  rewrite (bool_decide_eq_false_2 ("summed" ∈ Stats.columns df)) by exact Hs.
  reflexivity.
Qed.

Lemma bin_value_step_missing_fluct (df : Stats.DataFrame) (bins : list R)
    (arrs : CalFactor.bin_arrays) (i : nat) (b_lo b_hi : R) :
  bins !! i = Some b_lo -> bins !! (i + 1)%nat = Some b_hi ->
  "summed" ∈ Stats.columns df -> "fluct" ∉ Stats.columns df ->
  (i < length (CalFactor.summed_means arrs))%nat ->
  CalFactor.bin_value_step df bins arrs i = Raise (KeyError "fluct").
Proof.
  intros Hlo Hhi Hs Hf Hi. unfold CalFactor.bin_value_step, Stats.getitem.
  rewrite Hlo, Hhi. cbn [mbind result_bind]. unfold Stats.values.
  cbn [Stats.columns Stats.rows].
  rewrite (bool_decide_eq_true_2 ("summed" ∈ Stats.columns df)) by exact Hs.
  rewrite (bool_decide_eq_false_2 ("fluct" ∈ Stats.columns df)) by exact Hf.
  cbn [mbind result_bind]. unfold CalFactor.array_set at 1.
  rewrite (bool_decide_eq_true_2 (i < length (CalFactor.summed_means arrs))%nat)
    by exact Hi.
  reflexivity.
Qed.

(** [bin_by_value] fails on an empty list of bins, returns an empty frame
    for a single bin edge without looking at the columns, raises
    [KeyError] on a missing [summed] or [fluct] column as soon as there is
    a bin, and otherwise returns one row per pair of consecutive edges. *)
Theorem bin_by_value_shape_and_errors (df : Stats.DataFrame) (bins : list R) :
  CalFactor.bin_by_value df []
  = Raise (ValueError "negative dimensions are not allowed") /\
  (forall b, CalFactor.bin_by_value df [b] = Ok []) /\
  ("summed" ∉ Stats.columns df -> (2 <= length bins)%nat ->
     CalFactor.bin_by_value df bins = Raise (KeyError "summed")) /\
  ("summed" ∈ Stats.columns df -> "fluct" ∉ Stats.columns df ->
     (2 <= length bins)%nat ->
     CalFactor.bin_by_value df bins = Raise (KeyError "fluct")) /\
  ("summed" ∈ Stats.columns df -> "fluct" ∈ Stats.columns df -> bins <> [] ->
     exists rows,
       CalFactor.bin_by_value df bins = Ok rows /\
       length rows = (length bins - 1)%nat).
Proof.
  split; [reflexivity|]. split; [intros b; reflexivity|].
  split; [|split].
  - intros Hs Hlen. destruct bins as [|b0 [|b1 bs]]; simpl in Hlen; try lia.
    unfold CalFactor.bin_by_value.
    change (length (b0 :: b1 :: bs) - 1)%nat with (S (length bs)).
    cbn [seq Stats.for_fold].
    rewrite (bin_value_step_missing_summed df (b0 :: b1 :: bs) _ 0 b0 b1
               eq_refl eq_refl Hs).
    reflexivity.
  - intros Hs Hf Hlen. destruct bins as [|b0 [|b1 bs]]; simpl in Hlen; try lia.
    unfold CalFactor.bin_by_value.
    change (length (b0 :: b1 :: bs) - 1)%nat with (S (length bs)).
    cbn [seq Stats.for_fold].
    rewrite (bin_value_step_missing_fluct df (b0 :: b1 :: bs) _ 0 b0 b1
               eq_refl eq_refl Hs Hf).
    + reflexivity.
    + cbn [CalFactor.summed_means replicate length]. lia.
  - intros Hs Hf Hne. eexists. split; [apply bin_by_value_rows; assumption|].
    rewrite length_map, length_seq. reflexivity.
Qed.

Lemma bin_by_value_shape_and_errors_witness :
  "summed" ∈ Stats.columns events_df /\ "fluct" ∈ Stats.columns events_df /\
  [100; 1000; 10000]%R <> [] /\
  exists rows,
    CalFactor.bin_by_value events_df [100; 1000; 10000]%R = Ok rows /\
    length rows = 2%nat.
Proof.
  assert (Hs : "summed" ∈ Stats.columns events_df) by (simpl; left).
  assert (Hf : "fluct" ∈ Stats.columns events_df) by (simpl; right; left).
  assert (Hne : [100; 1000; 10000]%R <> []) by discriminate.
  split; [exact Hs|]. split; [exact Hf|]. split; [exact Hne|].
  exact (proj2 (proj2 (proj2 (proj2
           (bin_by_value_shape_and_errors events_df [100; 1000; 10000]%R))))
           Hs Hf Hne).
Defined.

(** In the row of a bin: with no sample in the bin every entry is [nan];
    otherwise the mean of [summed] lies between the widened edges
    [bins[i] - 1] and [bins[i+1] + 1], and each mean lies between its
    [_min] and [_max] column. *)
Theorem bin_by_value_row_values (df : Stats.DataFrame) (bins : list R) (i : nat) :
  "summed" ∈ Stats.columns df -> "fluct" ∈ Stats.columns df ->
  (i + 1 < length bins)%nat ->
  exists rows row b_lo b_hi,
    CalFactor.bin_by_value df bins = Ok rows /\ rows !! i = Some row /\
    bins !! i = Some b_lo /\ bins !! (i + 1)%nat = Some b_hi /\
    (bin_samples df bins i = [] ->
       row = CalFactor.mkBinned None None None None None None None None) /\
    (bin_samples df bins i <> [] ->
       nan_between (Some (b_lo - 1)%R) (CalFactor.summed_mean row)
                   (Some (b_hi + 1)%R) /\
       nan_between (CalFactor.summed_min row) (CalFactor.summed_mean row)
                   (CalFactor.summed_max row) /\
       nan_between (CalFactor.fluct_min row) (CalFactor.fluct_mean row)
                   (CalFactor.fluct_max row)).
Proof.
  intros Hs Hf Hi.
  assert (Hne : bins <> []) by (intros ->; simpl in Hi; lia).
  destruct (lookup_lt_is_Some_2 bins i ltac:(lia)) as [b_lo Hlo].
  destruct (lookup_lt_is_Some_2 bins (i + 1) ltac:(lia)) as [b_hi Hhi].
  exists (map (binned_of df bins) (seq 0 (length bins - 1))),
         (binned_of df bins i), b_lo, b_hi.
  split; [apply bin_by_value_rows; assumption|].
  split.
  { change (map ?f ?l) with (f <$> l).
    rewrite list_lookup_fmap, lookup_seq_lt by lia. reflexivity. }
  split; [exact Hlo|]. split; [exact Hhi|].
  unfold binned_of. split.
  - intros ->. reflexivity.
  - intros Hsamps.
    assert (Hin : Forall (fun r => (b_lo - 1 <= r "summed" <= b_hi + 1)%R)
                         (bin_samples df bins i)).
    { unfold bin_samples. rewrite Hlo, Hhi. apply Forall_forall. intros r Hr.
      apply list_elem_of_In, filter_In in Hr as [_ Hr]. apply in_bin_spec. exact Hr. }
    destruct (bin_samples df bins i) as [|r rs] eqn:E; [done|].
    assert (Hlen : (0 < length (r :: rs))%nat) by (simpl; lia).
    cbn [col map CalFactor.nan_mean CalFactor.nan_sem CalFactor.summed_mean
         CalFactor.summed_min CalFactor.summed_max CalFactor.fluct_mean
         CalFactor.fluct_min CalFactor.fluct_max CalFactor.nan_sub
         CalFactor.nan_add].
    pose proof (sem_value_nonneg (r "summed" :: map (fun r => r "summed") rs)
                  (length (r :: rs)) Hlen) as Hs1.
    pose proof (sem_value_nonneg (r "fluct" :: map (fun r => r "fluct") rs)
                  (length (r :: rs)) Hlen) as Hs2.
    split; [|split].
    + do 3 eexists. split; [reflexivity|]. split; [reflexivity|].
      split; [reflexivity|].
      apply (mean_between (col "summed" (r :: rs))); [discriminate|].
      unfold col. apply Forall_map. exact Hin.
    + do 3 eexists. split; [reflexivity|]. split; [reflexivity|].
      split; [reflexivity|]. lra.
    + do 3 eexists. split; [reflexivity|]. split; [reflexivity|].
      split; [reflexivity|]. lra.
Qed.

Lemma bin_by_value_row_values_witness :
  "summed" ∈ Stats.columns events_df /\ "fluct" ∈ Stats.columns events_df /\
  (0 + 1 < length [100; 1000; 10000]%R)%nat /\
  exists rows row,
    CalFactor.bin_by_value events_df [100; 1000; 10000]%R = Ok rows /\
    rows !! 0%nat = Some row.
Proof.
  assert (Hs : "summed" ∈ Stats.columns events_df) by (simpl; left).
  assert (Hf : "fluct" ∈ Stats.columns events_df) by (simpl; right; left).
  assert (Hi : (0 + 1 < length [100; 1000; 10000]%R)%nat) by (simpl; lia).
  split; [exact Hs|]. split; [exact Hf|]. split; [exact Hi|].
  destruct (bin_by_value_row_values events_df [100; 1000; 10000]%R 0 Hs Hf Hi)
    as (rows & row & _ & _ & Hrun & Hrow & _).
  exists rows, row. split; [exact Hrun | exact Hrow].
Defined.

(** The bins overlap: a row whose [summed] is within 1 of an interior edge
    is among the samples averaged for the bin below the edge and among
    those averaged for the bin above it, so it enters two rows of the
    result. *)
Theorem bin_by_value_counts_edge_rows_twice (df : Stats.DataFrame)
    (bins : list R) (i : nat) (b0 b1 b2 : R) (r : string -> R) :
  "summed" ∈ Stats.columns df -> "fluct" ∈ Stats.columns df ->
  bins !! i = Some b0 -> bins !! (i + 1)%nat = Some b1 ->
  bins !! (i + 2)%nat = Some b2 ->
  (b0 <= b1 <= b2)%R -> r ∈ Stats.rows df ->
  (b1 - 1 <= r "summed" <= b1 + 1)%R ->
  exists rows,
    CalFactor.bin_by_value df bins = Ok rows /\
    (rows !! i = Some (binned_of df bins i)) /\
    (rows !! (i + 1)%nat = Some (binned_of df bins (i + 1))) /\
    (r ∈ bin_samples df bins i) /\ (r ∈ bin_samples df bins (i + 1)).
Proof.
  intros Hs Hf H0 H1 H2 Hord Hr Hedge.
  assert (Hlen : (i + 2 < length bins)%nat)
    by (apply lookup_lt_is_Some_1; eauto).
  assert (Hne : bins <> []) by (intros ->; simpl in Hlen; lia).
  exists (map (binned_of df bins) (seq 0 (length bins - 1))).
  split; [apply bin_by_value_rows; assumption|].
  change (map ?f ?l) with (f <$> l).
  rewrite !list_lookup_fmap, !lookup_seq_lt by lia.
  split; [reflexivity|]. split; [reflexivity|].
  unfold bin_samples.
  replace (i + 1 + 1)%nat with (i + 2)%nat by lia.
  rewrite H0, H1, H2.
  split; apply list_elem_of_In, filter_In;
    (split; [apply list_elem_of_In; exact Hr | apply in_bin_spec; lra]).
Qed.

Lemma bin_by_value_counts_edge_rows_twice_witness :
  (event 1000 2500
     ∈ Stats.rows (Stats.mkDF ["summed"; "fluct"] [event 1000 2500])) /\
  exists rows,
    CalFactor.bin_by_value (Stats.mkDF ["summed"; "fluct"] [event 1000 2500])
      [100; 1000; 10000]%R = Ok rows /\
    (rows !! 0%nat
     = Some (binned_of (Stats.mkDF ["summed"; "fluct"] [event 1000 2500])
               [100; 1000; 10000]%R 0)) /\
    (rows !! (0 + 1)%nat
     = Some (binned_of (Stats.mkDF ["summed"; "fluct"] [event 1000 2500])
               [100; 1000; 10000]%R (0 + 1))) /\
    (event 1000 2500
       ∈ bin_samples (Stats.mkDF ["summed"; "fluct"] [event 1000 2500])
           [100; 1000; 10000]%R 0) /\
    (event 1000 2500
       ∈ bin_samples (Stats.mkDF ["summed"; "fluct"] [event 1000 2500])
           [100; 1000; 10000]%R (0 + 1)).
Proof.
  assert (Hr : event 1000 2500
               ∈ Stats.rows (Stats.mkDF ["summed"; "fluct"] [event 1000 2500]))
    by (simpl; left).
  split; [exact Hr|].
  refine (bin_by_value_counts_edge_rows_twice
            (Stats.mkDF ["summed"; "fluct"] [event 1000 2500])
            [100; 1000; 10000]%R 0 100 1000 10000 (event 1000 2500)
            _ _ eq_refl eq_refl eq_refl _ Hr _).
  - simpl. left.
  - simpl. right. left.
  - lra.
  - unfold event. simpl. lra.
Defined.

(** ** [ecdf]: what the fractions count *)

Lemma filter_length_permutation {A : Type} (f : A -> bool) (xs ys : list A) :
  xs ≡ₚ ys -> length (List.filter f xs) = length (List.filter f ys).
Proof.
  induction 1 as [|a xs ys _ IH|a b xs|xs ys zs _ IH1 _ IH2]; simpl.
  - reflexivity.
  - destruct (f a); simpl; congruence.
  - destruct (f a), (f b); reflexivity.
  - congruence.
Qed.

Lemma count_below_none (x : R) (l : list R) :
  Forall (Rle x) l -> count_below x l = 0%nat.
Proof.
  unfold count_below. induction 1 as [|y l Hy _ IH]; simpl; [reflexivity|].
  rewrite float_lt_false by exact Hy. exact IH.
Qed.

Lemma sorted_position_counts (l : list R) (i : nat) (x : R) :
  StronglySorted Rle l -> l !! i = Some x ->
  (count_below x l <= i < count_upto x l)%nat.
Proof.
  intros Hsorted. revert i.
  induction Hsorted as [|a l Hl IH Ha]; intros i Hi; [done|].
  unfold count_below, count_upto in *. destruct i as [|i]; simpl in Hi.
  - injection Hi as ->. simpl.
    rewrite (float_lt_false x x) by lra. simpl.
    fold (count_below x l). rewrite count_below_none by exact Ha. lia.
  - specialize (IH i Hi).
    assert (Hax : (a <= x)%R).
    { rewrite Forall_forall in Ha. apply Ha. eapply list_elem_of_lookup_2. exact Hi. }
    simpl. rewrite (float_lt_false x a) by exact Hax. simpl.
    destruct (float_lt a x); simpl; lia.
Qed.

Lemma sorted_position_counts_distinct (l : list R) (i : nat) (x : R) :
  StronglySorted Rle l -> NoDup l -> l !! i = Some x -> count_below x l = i.
Proof.
  intros Hsorted. revert i.
  induction Hsorted as [|a l Hl IH Ha]; intros i Hnd Hi; [done|].
  apply NoDup_cons in Hnd as [Hnotin Hnd].
  destruct i as [|i]; simpl in Hi.
  - injection Hi as ->. unfold count_below. simpl.
    rewrite (float_lt_false x x) by lra.
    fold (count_below x l). apply count_below_none. exact Ha.
  - assert (Hin : x ∈ l) by (eapply list_elem_of_lookup_2; exact Hi).
    assert (Hax : (a < x)%R).
    { rewrite Forall_forall in Ha. specialize (Ha x Hin).
      destruct Ha as [Hlt | ->]; [exact Hlt | contradiction]. }
    unfold count_below. simpl. rewrite float_lt_true by exact Hax. simpl.
    f_equal. apply IH; assumption.
Qed.

(** The fraction [ecdf] pairs with a sorted value [x] is at least the
    fraction of the data strictly below [x] and strictly less than the
    fraction of the data at most [x]; when the data hold no value twice it
    is exactly the fraction strictly below [x]. *)
Theorem ecdf_fraction_counts_values_below (data : list R) (i : nat) (x : R) :
  (Stats.ecdf data).1 !! i = Some x ->
  exists q,
    (Stats.ecdf data).2 !! i = Some (Np.Finite q) /\
    (INR (count_below x data) / INR (length data) <= q)%R /\
    (q < INR (count_upto x data) / INR (length data))%R /\
    (NoDup data -> q = (INR (count_below x data) / INR (length data))%R).
Proof.
  intros Hx. unfold Stats.ecdf, Np.sort, Np.arange_len in *. simpl in *.
  pose proof (merge_sort_Permutation Rle data) as Hperm.
  assert (Hsorted : StronglySorted Rle (merge_sort Rle data))
    by (apply StronglySorted_merge_sort; apply _).
  assert (Hi : (i < length data)%nat).
  { rewrite <- (Permutation_length Hperm). eapply lookup_lt_Some. exact Hx. }
  assert (Hlen : length data <> 0%nat) by lia.
  assert (Hn : (0 < INR (length data))%R) by (apply lt_0_INR; lia).
  pose proof (sorted_position_counts _ _ _ Hsorted Hx) as [Hlo Hhi].
  unfold count_below, count_upto in Hlo, Hhi.
  rewrite (filter_length_permutation _ _ _ Hperm) in Hlo.
  rewrite (filter_length_permutation _ _ _ Hperm) in Hhi.
  exists (INR i / INR (length data))%R.
  split.
  { rewrite true_divide_nonzero by exact Hlen.
    change (map ?f ?l) with (f <$> l).
    rewrite list_lookup_fmap, lookup_seq_lt by exact Hi. reflexivity. }
  split.
  { unfold Rdiv. apply Rmult_le_compat_r.
    - left. apply Rinv_0_lt_compat. exact Hn.
    - apply le_INR. exact Hlo. }
  split.
  { unfold Rdiv. apply Rmult_lt_compat_r.
    - apply Rinv_0_lt_compat. exact Hn.
    - apply lt_INR. exact Hhi. }
  intros Hnd. f_equal. f_equal.
  assert (Hnd' : NoDup (merge_sort Rle data)) by (rewrite Hperm; exact Hnd).
  pose proof (sorted_position_counts_distinct _ _ _ Hsorted Hnd' Hx) as Hcount.
  unfold count_below in *.
  rewrite (filter_length_permutation _ _ _ Hperm) in Hcount. congruence.
Qed.

Lemma ecdf_fraction_counts_values_below_witness :
  (Stats.ecdf [2; 1]%R).1 !! 1%nat = Some 2%R /\
  exists q,
    (Stats.ecdf [2; 1]%R).2 !! 1%nat = Some (Np.Finite q) /\
    (INR (count_below 2 [2; 1]%R) / INR (length [2; 1]%R) <= q)%R /\
    (q < INR (count_upto 2 [2; 1]%R) / INR (length [2; 1]%R))%R /\
    (NoDup [2; 1]%R ->
     q = (INR (count_below 2 [2; 1]%R) / INR (length [2; 1]%R))%R).
Proof.
  assert (H : (Stats.ecdf [2; 1]%R).1 !! 1%nat = Some 2%R).
  { unfold Stats.ecdf, Np.sort. cbn.
    rewrite decide_False by lra.
    reflexivity. }
  split; [exact H|].
  exact (ecdf_fraction_counts_values_below [2; 1]%R 1 2%R H).
Defined.

(** ** The background subtraction of [compile_data.py] *)

Lemma filter_map_preserved {A : Type} (p : A -> bool) (F : A -> A) (l : list A) :
  (forall x, p (F x) = p x) ->
  List.filter p (map F l) = map F (List.filter p l).
Proof.
  intros HF. induction l as [|a l IH]; simpl; [reflexivity|].
  rewrite HF. destruct (p a); simpl; congruence.
Qed.

Lemma mean_shift (ys : list R) (c : R) :
  ys <> [] -> Np.mean (map (fun x => (x - c)%R) ys) = (Np.mean ys - c)%R.
Proof.
  intros Hne.
  assert (Hsum : Np.sum (map (fun x => (x - c)%R) ys)
                 = (Np.sum ys - INR (length ys) * c)%R).
  { clear Hne. induction ys as [|y ys IH]; [simpl; lra|].
    change (length (y :: ys)) with (S (length ys)). rewrite S_INR.
    simpl. simpl in IH. rewrite IH. lra. }
  assert (Hn : (0 < INR (length ys))%R)
    by (apply lt_0_INR; destruct ys; [done | simpl; lia]).
  unfold Np.mean. rewrite length_map, Hsum. field. lra.
Qed.

Lemma centred_series (m bg : CompileData.row -> option R) (M : R)
    (rows : list CompileData.row) :
  omap (fun x : option R => x)
       (map (fun r => CalFactor.nan_sub (m r)
                        (CalFactor.nan_add (Some M) (bg r))) rows)
  = map (fun x => (x - M)%R)
        (omap (fun x : option R => x)
              (map (fun r => CalFactor.nan_sub (m r) (bg r)) rows)).
Proof.
  induction rows as [|r rows IH]; [reflexivity|].
  cbn [map omap list_omap]. fold (@omap list _). 
  destruct (m r) as [x|], (bg r) as [y|]; cbn [CalFactor.nan_sub CalFactor.nan_add];
    try exact IH.
  cbn [map]. f_equal; [lra | exact IH].
Qed.

Lemma finite_entry (m bg : CompileData.row -> option R)
    (rows : list CompileData.row) (r : CompileData.row) :
  r ∈ rows -> is_Some (m r) -> is_Some (bg r) ->
  omap (fun x : option R => x)
       (map (fun r => CalFactor.nan_sub (m r) (bg r)) rows) <> [].
Proof.
  intros Hr [x Hx] [y Hy]. induction Hr as [r rows | r r' rows _ IH].
  - cbn [map omap list_omap]. rewrite Hx, Hy. discriminate.
  - cbn [map omap list_omap]. fold (@omap list _).
    destruct (CalFactor.nan_sub (m r') (bg r')); [discriminate | exact (IH Hx Hy)].
Qed.

Lemma series_centred (m bg : CompileData.row -> option R)
    (rows : list CompileData.row) (r : CompileData.row) :
  r ∈ rows -> is_Some (m r) -> is_Some (bg r) ->
  CompileData.series_mean
    (map (fun r => CalFactor.nan_sub (m r)
            (CalFactor.nan_add
               (CompileData.series_mean
                  (map (fun r => CalFactor.nan_sub (m r) (bg r)) rows))
               (bg r))) rows)
  = Some 0%R.
Proof.
  intros Hr Hm Hbg.
  pose proof (finite_entry m bg rows r Hr Hm Hbg) as Hne.
  unfold CompileData.series_mean at 2.
  destruct (omap (fun x : option R => x)
              (map (fun r => CalFactor.nan_sub (m r) (bg r)) rows))
    as [|y ys] eqn:E; [done|].
  cbn [CalFactor.nan_mean]. unfold CompileData.series_mean.
  rewrite centred_series, E.
  cbn [map CalFactor.nan_mean]. f_equal.
  change ((y - Np.mean (y :: ys))%R
          :: map (fun x => (x - Np.mean (y :: ys))%R) ys)
    with (map (fun x => (x - Np.mean (y :: ys))%R) (y :: ys)).
  rewrite mean_shift by discriminate. lra.
Qed.

(** After the subtraction the autofluorescence sample of a group is
    centred: when the group holds an [auto] row with a finite
    [mean_mCherry] and [mCherry_bg_val], the corrected [mean_mCherry] of
    the group's [auto] rows has mean zero, and likewise for [mean_yfp]. *)
Theorem background_centres_autofluorescence (fc_df d : list CompileData.row)
    (g : string * Z * Z) (r : CompileData.row) :
  r ∈ fc_df -> CompileData.in_group g r = true ->
  CompileData.is_auto r = true ->
  (is_Some (CompileData.num r "mean_mCherry") ->
   is_Some (CompileData.num r "mCherry_bg_val") ->
   CompileData.series_mean
     (map (fun r => CompileData.num r "mean_mCherry")
          (List.filter CompileData.is_auto
             (CompileData.background_step fc_df g d).2))
   = Some 0%R) /\
  (is_Some (CompileData.num r "mean_yfp") ->
   is_Some (CompileData.num r "yfp_bg_val") ->
   CompileData.series_mean
     (map (fun r => CompileData.num r "mean_yfp")
          (List.filter CompileData.is_auto
             (CompileData.background_step fc_df g d).2))
   = Some 0%R).
Proof.
  intros Hr Hg Hauto.
  assert (Hin : r ∈ List.filter CompileData.is_auto
                      (List.filter (CompileData.in_group g) fc_df)).
  { apply list_elem_of_In, filter_In. split; [|exact Hauto].
    apply filter_In. split; [apply list_elem_of_In; exact Hr | exact Hg]. }
  unfold CompileData.background_step. cbn [snd].
  rewrite !map_map.
  rewrite filter_map_preserved by reflexivity.
  rewrite map_map.
  split; intros Hm Hbg.
  - etransitivity;
      [|apply (series_centred (fun r => CompileData.num r "mean_mCherry")
                 (fun r => CompileData.num r "mCherry_bg_val") _ r Hin Hm Hbg)].
    reflexivity.
  - rewrite ?map_map. etransitivity;
      [|apply (series_centred (fun r => CompileData.num r "mean_yfp")
                 (fun r => CompileData.num r "yfp_bg_val") _ r Hin Hm Hbg)].
    reflexivity.
Qed.

Lemma background_centres_autofluorescence_witness :
  auto_row ∈ [auto_row; delta_row] /\
  CompileData.series_mean
    (map (fun r => CompileData.num r "mean_mCherry")
         (List.filter CompileData.is_auto
            (CompileData.background_step [auto_row; delta_row]
               ("glucose", 20181002%Z, 1%Z) []).2))
  = Some 0%R /\
  CompileData.series_mean
    (map (fun r => CompileData.num r "mean_yfp")
         (List.filter CompileData.is_auto
            (CompileData.background_step [auto_row; delta_row]
               ("glucose", 20181002%Z, 1%Z) []).2))
  = Some 0%R.
Proof.
  assert (Hr : auto_row ∈ [auto_row; delta_row]) by left.
  pose proof (background_centres_autofluorescence [auto_row; delta_row] []
                ("glucose", 20181002%Z, 1%Z) auto_row Hr eq_refl eq_refl)
    as [H1 H2].
  split; [exact Hr|]. split.
  - apply H1; eexists; reflexivity.
  - apply H2; eexists; reflexivity.
Defined.

Lemma filter_none {A : Type} (p : A -> bool) (l : list A) :
  (forall x, x ∈ l -> p x = false) -> List.filter p l = [].
Proof.
  induction l as [|a l IH]; intros H; simpl; [reflexivity|].
  rewrite (H a) by left. apply IH. intros x Hx. apply H. right. exact Hx.
Qed.

(** A group without an [auto] row loses its data: the mean
    autofluorescence is [nan], so every corrected intensity, [summed] and
    [sq_fluct] of the group's fluctuation rows and every corrected
    [mean_mCherry], [mean_yfp] and [total_mCherry] of its fold-change rows
    is [nan]; the rows themselves are all kept. *)
Theorem background_without_autofluorescence (fc_df d : list CompileData.row)
    (g : string * Z * Z) :
  (forall r, r ∈ fc_df -> CompileData.in_group g r = true ->
             CompileData.is_auto r = false) ->
  length (CompileData.background_step fc_df g d).1 = length d /\
  length (CompileData.background_step fc_df g d).2
  = length (List.filter (CompileData.in_group g) fc_df) /\
  (forall r, r ∈ (CompileData.background_step fc_df g d).1 ->
     CompileData.num r "I_1" = None /\ CompileData.num r "I_2" = None /\
     CompileData.num r "summed" = None /\ CompileData.num r "sq_fluct" = None) /\
  (forall r, r ∈ (CompileData.background_step fc_df g d).2 ->
     CompileData.num r "mean_mCherry" = None /\
     CompileData.num r "mean_yfp" = None /\
     CompileData.num r "total_mCherry" = None).
Proof.
  intros Hno.
  assert (Hauto : List.filter CompileData.is_auto
                    (List.filter (CompileData.in_group g) fc_df) = []).
  { apply filter_none. intros x Hx.
    apply list_elem_of_In, filter_In in Hx as [Hx Hg].
    apply Hno; [apply list_elem_of_In; exact Hx | exact Hg]. }
  unfold CompileData.background_step. rewrite Hauto.
  cbn [fst snd map CompileData.series_mean omap list_omap CalFactor.nan_mean].
  rewrite !map_map, !length_map.
  split; [reflexivity|]. split; [reflexivity|].
  change (map ?f ?l) with (f <$> l).
  split; intros r Hr; apply list_elem_of_fmap in Hr as (a & -> & _); cbn.
  - destruct (CompileData.num a "I_1"), (CompileData.num a "I_2"),
      (CompileData.num a "bg_val"); cbn; auto.
  - destruct (CompileData.num a "mean_mCherry"), (CompileData.num a "mean_yfp"),
      (CompileData.num a "mCherry_bg_val"), (CompileData.num a "yfp_bg_val");
      cbn; auto.
Qed.

Lemma background_without_autofluorescence_witness :
  length (CompileData.background_step [delta_row]
            ("glucose", 20181002%Z, 1%Z) [delta_row]).1 = 1%nat /\
  Forall (fun x => CompileData.num x "summed" = None)
         (CompileData.background_step [delta_row]
            ("glucose", 20181002%Z, 1%Z) [delta_row]).1.
Proof.
  assert (Hno : forall x, x ∈ [delta_row] ->
            CompileData.in_group ("glucose", 20181002%Z, 1%Z) x = true ->
            CompileData.is_auto x = false).
  { intros y Hy _. apply list_elem_of_singleton in Hy as ->. reflexivity. }
  destruct (background_without_autofluorescence [delta_row] [delta_row]
              ("glucose", 20181002%Z, 1%Z) Hno) as (Hlen & _ & Hd & _).
  split; [exact Hlen|].
  apply Forall_forall. intros x Hx.
  exact (proj1 (proj2 (proj2 (Hd x Hx)))).
Defined.

Lemma background_step_lengths (fc_df d : list CompileData.row)
    (g : string * Z * Z) :
  length (CompileData.background_step fc_df g d).1 = length d /\
  length (CompileData.background_step fc_df g d).2
  = length (List.filter (CompileData.in_group g) fc_df).
Proof.
  unfold CompileData.background_step. cbn [fst snd].
  rewrite !length_map. split; reflexivity.
Qed.

Lemma background_step_keeps_group (fc_df d : list CompileData.row)
    (g : string * Z * Z) (r : CompileData.row) :
  r ∈ (CompileData.background_step fc_df g d).2 ->
  CompileData.in_group g r = true.
Proof.
  unfold CompileData.background_step. cbn [snd]. rewrite !map_map.
  change (map ?f ?l) with (f <$> l).
  intros (a & -> & Ha)%list_elem_of_fmap.
  apply list_elem_of_In, filter_In in Ha as [_ Ha]. exact Ha.
Qed.

Lemma background_loop_spec (groups : list (string * Z * Z * list CompileData.row))
    (fc_df : list CompileData.row) :
  CompileData.background_loop groups fc_df
  = (map (fun gd => (CompileData.background_step fc_df gd.1 gd.2).1) groups,
     map (fun gd => (CompileData.background_step fc_df gd.1 gd.2).2) groups).
Proof.
  unfold CompileData.background_loop.
  enough (H : forall acc,
            foldl (fun acc gd =>
                     let out := CompileData.background_step fc_df gd.1 gd.2 in
                     (acc.1 ++ [out.1], acc.2 ++ [out.2])) acc groups
            = (acc.1 ++ map (fun gd => (CompileData.background_step fc_df gd.1 gd.2).1)
                          groups,
               acc.2 ++ map (fun gd => (CompileData.background_step fc_df gd.1 gd.2).2)
                          groups))
    by (rewrite H; reflexivity).
  induction groups as [|gd groups IH]; intros acc.
  - simpl. rewrite !app_nil_r. destruct acc; reflexivity.
  - cbn [foldl map]. rewrite IH. cbn [fst snd]. rewrite <- !app_assoc. reflexivity.
Qed.

Lemma length_concat_map {A B : Type} (f : A -> list B) (l : list A) :
  length (List.concat (map f l)) = sum_list (map (fun x => length (f x)) l).
Proof.
  induction l as [|a l IH]; [reflexivity|].
  cbn [map List.concat sum_list sum_list_with]. rewrite length_app, IH. reflexivity.
Qed.

(** The second loop of [compile_data.py] fails at the concatenation when
    the fluctuation frame holds no group.  Otherwise it keeps every
    fluctuation row, and the fold-change frame it writes holds, for every
    group of the fluctuation frame, the fold-change rows with the key of
    that group and no other row: fold-change rows of a run without
    fluctuation data are dropped. *)
Theorem subtract_background_rows
    (groups : list (string * Z * Z * list CompileData.row))
    (fc_df : list CompileData.row) :
  CompileData.subtract_background [] fc_df
  = Raise (ValueError "No objects to concatenate") /\
  (groups <> [] ->
   exists fluct fc,
     CompileData.subtract_background groups fc_df = Ok (fluct, fc) /\
     length fluct = length (List.concat (map snd groups)) /\
     length fc
     = sum_list (map (fun gd => length (List.filter (CompileData.in_group gd.1) fc_df))
                     groups) /\
     (forall r, r ∈ fc ->
        exists gd, gd ∈ groups /\ CompileData.in_group gd.1 r = true)).
Proof.
  split; [reflexivity|]. intros Hne.
  unfold CompileData.subtract_background. rewrite background_loop_spec.
  cbn [fst snd].
  destruct groups as [|gd groups]; [done|].
  do 2 eexists. split; [reflexivity|].
  split; [|split].
  - rewrite !length_concat_map. f_equal. apply map_ext. intros [g d].
    apply background_step_lengths.
  - rewrite length_concat_map. f_equal. apply map_ext. intros [g d].
    apply background_step_lengths.
  - intros r Hr. apply list_elem_of_In, in_concat in Hr as (l & Hl & Hr).
    apply in_map_iff in Hl as (gd' & <- & Hgd').
    exists gd'. split; [apply list_elem_of_In; exact Hgd'|].
    eapply background_step_keeps_group. apply list_elem_of_In. exact Hr.
Qed.

Lemma subtract_background_rows_witness :
  [("glucose", 20181002%Z, 1%Z, [delta_row])] <> [] /\
  exists fluct fc,
    CompileData.subtract_background [("glucose", 20181002%Z, 1%Z, [delta_row])]
      [auto_row; delta_row] = Ok (fluct, fc) /\
    length fluct = 1%nat /\ length fc = 2%nat.
Proof.
  assert (Hne : [("glucose", 20181002%Z, 1%Z, [delta_row])] <> []) by discriminate.
  split; [exact Hne|].
  destruct (proj2 (subtract_background_rows
                     [("glucose", 20181002%Z, 1%Z, [delta_row])]
                     [auto_row; delta_row]) Hne)
    as (fluct & fc & Hrun & Hfl & Hfc & _).
  exists fluct, fc. split; [exact Hrun|]. split; [exact Hfl | exact Hfc].
Defined.
